(** * Polly: entity filtering, merging, markup annotation and result signatures

    A shallow embedding of the algorithmic core of the Polly anonymizer:
    - [routes/anonymize.js]: term sets, the threshold setting, the three
      entity filters, the deny-list scanner, the entity merger and the
      [POST /anonymize] handler that chains them;
    - [utils/anonymizerUtils.js] and its unsorted variant: the markup
      annotator [applyAnonymizationToHtml];
    - [components/Anonymizer/index.js]: [stableStringify],
      [buildResultSignature], the ids and the toggles of the findings;
    - [services/presetService.js], [services/anonymizationService.js]:
      [normalizeThreshold] and the other normalizers of presets and saved
      runs, the search of saved runs and its previews.

    JavaScript values are embedded as a JSON-shaped inductive type, strings
    as lists of UTF-16 code units, finite numbers by their exact rational
    value, and exceptions by an error monad. The database and the two
    Presidio services are outside the embedding: the replies of the
    services are arguments, and of a search of the database the statement
    that is run and its parameters are the result. *)

From Stdlib Require Import ZArith QArith List Bool Lia Ascii String.
From Stdlib Require Import Qabs Qround DecimalString DecimalN.
From stdpp Require Import base numbers list sorting.
From Equations Require Import Equations.
Import ListNotations.

Set Default Proof Using "Type".
Local Open Scope list_scope.

(** ** Strings *)

(** A JavaScript string is a sequence of UTF-16 code units. *)
Definition jsstr := list N.

(** String literals of the source, written in ASCII. *)
Definition js (s : string) : jsstr :=
  List.map N_of_ascii (list_ascii_of_string s).

Definition jsstr_eqb (a b : jsstr) : bool := bool_decide (a = b).

(** [Array.prototype.join]. *)
Fixpoint join (sep : jsstr) (parts : list jsstr) : jsstr :=
  match parts with
  | [] => []
  | [p] => p
  | p :: rest => p ++ sep ++ join sep rest
  end.

(** ** Numbers *)

(** A finite double is embedded by its exact rational value; the two zeros
    are identified (no operation of the program tells them apart). *)
Inductive jsnum :=
| NaN
| PosInf
| NegInf
| Fin (q : Q).

Definition Qlt_bool (a b : Q) : bool := negb (Qle_bool b a).

(** The relational operators; every comparison with [NaN] is false. *)
Definition jsLe (a b : jsnum) : bool :=
  match a, b with
  | NaN, _ | _, NaN => false
  | NegInf, _ => true
  | _, PosInf => true
  | PosInf, _ => false
  | _, NegInf => false
  | Fin p, Fin q => Qle_bool p q
  end.

Definition jsLt (a b : jsnum) : bool :=
  match a, b with
  | NaN, _ | _, NaN => false
  | PosInf, _ => false
  | _, NegInf => false
  | NegInf, _ => true
  | _, PosInf => true
  | Fin p, Fin q => Qlt_bool p q
  end.

Definition jsGe (a b : jsnum) : bool := jsLe b a.
Definition jsGt (a b : jsnum) : bool := jsLt b a.

Definition numIsFinite (n : jsnum) : bool :=
  match n with Fin _ => true | _ => false end.

Definition ofNat (n : nat) : jsnum := Fin (inject_Z (Z.of_nat n)).
Definition ofZ (z : Z) : jsnum := Fin (inject_Z z).

(** [ToIntegerOrInfinity]: truncation towards zero, [NaN] to 0. *)
Inductive intOrInf :=
| IInt (z : Z)
| IPosInf
| INegInf.

Definition toIntegerOrInfinity (n : jsnum) : intOrInf :=
  match n with
  | NaN => IInt 0
  | PosInf => IPosInf
  | NegInf => INegInf
  | Fin q => IInt (Z.quot (Qnum q) (Zpos (Qden q)))
  end.

(** ** Values *)

#[local] Unset Elimination Schemes.
Inductive jsval :=
| JUndefined
| JNull
| JBool (b : bool)
| JNum (n : jsnum)
| JStr (s : jsstr)
| JArr (items : list jsval)
| JObj (fields : list (jsstr * jsval)).
#[local] Set Elimination Schemes.

Inductive jstype := TUndefined | TObject | TBoolean | TNumber | TString.

Definition typeOf (v : jsval) : jstype :=
  match v with
  | JUndefined => TUndefined
  | JNull | JArr _ | JObj _ => TObject
  | JBool _ => TBoolean
  | JNum _ => TNumber
  | JStr _ => TString
  end.

Definition isString (v : jsval) : bool :=
  match v with JStr _ => true | _ => false end.

Definition isNumber (v : jsval) : bool :=
  match v with JNum _ => true | _ => false end.

Definition isObjectType (v : jsval) : bool :=
  match typeOf v with TObject => true | _ => false end.

(** [ToBoolean]. *)
Definition truthy (v : jsval) : bool :=
  match v with
  | JUndefined | JNull => false
  | JBool b => b
  | JNum NaN => false
  | JNum (Fin q) => negb (Qeq_bool q 0)
  | JNum _ => true
  | JStr s => negb (jsstr_eqb s [])
  | JArr _ | JObj _ => true
  end.

(** [Number.isFinite]: false for everything that is not a number. *)
Definition Number_isFinite (v : jsval) : bool :=
  match v with JNum n => numIsFinite n | _ => false end.

(** [a ?? b]. *)
Definition nullish (v : jsval) : bool :=
  match v with JUndefined | JNull => true | _ => false end.

Definition coalesce (v d : jsval) : jsval := if nullish v then d else v.

(** Own-property lookup in an object literal: the first binding of the key. *)
Fixpoint lookupField (k : jsstr) (fields : list (jsstr * jsval)) : option jsval :=
  match fields with
  | [] => None
  | (k', v) :: rest => if jsstr_eqb k k' then Some v else lookupField k rest
  end.

Definition fieldOr (k : jsstr) (fields : list (jsstr * jsval)) : jsval :=
  match lookupField k fields with Some v => v | None => JUndefined end.

(** ** Exceptions *)

Inductive jsError := TypeError.

Inductive outcome (A : Type) :=
| Ret (a : A)
| Throw (e : jsError).
Arguments Ret {A} a.
Arguments Throw {A} e.

Definition bind {A B} (m : outcome A) (k : A -> outcome B) : outcome B :=
  match m with
  | Ret a => k a
  | Throw e => Throw e
  end.

Notation "'let*' x ':=' m 'in' k" := (bind m (fun x => k))
  (at level 10, x name, m at level 100, k at level 200).

Section Traversals.
Context {A B : Type}.

(** [Array.prototype.filter] with a callback that may throw. *)
Fixpoint filterM (f : A -> outcome bool) (l : list A) : outcome (list A) :=
  match l with
  | [] => Ret []
  | x :: rest =>
      let* b := f x in
      let* tl := filterM f rest in
      Ret (if b then x :: tl else tl)
  end.

(** [Array.prototype.map] with a callback that may throw. *)
Definition mapM (f : A -> outcome B) : list A -> outcome (list B) :=
  fix go (l : list A) : outcome (list B) :=
    match l with
    | [] => Ret []
    | x :: rest =>
        let* y := f x in
        let* tl := go rest in
        Ret (y :: tl)
    end.
End Traversals.

(** Property read [v.k] for the non-index, non-inherited names the program
    uses. Reading a property of [null] or [undefined] throws. *)
Definition getProp (v : jsval) (k : jsstr) : outcome jsval :=
  match v with
  | JUndefined | JNull => Throw TypeError
  | JObj fields => Ret (fieldOr k fields)
  | JArr items =>
      Ret (if jsstr_eqb k (js "length") then JNum (ofNat (length items))
           else JUndefined)
  | JStr s =>
      Ret (if jsstr_eqb k (js "length") then JNum (ofNat (length s))
           else JUndefined)
  | JBool _ | JNum _ => Ret JUndefined
  end.

(** [v?.k]. *)
Definition getPropOpt (v : jsval) (k : jsstr) : jsval :=
  match getProp v k with Ret x => x | Throw _ => JUndefined end.

(** ** String operations *)

(** The code units matched by [\s] and removed by [String.prototype.trim]:
    WhiteSpace and LineTerminator of ECMA-262. *)
Definition isWhiteSpace (c : N) : bool :=
  (bool_decide (c ∈ [9; 10; 11; 12; 13; 32; 160; 5760; 8232; 8233; 8239;
                     8287; 12288; 65279]%N)
   || ((8192 <=? c) && (c <=? 8202)))%N.

Fixpoint dropWhile {A} (p : A -> bool) (l : list A) : list A :=
  match l with
  | [] => []
  | x :: rest => if p x then dropWhile p rest else l
  end.

(** [String.prototype.trim]. *)
Definition trim (s : jsstr) : jsstr :=
  rev (dropWhile isWhiteSpace (rev (dropWhile isWhiteSpace s))).

(** [String.prototype.split] with a regular expression [/[...]+/] whose
    character class is [sep]: the pieces between maximal runs of separator
    characters, with an empty first (last) piece when the string starts
    (ends) with a separator. [cur] is the current piece, reversed. *)
Fixpoint splitAux (sep : N -> bool) (s : jsstr) (cur : jsstr) (inSep : bool)
  : list jsstr :=
  match s with
  | [] => [rev cur]
  | c :: rest =>
      if sep c then
        if inSep then splitAux sep rest cur true
        else rev cur :: splitAux sep rest [] true
      else splitAux sep rest (c :: cur) false
  end.

Definition splitRuns (sep : N -> bool) (s : jsstr) : list jsstr :=
  splitAux sep s [] false.

(** [TERM_SPLIT_REGEX = /[\n,]+/] and [ENTITY_TYPE_SPLIT_REGEX = /[\s,]+/]. *)
Definition TERM_SPLIT (c : N) : bool := ((c =? 10) || (c =? 44))%N.
Definition ENTITY_TYPE_SPLIT (c : N) : bool := (isWhiteSpace c || (c =? 44))%N.

(** [s.slice(a, b)] for indices that are natural numbers. *)
Definition sliceNat (s : jsstr) (a b : nat) : jsstr :=
  take (b - a) (drop a s).

(** A relative index of [slice], clamped into [0, len]. *)
Definition relativeIndex (len : Z) (i : intOrInf) : Z :=
  match i with
  | INegInf => 0
  | IPosInf => len
  | IInt z => if (z <? 0)%Z then Z.max (len + z) 0 else Z.min z len
  end.

(** [String.prototype.slice] with two number arguments. *)
Definition slice (s : jsstr) (a b : jsnum) : jsstr :=
  let len := Z.of_nat (length s) in
  let from := relativeIndex len (toIntegerOrInfinity a) in
  let to := relativeIndex len (toIntegerOrInfinity b) in
  sliceNat s (Z.to_nat from) (Z.to_nat to).

Fixpoint isPrefix (p s : jsstr) : bool :=
  match p, s with
  | [], _ => true
  | _ :: _, [] => false
  | a :: p', b :: s' => (a =? b)%N && isPrefix p' s'
  end.

(** The first position at or after [i] where [term] occurs; [s] is the
    suffix of the searched string that starts at [i]. *)
Fixpoint indexOfAux (term s : jsstr) (i : nat) : option nat :=
  if isPrefix term s then Some i
  else match s with
       | [] => None
       | _ :: rest => indexOfAux term rest (S i)
       end.

(** [s.indexOf(term, from)]; [None] stands for [-1]. *)
Definition indexOf (s term : jsstr) (from : nat) : option nat :=
  let k := Nat.min from (length s) in
  indexOfAux term (drop k s) k.

(** ** Number to string *)

Fixpoint uintDigits (d : Decimal.uint) : jsstr :=
  match d with
  | Decimal.Nil => []
  | Decimal.D0 r => 48%N :: uintDigits r
  | Decimal.D1 r => 49%N :: uintDigits r
  | Decimal.D2 r => 50%N :: uintDigits r
  | Decimal.D3 r => 51%N :: uintDigits r
  | Decimal.D4 r => 52%N :: uintDigits r
  | Decimal.D5 r => 53%N :: uintDigits r
  | Decimal.D6 r => 54%N :: uintDigits r
  | Decimal.D7 r => 55%N :: uintDigits r
  | Decimal.D8 r => 56%N :: uintDigits r
  | Decimal.D9 r => 57%N :: uintDigits r
  end.

Definition decimalN (n : N) : jsstr := uintDigits (N.to_uint n).

Definition decimalZ (z : Z) : jsstr :=
  if (z <? 0)%Z then 45%N :: decimalN (Z.abs_N z) else decimalN (Z.to_N z).

(** The numeral of [toFixed]: for [0 <= x < 10^21], the decimal digits of
    the integer [n] nearest to [x * 10^f] (the larger one on a tie), with
    the point [f] digits from the right. *)
Definition fixedNumeral (f : nat) (x : Q) : jsstr :=
  let n := Qfloor (x * inject_Z (10 ^ Z.of_nat f) + (1 # 2)) in
  let m := decimalN (Z.to_N n) in
  if (f =? 0)%nat then m
  else
    let k := length m in
    let m := if (k <=? f)%nat then repeat 48%N (f + 1 - k) ++ m else m in
    let k := length m in
    take (k - f) m ++ js "." ++ drop (k - f) m.

Definition qIsInteger (q : Q) : bool :=
  (Z.rem (Qnum q) (Zpos (Qden q)) =? 0)%Z.

Definition qTrunc (q : Q) : Z := Z.quot (Qnum q) (Zpos (Qden q)).

(** ** Built-ins of the runtime

    Functions of ECMA-262 that depend on Unicode tables or on the binary
    floating-point format are parameters of the development. *)
Record JsBuiltins := {
  (** [String.prototype.normalize("NFC")] *)
  normalizeNFC : jsstr -> jsstr;
  (** [String.prototype.toLowerCase] *)
  toLowerCase : jsstr -> jsstr;
  (** [String.prototype.toUpperCase] *)
  toUpperCase : jsstr -> jsstr;
  (** [Number.parseFloat] *)
  parseFloat : jsstr -> jsnum;
  (** [Number(s)] for a string [s] *)
  stringToNumber : jsstr -> jsnum;
  (** [Number::toString] for a finite number that is not an integer of
      magnitude below 2^53 *)
  numberToStringOther : Q -> jsstr;
  (** [JSON.stringify(s)] for a string [s] *)
  jsonQuote : jsstr -> jsstr
}.

(** ** Sets of strings

    A JavaScript [Set] of strings iterates in insertion order and holds each
    member once: a duplicate-free list. *)
Definition jsset := list jsstr.

Definition setHas (s : jsset) (x : jsstr) : bool := bool_decide (x ∈ s).

Definition setAdd (s : jsset) (x : jsstr) : jsset :=
  if setHas s x then s else s ++ [x].

(** [new Set(array)]. *)
Definition setFromList (l : list jsstr) : jsset := fold_left setAdd l [].

(** ** The deny-list scanner's loop *)

Definition inspect {A} (a : A) : {b : A | a = b} := exist _ a eq_refl.

(** A synthetic entity of the scanner (lines 113-120). *)
Definition denylistEntity (sourceText : jsstr) (start end_ : nat) : jsval :=
  JObj [ (js "entity_type", JStr (js "DENYLIST_TERM"));
         (js "start", JNum (ofNat start));
         (js "end", JNum (ofNat end_));
         (js "score", JNum (ofNat 1));
         (js "recognizer_result", JStr (js "denylist"));
         (js "text", JStr (sliceNat sourceText start end_)) ].

(** The [while (searchIndex <= lowerSource.length)] loop of
    [findDenylistEntities] for one non-empty term [c :: t], started at
    [searchIndex]; the result is what the loop pushes, in order. *)
Equations? scanTerm (lowerSource sourceText : jsstr) (c : N) (t : jsstr)
    (searchIndex : nat) : list jsval
    by wf (S (length lowerSource) - searchIndex) lt :=
  scanTerm lowerSource sourceText c t searchIndex
    with decide (searchIndex <= length lowerSource) => {
    | right _ := [];
    | left _ with inspect (indexOf lowerSource (c :: t) searchIndex) => {
      | exist _ None _ := [];
      | exist _ (Some matchIndex) _ :=
          let start := matchIndex in
          let end_ := start + length (c :: t) in
          denylistEntity sourceText start end_
            :: scanTerm lowerSource sourceText c t end_ } }.
Proof.
  (* [indexOf] never answers a position before the cursor, and the term
     is not empty: the cursor moves forward. *)
  assert (Hprefix : forall p s, isPrefix p s = true -> length p <= length s).
  { induction p as [|a p IH]; intros [|b s]; simpl; try lia; try discriminate.
    intros H. apply andb_prop in H as [_ H]. apply IH in H. lia. }
  assert (Haux : forall term s i k,
             indexOfAux term s i = Some k -> i <= k /\ k + length term <= i + length s).
  { intros term s. induction s as [|x s IH]; intros i k; simpl.
    - destruct (isPrefix term []) eqn:E; [|discriminate].
      intros [= <-]. apply Hprefix in E. simpl in E. lia.
    - destruct (isPrefix term (x :: s)) eqn:E.
      + intros [= <-]. apply Hprefix in E. simpl in E. lia.
      + intros H. apply IH in H. lia. }
  unfold indexOf in e. apply Haux in e. rewrite length_drop in e.
  simpl in *. lia.
Qed.

Section Program.
Context (B : JsBuiltins).

(** *** Conversions *)

(** [Number::toString]. An integer of magnitude below 2^53 is written by
    its decimal digits. *)
Definition numberToString (n : jsnum) : jsstr :=
  match n with
  | NaN => js "NaN"
  | PosInf => js "Infinity"
  | NegInf => js "-Infinity"
  | Fin q =>
      if qIsInteger q && (Z.abs (qTrunc q) <? 2 ^ 53)%Z
      then decimalZ (qTrunc q)
      else numberToStringOther B q
  end.

(** [Number.prototype.toFixed(f)] on a finite number. *)
Definition toFixed (f : nat) (q : Q) : jsstr :=
  let s := if Qlt_bool q 0 then js "-" else [] in
  let x := Qabs q in
  if Qle_bool (inject_Z (10 ^ 21)) x then s ++ numberToString (Fin x)
  else s ++ fixedNumeral f x.

Definition hasOwn (k : jsstr) (fields : list (jsstr * jsval)) : bool :=
  match lookupField k fields with Some _ => true | None => false end.

(** [ToString], as a template literal applies it. An array joins its
    elements with commas; a plain object answers ["[object Object]"]
    unless an own [toString] property (never callable in parsed JSON)
    hides the inherited method, in which case the conversion throws. *)
Fixpoint toStringJS (v : jsval) : outcome jsstr :=
  match v with
  | JUndefined => Ret (js "undefined")
  | JNull => Ret (js "null")
  | JBool true => Ret (js "true")
  | JBool false => Ret (js "false")
  | JNum n => Ret (numberToString n)
  | JStr s => Ret s
  | JArr items =>
      let* parts :=
        mapM (fun x => if nullish x then Ret [] else toStringJS x) items in
      Ret (join (js ",") parts)
  | JObj fields =>
      if hasOwn (js "toString") fields then Throw TypeError
      else Ret (js "[object Object]")
  end.

(** [ToNumber]. *)
Definition toNumberJS (v : jsval) : outcome jsnum :=
  match v with
  | JUndefined => Ret NaN
  | JNull => Ret (ofNat 0)
  | JBool true => Ret (ofNat 1)
  | JBool false => Ret (ofNat 0)
  | JNum n => Ret n
  | JStr s => Ret (stringToNumber B s)
  | JArr _ | JObj _ =>
      let* s := toStringJS v in
      Ret (stringToNumber B s)
  end.

(** *** routes/anonymize.js: term sets *)

Definition DEFAULT_ACCEPTANCE_THRESHOLD : Q := 1 # 2.

Definition normalizeListTerm (value : jsval) : jsstr :=
  match value with
  | JStr s => toLowerCase B (trim (normalizeNFC B s))
  | _ => []
  end.

Definition nonEmpty (s : jsstr) : bool := negb (jsstr_eqb s []).

Definition parseListInput (input : jsval) : list jsstr :=
  if negb (truthy input) then []
  else match input with
       | JArr entries =>
           List.filter nonEmpty
             (List.map (fun piece => normalizeListTerm (JStr piece))
                (flat_map
                   (fun entry =>
                      match entry with
                      | JStr s => splitRuns TERM_SPLIT s
                      | _ => []
                      end) entries))
       | JStr s =>
           List.filter nonEmpty
             (List.map (fun piece => normalizeListTerm (JStr piece))
                (splitRuns TERM_SPLIT s))
       | _ => []
       end.

Definition buildTermSet (input : jsval) : jsset :=
  setFromList (parseListInput input).

Definition parseRequestedEntityTypes (input : jsval) : list jsstr :=
  let values := match input with JArr l => l | _ => [input] end in
  setFromList
    (List.filter nonEmpty
       (flat_map
          (fun value =>
             match value with
             | JStr s =>
                 List.filter nonEmpty
                   (List.map (fun part => toUpperCase B (trim part))
                      (splitRuns ENTITY_TYPE_SPLIT s))
             | _ => []
             end) values)).

(** *** routes/anonymize.js: the term policy filter *)

Definition asFinite (v : jsval) : option Q :=
  match v with JNum (Fin q) => Some q | _ => None end.

Definition shouldIncludeEntity (entity : jsval) (sourceText : jsstr)
    (allowlistSet denylistSet : jsset) : outcome bool :=
  if negb (truthy entity) || negb (isObjectType entity) then Ret false
  else
    let* start := getProp entity (js "start") in
    let* end_ := getProp entity (js "end") in
    match asFinite start, asFinite end_ with
    | Some a, Some b =>
        if Qle_bool b a (* start >= end *) then Ret false
        else
          let candidate := slice sourceText (Fin a) (Fin b) in
          let normalizedCandidate := normalizeListTerm (JStr candidate) in
          if (length normalizedCandidate =? 0)%nat then Ret false
          else if setHas denylistSet normalizedCandidate then Ret true
          else if setHas allowlistSet normalizedCandidate then Ret false
          else Ret true
    | _, _ => Ret false (* !Number.isFinite(start) || !Number.isFinite(end) *)
    end.

(** *** routes/anonymize.js: the deny-list scanner *)

Definition findDenylistEntities (sourceText : jsval) (denylistSet : jsset)
  : list jsval :=
  match sourceText with
  | JStr text =>
      if (length denylistSet =? 0)%nat then []
      else
        let lowerSource := toLowerCase B text in
        flat_map
          (fun term =>
             match term with
             | [] => [] (* if (!term) continue *)
             | c :: t => scanTerm lowerSource text c t 0
             end) denylistSet
  | _ => []
  end.

(** *** routes/anonymize.js: the entity merger *)

(** The key [`${start}-${end}-${type}`] of a candidate with finite
    offsets. *)
Definition entityKey (start end_ : Q) (type : jsval) : outcome jsstr :=
  let* t := toStringJS type in
  Ret (numberToString (Fin start) ++ js "-"
       ++ numberToString (Fin end_) ++ js "-" ++ t).

(** The closure [pushIfUnique] over its two captured variables. *)
Definition pushIfUnique (st : jsset * list jsval) (entity : jsval)
  : outcome (jsset * list jsval) :=
  let '(seen, output) := st in
  if negb (truthy entity) || negb (isObjectType entity) then Ret st
  else
    let* start := getProp entity (js "start") in
    let* end_ := getProp entity (js "end") in
    let* rawType := getProp entity (js "entity_type") in
    let type := coalesce rawType (JStr []) in
    match asFinite start, asFinite end_ with
    | Some a, Some b =>
        if Qle_bool b a (* start >= end *) then Ret st
        else
          let* key := entityKey a b type in
          if setHas seen key then Ret st
          else Ret (setAdd seen key, output ++ [entity])
    | _, _ => Ret st
    end.

Fixpoint forEachM {S} (f : S -> jsval -> outcome S) (l : list jsval) (st : S)
  : outcome S :=
  match l with
  | [] => Ret st
  | x :: rest => let* st' := f st x in forEachM f rest st'
  end.

Definition mergeEntities (baseEntities supplementalEntities : list jsval)
  : outcome (list jsval) :=
  let* st := forEachM pushIfUnique baseEntities ([], []) in
  let* st := forEachM pushIfUnique supplementalEntities st in
  Ret (snd st).

End Program.

Section Pipeline.
Context (B : JsBuiltins).

(** *** routes/anonymize.js: the [POST /anonymize] handler *)

(** [typeof v === "number" ? v : typeof v === "string" ?
    Number.parseFloat(v) : Number.NaN], the reading of a threshold or of
    a score. *)
Definition parseNumeric (v : jsval) : jsnum :=
  match v with
  | JNum n => n
  | JStr s => parseFloat B s
  | _ => NaN
  end.

(** Lines 387-397: the effective acceptance threshold. *)
Definition acceptanceThresholdOf (rawThreshold : jsval) : jsnum :=
  let parsedThreshold := parseNumeric rawThreshold in
  if numIsFinite parsedThreshold
     && jsGe parsedThreshold (ofNat 0) && jsLe parsedThreshold (ofNat 1)
  then parsedThreshold
  else Fin DEFAULT_ACCEPTANCE_THRESHOLD.

(** Lines 447-458: the callback of [entityTypeFiltered]. *)
Definition entityTypeKeeps (entityTypeFilterSet : option jsset)
    (entity : jsval) : outcome bool :=
  if negb (truthy entity) || negb (isObjectType entity) then Ret false
  else
    match entityTypeFilterSet with
    | None => Ret true
    | Some set =>
        let* rawType := getProp entity (js "entity_type") in
        let type :=
          match rawType with
          | JStr s => toUpperCase B (trim s)
          | _ => []
          end in
        Ret (setHas set type)
    end.

(** Lines 461-471: the callback of [thresholdFiltered]. *)
Definition thresholdKeeps (acceptanceThreshold : jsnum) (entity : jsval)
  : outcome bool :=
  if negb (truthy entity) || negb (isObjectType entity) then Ret false
  else
    let* rawScore := getProp entity (js "score") in
    let score := parseNumeric rawScore in
    Ret (if numIsFinite score then jsGe score acceptanceThreshold else true).

(** Lines 445-481: from the analyzer's reply to [filteredAnalyzerResults]. *)
Definition filterAnalyzerResults (analyzerResults : jsval) (text : jsstr)
    (entityTypeFilterSet : option jsset) (acceptanceThreshold : jsnum)
    (allowlistSet denylistSet : jsset) : outcome (list jsval) :=
  let* entityTypeFiltered :=
    match analyzerResults with
    | JArr results => filterM (entityTypeKeeps entityTypeFilterSet) results
    | _ => Ret []
    end in
  let* thresholdFiltered :=
    filterM (thresholdKeeps acceptanceThreshold) entityTypeFiltered in
  let* allowDenyFiltered :=
    filterM (fun entity =>
               shouldIncludeEntity B entity text allowlistSet denylistSet)
      thresholdFiltered in
  let denylistEntities := findDenylistEntities B (JStr text) denylistSet in
  mergeEntities B allowDenyFiltered denylistEntities.

(** What a call to one of the two Presidio services comes to: the
    request fails or its body is not JSON, the service answers with an
    error status, or it answers with a JSON body. *)
Inductive serviceReply :=
| ServiceUnreachable
| ServiceNotOk (message : jsstr)
| ServiceJson (body : jsval).

Inductive response :=
| Status400 (error : jsstr)
| Status500 (error : jsstr)
| Status502 (error details : jsstr)
| Status200 (anonymizedText items : jsval) (entities : list jsval).

Definition proxyFailed : response :=
  Status500 (js "Unexpected error while contacting Presidio services.").

(** Lines 366-521. The two service calls are the handler's only effects;
    their replies are arguments here, and the request payload (text,
    language, model) that the analyzer receives is left out. *)
Definition postAnonymize (body : jsval) (analyzer anonymizer : serviceReply)
  : response :=
  let text := getPropOpt (coalesce body (JObj [])) (js "text") in
  let requestedEntityTypes :=
    parseRequestedEntityTypes B (getPropOpt body (js "entityTypes")) in
  let entityTypeFilterSet :=
    if (0 <? length requestedEntityTypes)%nat
    then Some (setFromList requestedEntityTypes) else None in
  let acceptanceThreshold :=
    acceptanceThresholdOf (getPropOpt body (js "threshold")) in
  let allowlistSet := buildTermSet B (getPropOpt body (js "allowlist")) in
  let denylistSet := buildTermSet B (getPropOpt body (js "denylist")) in
  match text with
  | JStr text =>
      if (length (trim text) =? 0)%nat
      then Status400 (js "Request body must include non-empty text.")
      else
        match analyzer with
        | ServiceUnreachable => proxyFailed
        | ServiceNotOk message =>
            Status502
              (js "Presidio analyzer request failed. Check that the service is reachable.")
              message
        | ServiceJson analyzerResults =>
            match filterAnalyzerResults analyzerResults text
                    entityTypeFilterSet acceptanceThreshold
                    allowlistSet denylistSet with
            | Throw _ => proxyFailed
            | Ret filteredAnalyzerResults =>
                match anonymizer with
                | ServiceUnreachable => proxyFailed
                | ServiceNotOk message =>
                    Status502
                      (js "Presidio anonymizer request failed. Check that the service is reachable.")
                      message
                | ServiceJson anonymizerResult =>
                    match getProp anonymizerResult (js "text"),
                          getProp anonymizerResult (js "anonymized_text"),
                          getProp anonymizerResult (js "items") with
                    | Ret t, Ret at_, Ret items =>
                        Status200
                          (coalesce (coalesce t at_) (JStr []))
                          (coalesce items (JArr []))
                          filteredAnalyzerResults
                    | _, _, _ => proxyFailed
                    end
                end
            end
        end
  | _ => Status400 (js "Request body must include non-empty text.")
  end.

(** *** services/anonymizationService.js, services/presetService.js *)

Definition DEFAULT_THRESHOLD : Q := 1 # 2.

(** [normalizeThreshold], the same in both services. *)
Definition normalizeThreshold (value : jsval) : jsnum :=
  match parseNumeric value with
  | Fin numericValue =>
      if Qlt_bool numericValue 0 then ofNat 0
      else if Qlt_bool 1 numericValue then ofNat 1
      else stringToNumber B (toFixed B 4 numericValue)
  | _ => Fin DEFAULT_THRESHOLD
  end.

End Pipeline.

(** ** Global literal replacement

    [GetSubstitution] for a regular expression without capture groups:
    in the replacement text, [$$] stands for a dollar sign, [$&] for the
    matched text, [$`] for the text before the match and [$'] for the text
    after it; every other character, a lone [$] included, stands for
    itself. *)
Fixpoint expandReplacement (template matched before after : jsstr) : jsstr :=
  match template with
  | [] => []
  | c :: rest =>
      if (c =? 36)%N then
        match rest with
        | d :: rest' =>
            if (d =? 36)%N then
              36%N :: expandReplacement rest' matched before after
            else if (d =? 38)%N then
              matched ++ expandReplacement rest' matched before after
            else if (d =? 96)%N then
              before ++ expandReplacement rest' matched before after
            else if (d =? 39)%N then
              after ++ expandReplacement rest' matched before after
            else c :: expandReplacement rest matched before after
        | [] => [c]
        end
      else c :: expandReplacement rest matched before after
  end.

(** The scan of [html.replace(new RegExp(escaped, "g"), replacement)],
    where [escaped] is the found text with every metacharacter of regular
    expressions escaped: the expression matches the found text [pat]
    literally, so the scan replaces its occurrences from left to right
    without overlap. [s] is the suffix of [orig] at [pos]; [skip] counts
    the code units of the current match still to pass over. *)
Fixpoint replaceAux (orig pat template s : jsstr) (pos skip : nat) : jsstr :=
  match s with
  | [] => []
  | c :: rest =>
      match skip with
      | S k => replaceAux orig pat template rest (S pos) k
      | O =>
          if isPrefix pat s then
            expandReplacement template pat (take pos orig)
              (drop (pos + length pat) orig)
            ++ replaceAux orig pat template rest (S pos) (length pat - 1)
          else c :: replaceAux orig pat template rest (S pos) 0
      end
  end.

(** Used with a non-empty [pat] only. *)
Definition replaceAll (s pat template : jsstr) : jsstr :=
  replaceAux s pat template s 0 0.

(** ** Sorting *)

Section Sorting.
Context {A : Type}.

(** Insertion of [x] behind the elements that [before] puts before it
    ([before y x]: [y] sorts strictly before [x]). *)
Fixpoint insertSorted (before : A -> A -> bool) (x : A) (l : list A) : list A :=
  match l with
  | [] => [x]
  | y :: rest =>
      if before y x then y :: insertSorted before x rest else x :: l
  end.

(** A stable sort: equal elements keep their order. *)
Definition stableSort (before : A -> A -> bool) (l : list A) : list A :=
  foldr (insertSorted before) [] l.
End Sorting.

(** The order of strings: lexicographic on code units. *)
Fixpoint strLtb (a b : jsstr) : bool :=
  match a, b with
  | _, [] => false
  | [], _ :: _ => true
  | x :: a', y :: b' =>
      if (x <? y)%N then true
      else if (y <? x)%N then false
      else strLtb a' b'
  end.

(** [Array.prototype.sort()] on an array of strings. *)
Definition sortStrings (l : list jsstr) : list jsstr :=
  stableSort strLtb l.

Section Annotator.
Context (B : JsBuiltins).

(** *** utils/anonymizerUtils.js *)

(** The display map of the options: a [Map] or a plain object, read
    through its lookup; [None] when the option is absent or falsy. *)
Definition displayMap := option (jsstr -> jsval).

Definition resolveDisplayEntityType (entityType : jsval) (map : displayMap)
  : jsval :=
  match entityType with
  | JStr s =>
      if (length s =? 0)%nat then entityType
      else match map with
           | None => entityType
           | Some get => coalesce (get s) entityType
           end
  | _ => entityType
  end.

(** Lines 64-71: the placeholder of an entity type. *)
Definition replacementFor (entityType : jsval) (map : displayMap)
  : outcome jsstr :=
  let displayEntityType := resolveDisplayEntityType entityType map in
  if truthy displayEntityType then
    let* len := getProp displayEntityType (js "length") in
    let* n := toNumberJS B len in
    if jsGt n (ofNat 0) then
      let* shown := toStringJS B displayEntityType in
      Ret (js "&lt;" ++ shown ++ js "&gt;")
    else Ret (js "&lt;REDACTED&gt;")
  else Ret (js "&lt;REDACTED&gt;").

(** [object.key = v]: an existing property keeps its place. *)
Fixpoint setField (k : jsstr) (v : jsval) (fields : list (jsstr * jsval))
  : list (jsstr * jsval) :=
  match fields with
  | [] => [(k, v)]
  | (k', v') :: rest =>
      if jsstr_eqb k k' then (k, v) :: rest
      else (k', v') :: setField k v rest
  end.

(** Lines 40-49: the callback that writes [foundText] into an entity. *)
Definition assignFoundText (plainText : jsstr) (entity : jsval) : jsval :=
  match entity with
  | JObj fields =>
      match fieldOr (js "start") fields, fieldOr (js "end") fields with
      | JNum a, JNum b =>
          if jsGt b a
          then JObj (setField (js "foundText") (JStr (slice plainText a b)) fields)
          else entity
      | _, _ => entity
      end
  | _ => entity
  end.

(** [typeof a?.foundText === "string" ? a.foundText.length : 0]. *)
Definition foundTextLength (entity : jsval) : nat :=
  match getPropOpt entity (js "foundText") with
  | JStr s => length s
  | _ => 0
  end.

Definition isUndefined (v : jsval) : bool :=
  match v with JUndefined => true | _ => false end.

(** Lines 52-56: [[...entities].sort((a, b) => bLength - aLength)]. The
    sort is stable and puts [undefined] elements last without comparing
    them. *)
Definition sortEntities (entities : list jsval) : list jsval :=
  stableSort (fun y x => (foundTextLength x <? foundTextLength y)%nat)
    (List.filter (fun e => negb (isUndefined e)) entities)
  ++ List.filter isUndefined entities.

(** Lines 58-78: one replacement pass. [html] is the current markup; a
    value that is not a string has no [replace] method. *)
Definition annotatePass (map : displayMap) (html : jsval) (entity : jsval)
  : outcome jsval :=
  if truthy entity then
    match getPropOpt entity (js "foundText") with
    | JStr foundText =>
        if (0 <? length foundText)%nat then
          let* rawType := getProp entity (js "entity_type") in
          let* replacement := replacementFor rawType map in
          match html with
          | JStr h => Ret (JStr (replaceAll h foundText replacement))
          | _ => Throw TypeError
          end
        else Ret html
    | _ => Ret html
    end
  else Ret html.

Definition stringOrEmpty (v : jsval) : jsstr :=
  match v with JStr s => s | _ => [] end.

(** The [forEach] that writes the found texts, run when [plainText] is a
    string. The entities are objects shared with the caller; each one is
    rewritten from its own offsets, so an object listed twice gets the same
    text twice. *)
Definition assignFoundTexts (plainText : jsval) (entities : list jsval)
  : list jsval :=
  match plainText with
  | JStr p => List.map (assignFoundText p) entities
  | _ => entities
  end.

(** [applyAnonymizationToHtml] of utils/anonymizerUtils.js. [entities]
    is an array ([Some]) or [null]/[undefined] ([None]). *)
Definition applyAnonymizationToHtml (html plainText _items : jsval)
    (entities : option (list jsval)) (entityTypeDisplayMap : displayMap)
  : outcome jsstr :=
  let sanitizedHtml := stringOrEmpty html in
  match entities with
  | None => Ret sanitizedHtml
  | Some entities =>
      if (length entities =? 0)%nat then Ret sanitizedHtml
      else
        let entities := assignFoundTexts plainText entities in
        let sortedEntities := sortEntities entities in
        let* result :=
          forEachM (annotatePass entityTypeDisplayMap) sortedEntities
            (JStr sanitizedHtml) in
        Ret (stringOrEmpty result)
  end.

(** *** The second [applyAnonymizationToHtml] (unnamed source file)

    The same function without the sort: the passes run in reverse index
    order, on [html] itself. *)
Definition applyAnonymizationToHtml_unsorted (html plainText _items : jsval)
    (entities : option (list jsval)) (entityTypeDisplayMap : displayMap)
  : outcome jsstr :=
  match entities with
  | None => Throw TypeError (* entities.length *)
  | Some entities =>
      let entities := assignFoundTexts plainText entities in
      let* html :=
        forEachM (annotatePass entityTypeDisplayMap) (rev entities) html in
      Ret (stringOrEmpty html)
  end.

End Annotator.

Section Signature.
Context (B : JsBuiltins).

(** *** components/Anonymizer/index.js *)

(** [JSON.stringify] of a number. *)
Definition jsonNumber (n : jsnum) : jsstr :=
  if numIsFinite n then numberToString B n else js "null".

(** [Number(value.toFixed(6))]. *)
Definition roundTo6 (q : Q) : jsnum := stringToNumber B (toFixed B 6 q).

(** The rendering of a property that [stableStringify] looks up. *)
Fixpoint lookupRendered (k : jsstr) (rendered : list (jsstr * jsstr)) : jsstr :=
  match rendered with
  | [] => js "null"
  | (k', r) :: rest => if jsstr_eqb k k' then r else lookupRendered k rest
  end.

(** Lines 42-77. In the object case the values are rendered where they
    stand and looked up by key afterwards, which is
    [stableStringify(value[key])] for each sorted key (see
    [stableStringify_object]). *)
Fixpoint stableStringify (value : jsval) : jsstr :=
  match value with
  | JNull => js "null"
  | JNum (Fin q) => jsonNumber (roundTo6 q)
  | JNum _ => js "null"
  | JBool true => js "true"
  | JBool false => js "false"
  | JStr s => jsonQuote B s
  | JUndefined => js "null"
  | JArr items =>
      js "[" ++ join (js ",") (List.map stableStringify items) ++ js "]"
  | JObj fields =>
      let rendered :=
        List.map (fun kv => (fst kv, stableStringify (snd kv))) fields in
      let keys := sortStrings (List.map fst fields) in
      let parts :=
        List.map (fun key => jsonQuote B key ++ js ":" ++ lookupRendered key rendered)
          keys in
      js "{" ++ join (js ",") parts ++ js "}"
  end.

(** A destructuring default: it applies to [undefined] only. *)
Definition orDefault (v d : jsval) : jsval :=
  match v with JUndefined => d | _ => v end.

(** The component's own [DEFAULT_ACCEPTANCE_THRESHOLD] (line 21). *)
Definition DEFAULT_ACCEPTANCE_THRESHOLD_UI : Q := 1 # 2.

(** Lines 106-116. *)
Definition normalizeEntityTypes (entityTypes : jsval) : list jsstr :=
  match entityTypes with
  | JArr values =>
      sortStrings
        (setFromList
           (List.filter nonEmpty
              (List.map
                 (fun value =>
                    match value with
                    | JStr s => toUpperCase B (trim s)
                    | _ => []
                    end) values)))
  | _ => []
  end.

Definition arrayOrEmpty (v : jsval) : jsval :=
  match v with JArr _ => v | _ => JArr [] end.

(** Lines 79-136. *)
Definition buildResultSignature (payload : jsval) : jsstr :=
  if negb (truthy payload) || negb (isObjectType payload) then []
  else
    let field name default := orDefault (getPropOpt payload (js name)) default in
    let sourceText := field "sourceText"%string (JStr []) in
    let sourceHtml := field "sourceHtml"%string (JStr []) in
    let resultText := field "resultText"%string (JStr []) in
    let resultHtml := field "resultHtml"%string (JStr []) in
    let nerModel := field "nerModel"%string (JStr []) in
    let language := field "language"%string (JStr []) in
    let threshold :=
      field "threshold"%string (JNum (Fin DEFAULT_ACCEPTANCE_THRESHOLD_UI)) in
    let allowlist := field "allowlist"%string (JStr []) in
    let denylist := field "denylist"%string (JStr []) in
    let entityTypes := field "entityTypes"%string (JArr []) in
    let entities := field "entities"%string (JArr []) in
    let items := field "items"%string (JArr []) in
    let normalizedThreshold :=
      match threshold with
      | JNum n => n
      | JStr s => parseFloat B s
      | _ => Fin DEFAULT_ACCEPTANCE_THRESHOLD_UI
      end in
    let normalizedEntityTypes := normalizeEntityTypes entityTypes in
    let signaturePayload :=
      JObj [ (js "sourceText", sourceText);
             (js "sourceHtml", sourceHtml);
             (js "resultText", resultText);
             (js "resultHtml", resultHtml);
             (js "nerModel", nerModel);
             (js "language", language);
             (js "threshold",
               JNum (match normalizedThreshold with
                     | Fin q => roundTo6 q
                     | _ => Fin DEFAULT_ACCEPTANCE_THRESHOLD_UI
                     end));
             (js "allowlist", allowlist);
             (js "denylist", denylist);
             (js "entityTypes", JArr (List.map JStr normalizedEntityTypes));
             (js "entities", arrayOrEmpty entities);
             (js "items", arrayOrEmpty items) ] in
    stableStringify signaturePayload.

End Signature.

(** ** A runtime for ASCII inputs

    On strings of ASCII characters NFC normalisation is the identity and the
    case mappings act on the letters A-Z and a-z alone. Numerals of the
    shape [-]digits[.digits] are read by their decimal value, and a number
    with a finite decimal expansion is written by it, where the runtime
    reads and writes the nearest double. [asciiBuiltins] stands for the
    runtime on the ASCII inputs of the examples. *)

Definition asciiLower (s : jsstr) : jsstr :=
  List.map (fun c => if ((65 <=? c) && (c <=? 90))%N then (c + 32)%N else c) s.

Definition asciiUpper (s : jsstr) : jsstr :=
  List.map (fun c => if ((97 <=? c) && (c <=? 122))%N then (c - 32)%N else c) s.

Definition isDigit (c : N) : bool := ((48 <=? c) && (c <=? 57))%N.

Definition digitsValue (s : jsstr) : Z :=
  fold_left (fun acc c => (10 * acc + (Z.of_N c - 48))%Z) s 0%Z.

Definition asciiUnsigned (s : jsstr) : jsnum :=
  let rest := dropWhile isDigit s in
  let whole := take (length s - length rest) s in
  match whole, rest with
  | [], _ => NaN
  | _, [] => Fin (inject_Z (digitsValue whole))
  | _, dot :: frac =>
      if (dot =? 46)%N && forallb isDigit frac && (0 <? length frac)%nat
      then Fin (Qplus (inject_Z (digitsValue whole))
                  (Qmake (digitsValue frac)
                     (Z.to_pos (10 ^ Z.of_nat (length frac)))))
      else NaN
  end.

Definition asciiParseNumber (s : jsstr) : jsnum :=
  match s with
  | c :: rest =>
      if (c =? 45)%N then
        match asciiUnsigned rest with
        | Fin q => Fin (- q)
        | other => other
        end
      else asciiUnsigned s
  | [] => NaN
  end.

(** The least number of decimals, below [fuel], that write [x] exactly. *)
Fixpoint decimalPlaces (fuel : nat) (x : Q) (k : nat) : option nat :=
  match fuel with
  | O => None
  | S fuel' =>
      if qIsInteger (Qred (x * inject_Z (10 ^ Z.of_nat k))) then Some k
      else decimalPlaces fuel' x (S k)
  end.

Definition asciiNumberToString (q : Q) : jsstr :=
  match decimalPlaces 20 (Qabs q) 0 with
  | Some k => (if Qlt_bool q 0 then js "-" else []) ++ fixedNumeral k (Qabs q)
  | None => js "NaN"
  end.

Definition asciiBuiltins : JsBuiltins := {|
  normalizeNFC := fun s => s;
  toLowerCase := asciiLower;
  toUpperCase := asciiUpper;
  parseFloat := asciiParseNumber;
  stringToNumber := asciiParseNumber;
  numberToStringOther := asciiNumberToString;
  jsonQuote := fun s => [34%N] ++ s ++ [34%N]
|}.

(** Lower-casing that knows one more letter: U+0130, the capital I with
    a dot above, whose lower case is the two code units U+0069 U+0307
    (SpecialCasing.txt of Unicode, which [toLowerCase] follows). *)
Definition dottedLower (s : jsstr) : jsstr :=
  flat_map (fun c => if (c =? 304)%N then [105; 775]%N else asciiLower [c]) s.

Definition dottedBuiltins : JsBuiltins := {|
  normalizeNFC := fun s => s;
  toLowerCase := dottedLower;
  toUpperCase := asciiUpper;
  parseFloat := asciiParseNumber;
  stringToNumber := asciiParseNumber;
  numberToStringOther := asciiNumberToString;
  jsonQuote := fun s => [34%N] ++ s ++ [34%N]
|}.

(** The text "Istanbul jan" with U+0130 as its first letter: 12 code
    units, "jan" at [9, 12). *)
Definition istanbulJan : jsstr := 304%N :: js "stanbul jan".

(** ** Well-formed candidates

    The span of an entity record that is an object with finite numeric
    offsets [start < end]; every other record is malformed. *)
Definition entitySpan (entity : jsval) : option (Q * Q) :=
  match entity with
  | JObj fields =>
      match asFinite (fieldOr (js "start") fields),
            asFinite (fieldOr (js "end") fields) with
      | Some a, Some b => if Qlt_bool a b then Some (a, b) else None
      | _, _ => None
      end
  | _ => None
  end.

Definition wellFormed (entity : jsval) : bool :=
  match entitySpan entity with Some _ => true | None => false end.

(** The normalized found-text of a span, in the words of the
    specification: [sourceText.slice(start, end)], NFC-normalized, then
    trimmed, then lower-cased. *)
Definition foundTerm (B : JsBuiltins) (sourceText : jsstr) (a b : Q) : jsstr :=
  toLowerCase B (trim (normalizeNFC B (slice sourceText (Fin a) (Fin b)))).

(** ** Notions of the specification *)

(** [term] occurs in [s] at position [i]. *)
Definition occursAt (s term : jsstr) (i : nat) : Prop :=
  sliceNat s i (i + length term) = term.

(** The matches of the specification: from the cursor, the first
    occurrence at or after it is a match, and the cursor moves to the end
    of that match; the scan ends when no occurrence is left. *)
Inductive GreedyMatches (s term : jsstr) : nat -> list nat -> Prop :=
| greedy_done cursor :
    (forall i, cursor <= i -> ~ occursAt s term i) ->
    GreedyMatches s term cursor []
| greedy_step cursor p rest :
    cursor <= p ->
    occursAt s term p ->
    (forall i, cursor <= i < p -> ~ occursAt s term i) ->
    GreedyMatches s term (p + length term) rest ->
    GreedyMatches s term cursor (p :: rest).

(** The two findings of the example, [PERSON] over "Ann Smith" and over
    "Ann", as records of the plain text "Ann Smith met Ann". *)
Definition annSmith : jsval :=
  JObj [ (js "entity_type", JStr (js "PERSON"));
         (js "start", JNum (ofNat 0)); (js "end", JNum (ofNat 9)) ].

Definition ann : jsval :=
  JObj [ (js "entity_type", JStr (js "PERSON"));
         (js "start", JNum (ofNat 0)); (js "end", JNum (ofNat 3)) ].

Definition annText : jsval := JStr (js "Ann Smith met Ann").

Section Notions.
Context (B : JsBuiltins).

(** The score of a record as the threshold filter reads it. *)
Definition scoreOf (entity : jsval) : jsnum :=
  parseNumeric B (getPropOpt entity (js "score")).

(** [entity.entity_type ?? ""]. *)
Definition entityType (entity : jsval) : jsval :=
  coalesce (getPropOpt entity (js "entity_type")) (JStr []).

(** The dedup key of a well-formed candidate. *)
Definition keyOf (entity : jsval) : outcome jsstr :=
  match entitySpan entity with
  | Some (a, b) => entityKey B a b (entityType entity)
  | None => Ret []
  end.

Definition keyStr (entity : jsval) : jsstr :=
  match keyOf entity with Ret k => k | Throw _ => [] end.

(** The key of the candidate can be built: its [entity_type] converts to
    a string. *)
Definition hasKey (entity : jsval) : bool :=
  match keyOf entity with Ret _ => true | Throw _ => false end.

(** The merge in the words of the specification: a candidate is kept
    when it is well formed and no well-formed candidate before it has its
    key. [earlier] are the candidates already gone through. *)
Fixpoint firstSeenWins (earlier l : list jsval) : list jsval :=
  match l with
  | [] => []
  | e :: rest =>
      if wellFormed e
         && negb (existsb (fun e' => wellFormed e' && jsstr_eqb (keyStr e') (keyStr e))
                    earlier)
      then e :: firstSeenWins (earlier ++ [e]) rest
      else firstSeenWins (earlier ++ [e]) rest
  end.

Definition seenKeys (earlier : list jsval) : list jsstr :=
  List.map keyStr (List.filter wellFormed earlier).

(** What the scanner owes for one term of the set: nothing for the empty
    term, the greedy matches in the lower-cased source otherwise. *)
Definition termMatches (lowerSource term : jsstr) (starts : list nat) : Prop :=
  match term with
  | [] => starts = []
  | _ :: _ => GreedyMatches lowerSource term 0 starts
  end.

Definition termEntities (sourceText term : jsstr) (starts : list nat)
  : list jsval :=
  List.map (fun start => denylistEntity sourceText start (start + length term))
    starts.

(** The boolean answers of the three callbacks. *)
Definition answer (m : outcome bool) : bool :=
  match m with Ret b => b | Throw _ => false end.

(** The three filters, as one pure filter on the analyzer's array. *)
Definition passesFilters (sourceText : jsstr) (entityTypeFilterSet : option jsset)
    (acceptanceThreshold : jsnum) (allowlistSet denylistSet : jsset)
    (entity : jsval) : bool :=
  answer (shouldIncludeEntity B entity sourceText allowlistSet denylistSet)
  && answer (thresholdKeeps B acceptanceThreshold entity)
  && answer (entityTypeKeeps B entityTypeFilterSet entity).

(** Two values that differ only in the insertion order of object keys, at
    any depth, or in finite numbers that are equal once rounded to six
    decimals. *)
Inductive sameUpToOrder : jsval -> jsval -> Prop :=
| same_value v : sameUpToOrder v v
| same_rounded p q :
    roundTo6 B p = roundTo6 B q -> sameUpToOrder (JNum (Fin p)) (JNum (Fin q))
| same_array l1 l2 : sameItems l1 l2 -> sameUpToOrder (JArr l1) (JArr l2)
| same_object f1 f1' f2 :
    NoDup (List.map fst f1) -> f1 ≡ₚ f1' -> sameFields f1' f2 ->
    sameUpToOrder (JObj f1) (JObj f2)
with sameItems : list jsval -> list jsval -> Prop :=
| same_items_nil : sameItems [] []
| same_items_cons v w l1 l2 :
    sameUpToOrder v w -> sameItems l1 l2 -> sameItems (v :: l1) (w :: l2)
with sameFields : list (jsstr * jsval) -> list (jsstr * jsval) -> Prop :=
| same_fields_nil : sameFields [] []
| same_fields_cons k v w f1 f2 :
    sameUpToOrder v w -> sameFields f1 f2 ->
    sameFields ((k, v) :: f1) ((k, w) :: f2).

Scheme sameUpToOrder_mut := Minimality for sameUpToOrder Sort Prop
  with sameItems_mut := Minimality for sameItems Sort Prop
  with sameFields_mut := Minimality for sameFields Sort Prop.

Combined Scheme sameUpToOrder_mutind
  from sameUpToOrder_mut, sameItems_mut, sameFields_mut.

(** The renderings of the properties of an object, in insertion order. *)
Definition renderedFields (fields : list (jsstr * jsval)) : list (jsstr * jsstr) :=
  List.map (fun kv => (fst kv, stableStringify B (snd kv))) fields.

(** The threshold that goes into the signature. *)
Definition signatureThreshold (threshold : jsval) : jsnum :=
  match match threshold with
        | JNum n => n
        | JStr s => parseFloat B s
        | _ => Fin DEFAULT_ACCEPTANCE_THRESHOLD_UI
        end with
  | Fin q => roundTo6 B q
  | _ => Fin DEFAULT_ACCEPTANCE_THRESHOLD_UI
  end.

End Notions.

(** ** The state of the merger

    Between two calls of [pushIfUnique] the set [seen] holds the keys of
    the entities of [output], in their order, and each key once. *)
Definition mergeState (B : JsBuiltins) (seen : jsset) (output : list jsval)
  : Prop :=
  seen = List.map (keyStr B) output
  /\ NoDup seen
  /\ Forall (fun e => wellFormed e = true /\ hasKey B e = true) output.

(** ** Settings of the pipeline

    The entity types requested by [set1] include those requested by
    [set2]; no set stands for all types. *)
Definition requestsMore (set1 set2 : option jsset) : Prop :=
  match set1 with
  | None => True
  | Some s1 =>
      match set2 with
      | Some s2 => forall x, x ∈ s2 -> x ∈ s1
      | None => False
      end
  end.

(** ** services/presetService.js, services/anonymizationService.js:
       the normalizers *)

Module PresetService.
Section WithBuiltins.
Context (B : JsBuiltins).

(** Lines 109-112. *)
Definition normalizeName (value : jsval) : jsstr :=
  match value with
  | JStr s => slice (trim s) (ofNat 0) (ofNat 150)
  | _ => []
  end.

(** Lines 114-119. *)
Definition normalizeNerModel (value : jsval) : jsstr :=
  match value with
  | JStr s =>
      if (length (trim s) =? 0)%nat then js "en_core_web_lg" else trim s
  | _ => js "en_core_web_lg"
  end.

(** Lines 140-156; services/anonymizationService.js has the same function
    (lines 101-117). *)
Definition normalizeEntityTypes (value : jsval) : list jsstr :=
  if negb (truthy value) then []
  else
    let values := match value with JArr l => l | _ => [value] end in
    let collected :=
      List.filter nonEmpty
        (flat_map
           (fun entry =>
              match entry with
              | JStr s =>
                  List.filter nonEmpty
                    (List.map (fun piece => toUpperCase B (trim piece))
                       (splitRuns ENTITY_TYPE_SPLIT s))
              | _ => []
              end) values) in
    setFromList collected.

End WithBuiltins.
End PresetService.

(** ** The twelve properties of a signature

    What [buildResultSignature] reads of a payload object: the name of
    each property, its destructuring default, and what is made of the
    value read. *)
Inductive signatureRole :=
| AsGiven        (* the value as it is *)
| AsThreshold    (* a number rounded to six decimals, else the default *)
| AsEntityTypes  (* the sorted list of trimmed upper-case names *)
| AsArray.       (* an array as it is, else the empty array *)

Definition signatureProperties : list (jsstr * jsval * signatureRole) :=
  [ (js "sourceText", JStr [], AsGiven);
    (js "sourceHtml", JStr [], AsGiven);
    (js "resultText", JStr [], AsGiven);
    (js "resultHtml", JStr [], AsGiven);
    (js "nerModel", JStr [], AsGiven);
    (js "language", JStr [], AsGiven);
    (js "threshold", JNum (Fin DEFAULT_ACCEPTANCE_THRESHOLD_UI), AsThreshold);
    (js "allowlist", JStr [], AsGiven);
    (js "denylist", JStr [], AsGiven);
    (js "entityTypes", JArr [], AsEntityTypes);
    (js "entities", JArr [], AsArray);
    (js "items", JArr [], AsArray) ].

Definition signatureNames : list jsstr :=
  List.map (fun p => fst (fst p)) signatureProperties.

Definition signatureEntry (B : JsBuiltins) (fields : list (jsstr * jsval))
    (p : jsstr * jsval * signatureRole) : jsstr * jsval :=
  let '(name, default, role) := p in
  let value := orDefault (fieldOr name fields) default in
  (name,
   match role with
   | AsGiven => value
   | AsThreshold => JNum (signatureThreshold B value)
   | AsEntityTypes => JArr (List.map JStr (normalizeEntityTypes B value))
   | AsArray => arrayOrEmpty value
   end).

(** ** Replacing the matches of a text

    The string [s] from [cursor] on, in which the spans of [n] code units
    that start at [starts] are replaced by [replacement]. *)
Fixpoint spliceMatches (s : jsstr) (n : nat) (replacement : jsstr)
    (cursor : nat) (starts : list nat) : jsstr :=
  match starts with
  | [] => drop cursor s
  | p :: rest =>
      sliceNat s cursor p ++ replacement
      ++ spliceMatches s n replacement (p + n) rest
  end.

(** ** components/Anonymizer/index.js: the ids of the findings *)

Section EntityIds.
Context (B : JsBuiltins).

(** Lines 138-142; [fallbackIndex] is an index of the entity array. *)
Definition buildEntityId (entity : jsval) (fallbackIndex : nat) : outcome jsstr :=
  let entityType := coalesce (getPropOpt entity (js "entity_type")) (JStr []) in
  let start :=
    match getPropOpt entity (js "start") with
    | JNum n => JNum n
    | _ => JUndefined
    end in
  let* t := toStringJS B entityType in
  let* s := toStringJS B (coalesce start (JNum (ofNat fallbackIndex))) in
  Ret (t ++ js "-" ++ s ++ js "-" ++ numberToString B (ofNat fallbackIndex)).

End EntityIds.

(** ** services/anonymizationService.js: the search of saved runs *)

(** [Math.max] and [Math.min] of two numbers. *)
Definition mathMax (a b : jsnum) : jsnum :=
  match a, b with
  | NaN, _ | _, NaN => NaN
  | _, _ => if jsLe a b then b else a
  end.

Definition mathMin (a b : jsnum) : jsnum :=
  match a, b with
  | NaN, _ | _, NaN => NaN
  | _, _ => if jsLe a b then a else b
  end.

Module AnonymizationService.

Definition SUGGESTION_LIMIT : nat := 10.
Definition DEFAULT_LANGUAGE : jsstr := js "en".

(** What [searchAnonymizationsForUser] asks of the database: nothing, the
    most recent runs, or the runs whose source or result text matches a
    [LIKE] pattern. *)
Inductive savedSearch :=
| NoSearch
| RecentRuns (effectiveLimit : jsnum)
| MatchingRuns (likePattern : jsstr) (effectiveLimit : jsnum).

Section WithBuiltins.
Context (B : JsBuiltins).
(** [Number.parseInt(s, 10)] on a string, a built-in of the runtime. *)
Context (parseInt10 : jsstr -> jsnum).

(** Lines 92-99. *)
Definition normalizeLanguage (value : jsval) : jsstr :=
  match value with
  | JStr s =>
      let trimmed := trim s in
      if (0 <? length trimmed)%nat then trimmed else DEFAULT_LANGUAGE
  | _ => DEFAULT_LANGUAGE
  end.

(** Lines 163-169. [parseInt] converts its argument to a string first. *)
Definition clampLimit (value : jsval) : outcome jsnum :=
  let* s := toStringJS B value in
  let numericValue := parseInt10 s in
  if negb (numIsFinite numericValue) || jsLe numericValue (ofNat 0)
  then Ret (ofNat SUGGESTION_LIMIT)
  else Ret (mathMin (mathMax numericValue (ofNat 1)) (ofNat 50)).

(** Line 171: [value.replace(/[%_]/g, "")]. *)
Definition escapeQuery (value : jsstr) : jsstr :=
  List.filter (fun c => negb ((c =? 37) || (c =? 95))%N) value.

(** Lines 272-291, up to the statement that is run. *)
Definition searchAnonymizationsForUser (userId query limit : jsval)
  : outcome savedSearch :=
  if negb (truthy userId) then Ret NoSearch
  else
    let* effectiveLimit := clampLimit limit in
    let trimmedQuery := match query with JStr q => trim q | _ => [] end in
    if (length trimmedQuery =? 0)%nat then Ret (RecentRuns effectiveLimit)
    else
      let likePattern := js "%" ++ escapeQuery trimmedQuery ++ js "%" in
      Ret (MatchingRuns likePattern effectiveLimit).

End WithBuiltins.
End AnonymizationService.

(** ** services/anonymizationService.js: the preview of a saved run *)

(** [s.replace(/\s+/g, " ")]: each maximal run of white space becomes one
    space. [inRun] tells that the code unit before was white space. *)
Fixpoint collapseWhiteSpace (s : jsstr) (inRun : bool) : jsstr :=
  match s with
  | [] => []
  | c :: rest =>
      if isWhiteSpace c then
        if inRun then collapseWhiteSpace rest true
        else 32%N :: collapseWhiteSpace rest true
      else c :: collapseWhiteSpace rest false
  end.

(** [s.split(sep)] for a separator of one code unit; [cur] is the current
    piece, reversed. *)
Fixpoint splitCharAux (sep : N) (s cur : jsstr) : list jsstr :=
  match s with
  | [] => [rev cur]
  | c :: rest =>
      if (c =? sep)%N then rev cur :: splitCharAux sep rest []
      else splitCharAux sep rest (c :: cur)
  end.

Definition splitChar (sep : N) (s : jsstr) : list jsstr := splitCharAux sep s [].

(** The characters that follow a cut snippet, as the source file has them
    (line 181). *)
Definition ELLIPSIS : jsstr := [226; 8364; 166]%N.

(** Lines 173-182. A value that is neither a string nor nullish has no
    [replace] method. *)
Definition buildPreview (text : jsval) : outcome jsstr :=
  match coalesce text (JStr []) with
  | JStr t =>
      let normalized := trim (collapseWhiteSpace t false) in
      if (length normalized =? 0)%nat then Ret (js "(No content)")
      else
        let words := take 10 (splitChar 32 normalized) in
        let snippet := join (js " ") words in
        Ret (if (length words =? 10)%nat then snippet ++ ELLIPSIS else snippet)
  | _ => Throw TypeError
  end.

(** The words of a text: its maximal runs of code units that are not
    white space. *)
Definition wordsOf (t : jsstr) : list jsstr :=
  List.filter nonEmpty (splitRuns isWhiteSpace t).

(** ** components/Anonymizer/index.js: the toggles of the findings *)

(** The own properties of an array or of a string: its elements under
    their indices. *)
Fixpoint indexedFrom {A} (i : nat) (l : list A) : list (jsstr * A) :=
  match l with
  | [] => []
  | x :: rest => (decimalN (N.of_nat i), x) :: indexedFrom (S i) rest
  end.

(** [{ ...value }]. *)
Definition spreadCopy (v : jsval) : jsval :=
  match v with
  | JObj fields => JObj fields
  | JArr items => JObj (indexedFrom 0 items)
  | JStr s => JObj (indexedFrom 0 (List.map (fun c => JStr [c]) s))
  | _ => JObj []
  end.

Section Toggles.
Context (B : JsBuiltins).

(** The ids [buildEntityId(entity, index)] of the entities of an array,
    from [index] on. *)
Fixpoint entityIdsFrom (index : nat) (entities : list jsval)
  : outcome (list jsstr) :=
  match entities with
  | [] => Ret []
  | entity :: rest =>
      let* id := buildEntityId B entity index in
      let* ids := entityIdsFrom (S index) rest in
      Ret (id :: ids)
  end.

(** Lines 879-884 and 1070-1077: [Object.fromEntries] of the pairs
    [[buildEntityId(entity, index), true]]. *)
Definition initialToggles (entities : list jsval)
  : outcome (list (jsstr * jsval)) :=
  let* ids := entityIdsFrom 0 entities in
  Ret (fold_left (fun toggles id => setField id (JBool true) toggles) ids []).

(** Lines 1501-1506: the next state [{ ...previous, [id]: isChecked }]. *)
Definition handleFindingToggle (previous : list (jsstr * jsval)) (id : jsstr)
    (isChecked : bool) : list (jsstr * jsval) :=
  setField id (JBool isChecked) previous.

(** Lines 1219-1225: the copies of the entities whose toggle is not
    [false]. An id holds a hyphen, so [entityToggles[id]] never reads a
    member that objects inherit. *)
Fixpoint activeEntitiesFrom (entityToggles : list (jsstr * jsval)) (index : nat)
    (entities : list jsval) : outcome (list jsval) :=
  match entities with
  | [] => Ret []
  | entity :: rest =>
      let* id := buildEntityId B entity index in
      let* active := activeEntitiesFrom entityToggles (S index) rest in
      Ret (match fieldOr id entityToggles with
           | JBool false => active
           | _ => spreadCopy entity :: active
           end)
  end.

Definition activeEntities (entityToggles : list (jsstr * jsval))
    (entities : list jsval) : outcome (list jsval) :=
  activeEntitiesFrom entityToggles 0 entities.

End Toggles.

(** * Term sets *)

Section TermSets.
Context (B : JsBuiltins).

Lemma setHas_true s x : setHas s x = true <-> x ∈ s.
Proof. unfold setHas. apply bool_decide_eq_true. Qed.

Lemma setHas_false s x : setHas s x = false <-> x ∉ s.
Proof. unfold setHas. apply bool_decide_eq_false. Qed.

Lemma setAdd_elem s x y : y ∈ setAdd s x <-> y ∈ s \/ y = x.
Proof.
  unfold setAdd. destruct (setHas s x) eqn:E.
  - apply setHas_true in E. split; [tauto|]. intros [?| ->]; assumption.
  - rewrite elem_of_app, list_elem_of_singleton. tauto.
Qed.

Lemma fold_setAdd_elem l s y :
  y ∈ fold_left setAdd l s <-> y ∈ s \/ y ∈ l.
Proof.
  revert s; induction l as [|x l IH]; intros s; simpl.
  - rewrite elem_of_nil. tauto.
  - rewrite IH, setAdd_elem, elem_of_cons. tauto.
Qed.

Lemma setFromList_elem l y : y ∈ setFromList l <-> y ∈ l.
Proof.
  unfold setFromList. rewrite fold_setAdd_elem, elem_of_nil. tauto.
Qed.

Lemma setAdd_NoDup s x : NoDup s -> NoDup (setAdd s x).
Proof.
  intros H. unfold setAdd. destruct (setHas s x) eqn:E; [assumption|].
  apply setHas_false in E. apply NoDup_app. split; [assumption|].
  split; [|apply NoDup_singleton].
  intros y Hy Hx. apply list_elem_of_singleton in Hx. subst. contradiction.
Qed.

Lemma setFromList_NoDup l : NoDup (setFromList l).
Proof.
  unfold setFromList. generalize (NoDup_nil_2 (A:=jsstr)).
  generalize (@nil jsstr). induction l as [|x l IH]; intros s Hs; simpl.
  - assumption.
  - apply IH, setAdd_NoDup, Hs.
Qed.

Lemma nonEmpty_true s : nonEmpty s = true <-> s <> [].
Proof.
  unfold nonEmpty, jsstr_eqb. rewrite negb_true_iff, bool_decide_eq_false.
  tauto.
Qed.

Lemma parseListInput_nonempty input : [] ∉ parseListInput B input.
Proof.
  intros H. unfold parseListInput in H.
  destruct (negb (truthy input)); [inversion H|].
  destruct input; try (inversion H; fail);
    apply list_elem_of_In, filter_In in H as [_ H];
    apply nonEmpty_true in H; congruence.
Qed.

(** A term set never holds the empty term. *)
Lemma buildTermSet_nonempty input : [] ∉ buildTermSet B input.
Proof.
  unfold buildTermSet. rewrite setFromList_elem.
  apply parseListInput_nonempty.
Qed.

Lemma buildTermSet_NoDup input : NoDup (buildTermSet B input).
Proof. apply setFromList_NoDup. Qed.
End TermSets.

(** * The term policy filter *)

Section TermPolicy.
Context (B : JsBuiltins).

Lemma entitySpan_inv entity a b :
  entitySpan entity = Some (a, b) ->
  exists fields,
    entity = JObj fields
    /\ asFinite (fieldOr (js "start") fields) = Some a
    /\ asFinite (fieldOr (js "end") fields) = Some b
    /\ Qle_bool b a = false.
Proof.
  destruct entity as [| | | | | |fields]; simpl; try discriminate.
  destruct (asFinite (fieldOr (js "start") fields)) as [a'|] eqn:Ea;
    [|discriminate].
  destruct (asFinite (fieldOr (js "end") fields)) as [b'|] eqn:Eb;
    [|discriminate].
  unfold Qlt_bool. destruct (Qle_bool b' a') eqn:E; simpl; [discriminate|].
  intros [= <- <-]. exists fields. repeat split; auto.
Qed.

(** On a well-formed entity the filter is the decision list of the
    source: empty found-text, then deny, then allow, then the default. *)
Lemma shouldIncludeEntity_decision entity sourceText allowlistSet denylistSet a b :
  entitySpan entity = Some (a, b) ->
  shouldIncludeEntity B entity sourceText allowlistSet denylistSet =
  Ret (if bool_decide (foundTerm B sourceText a b = []) then false
       else if bool_decide (foundTerm B sourceText a b ∈ denylistSet) then true
       else if bool_decide (foundTerm B sourceText a b ∈ allowlistSet) then false
       else true).
Proof.
  intros H. apply entitySpan_inv in H as (fields & -> & Ha & Hb & Hlt).
  unfold shouldIncludeEntity, foundTerm.
  cbn [truthy isObjectType typeOf negb orb getProp bind].
  rewrite Ha, Hb, Hlt. cbn [normalizeListTerm].
  generalize (toLowerCase B (trim (normalizeNFC B (slice sourceText (Fin a) (Fin b))))).
  intros [|c t]; [reflexivity|].
  cbn [length Nat.eqb]. rewrite bool_decide_eq_false_2 by discriminate.
  unfold setHas.
  repeat case_bool_decide; first [reflexivity | contradiction].
Qed.

(** C1. Deny precedence of the term policy filter. The normalized
    found-text of an entity with finite offsets [start < end] is
    [sourceText.slice(start, end)], NFC-normalized, then trimmed, then
    lower-cased. For every allow set and every deny set of non-empty terms:
    when the found-text is in the deny set the filter answers [true], also
    when it is in the allow set as well; a found-text outside the deny set
    and inside the allow set is excluded; a non-empty found-text in neither
    set is included; an entity whose normalized found-text is empty is
    dropped. The sets of the handler hold no empty term
    ([buildTermSet_nonempty]). *)
Theorem shouldIncludeEntity_deny_precedence
    (entity : jsval) (sourceText : jsstr) (allowlistSet denylistSet : jsset)
    (a b : Q) :
  entitySpan entity = Some (a, b) ->
  [] ∉ denylistSet ->
  let found :=
    toLowerCase B (trim (normalizeNFC B (slice sourceText (Fin a) (Fin b)))) in
  (found ∈ denylistSet ->
     shouldIncludeEntity B entity sourceText allowlistSet denylistSet = Ret true)
  /\ (found ∉ denylistSet -> found ∈ allowlistSet ->
     shouldIncludeEntity B entity sourceText allowlistSet denylistSet = Ret false)
  /\ (found ∉ denylistSet -> found ∉ allowlistSet -> found <> [] ->
     shouldIncludeEntity B entity sourceText allowlistSet denylistSet = Ret true)
  /\ (found = [] ->
     shouldIncludeEntity B entity sourceText allowlistSet denylistSet = Ret false).
Proof.
  intros Hspan Hdeny found.
  pose proof (shouldIncludeEntity_decision entity sourceText
                allowlistSet denylistSet a b Hspan) as Hd.
  change (foundTerm B sourceText a b) with found in Hd. rewrite Hd. clear Hd.
  repeat split.
  - intros Hin. case_bool_decide as He.
    + rewrite He in Hin. contradiction.
    + rewrite bool_decide_eq_true_2 by assumption. reflexivity.
  - intros Hnd Hal. case_bool_decide; [reflexivity|].
    rewrite bool_decide_eq_false_2 by assumption.
    rewrite bool_decide_eq_true_2 by assumption. reflexivity.
  - intros Hnd Hna Hne. rewrite bool_decide_eq_false_2 by assumption.
    rewrite bool_decide_eq_false_2 by assumption.
    rewrite bool_decide_eq_false_2 by assumption. reflexivity.
  - intros He. rewrite bool_decide_eq_true_2 by assumption. reflexivity.
Qed.
End TermPolicy.

(** C1 on the span [14, 25) of the source, which reads " CodeAlpha " with
    a space at either end, so that the found-text is "codealpha": denied
    and allowed, it is included; allowed only, it is excluded. The span
    [6, 7) reads " ": its found-text is empty, and it is dropped. *)
Lemma shouldIncludeEntity_deny_precedence_witness :
  let sourceText := js "Secret project CodeAlpha is active" in
  let entity := JObj [ (js "entity_type", JStr (js "ORG"));
                       (js "start", JNum (ofNat 14));
                       (js "end", JNum (ofNat 25)) ] in
  let blank := JObj [ (js "entity_type", JStr (js "ORG"));
                      (js "start", JNum (ofNat 6));
                      (js "end", JNum (ofNat 7)) ] in
  (entitySpan entity = Some (inject_Z 14, inject_Z 25)
   /\ entitySpan blank = Some (inject_Z 6, inject_Z 7)
   /\ ([] ∉ [js "other"; js "codealpha"]) /\ ([] ∉ [js "other"]))
  /\ shouldIncludeEntity asciiBuiltins entity sourceText
       [js "codealpha"] [js "other"; js "codealpha"] = Ret true
  /\ shouldIncludeEntity asciiBuiltins entity sourceText
       [js "codealpha"] [js "other"] = Ret false
  /\ shouldIncludeEntity asciiBuiltins blank sourceText
       [js "codealpha"] [js "other"] = Ret false.
Proof.
  intros sourceText entity blank.
  assert (H1 : ([] : jsstr) ∉ [js "other"; js "codealpha"]).
  { rewrite !elem_of_cons, elem_of_nil. intros [H|[H|[]]]; discriminate H. }
  assert (H2 : ([] : jsstr) ∉ [js "other"]).
  { rewrite !elem_of_cons, elem_of_nil. intros [H|[]]; discriminate H. }
  split; [repeat split; [exact H1|exact H2]|].
  split; [|split].
  - refine (proj1 (shouldIncludeEntity_deny_precedence asciiBuiltins entity
                     sourceText [js "codealpha"] [js "other"; js "codealpha"]
                     (inject_Z 14) (inject_Z 25) eq_refl H1) _).
    apply list_elem_of_In. vm_compute. auto.
  - refine (proj1 (proj2 (shouldIncludeEntity_deny_precedence asciiBuiltins entity
                            sourceText [js "codealpha"] [js "other"]
                            (inject_Z 14) (inject_Z 25) eq_refl H2)) _ _).
    + rewrite !elem_of_cons, elem_of_nil. vm_compute.
      intros [H|[]]; discriminate H.
    + apply list_elem_of_In. vm_compute. auto.
  - exact (proj2 (proj2 (proj2 (shouldIncludeEntity_deny_precedence asciiBuiltins
                                  blank sourceText [js "codealpha"] [js "other"]
                                  (inject_Z 6) (inject_Z 7) eq_refl H2)))
             eq_refl).
Defined.

(** * The threshold *)

Section Threshold.
Context (B : JsBuiltins).

Lemma thresholdKeeps_object entity t :
  truthy entity && isObjectType entity = true ->
  thresholdKeeps B t entity =
  Ret (if numIsFinite (scoreOf B entity) then jsGe (scoreOf B entity) t else true).
Proof.
  intros H. apply andb_prop in H as [Ht Ho].
  unfold thresholdKeeps, scoreOf, getPropOpt. rewrite Ht, Ho.
  cbn [negb orb].
  destruct entity; try discriminate; reflexivity.
Qed.

(** A score that reads as the finite number [s]. *)
Lemma thresholdKeeps_finite entity t s :
  truthy entity && isObjectType entity = true ->
  scoreOf B entity = Fin s ->
  (thresholdKeeps B (Fin t) entity = Ret true <-> (t <= s)%Q)
  /\ (thresholdKeeps B (Fin t) entity = Ret false <-> (s < t)%Q).
Proof.
  intros Hobj H. rewrite thresholdKeeps_object, H by assumption. cbn.
  repeat split.
  - intros [= E]. apply Qle_bool_iff. assumption.
  - intros E. f_equal. apply Qle_bool_iff. assumption.
  - intros [= E]. apply Qnot_le_lt. intros Hle.
    apply Qle_bool_iff in Hle. congruence.
  - intros Hlt. f_equal. destruct (Qle_bool t s) eqn:E; [|reflexivity].
    apply Qle_bool_iff in E. apply Qlt_not_le in Hlt. contradiction.
Qed.

(** C3. The threshold filter on an entity record (an object), by what its
    [score] property holds. A score that is the finite number [s], or a
    string that [Number.parseFloat] reads as the finite number [s]: the
    entity is kept iff [s >= t], so a score equal to the threshold is kept
    and a score strictly below it is dropped. A score that is absent, that
    is neither a number nor a string, that is a number which is not finite,
    or a string that does not read as a finite number: the entity is kept
    whatever the threshold. *)
Theorem thresholdKeeps_inclusive_bound (entity : jsval) (t : Q) :
  truthy entity && isObjectType entity = true ->
  let score := getPropOpt entity (js "score") in
  (forall s,
     score = JNum (Fin s)
     \/ (exists text, score = JStr text /\ parseFloat B text = Fin s) ->
     (thresholdKeeps B (Fin t) entity = Ret true <-> (t <= s)%Q)
     /\ (thresholdKeeps B (Fin t) entity = Ret false <-> (s < t)%Q))
  /\ (score = JNum (Fin t) -> thresholdKeeps B (Fin t) entity = Ret true)
  /\ (forall fields, entity = JObj fields ->
       lookupField (js "score") fields = None ->
       forall t' : jsnum, thresholdKeeps B t' entity = Ret true)
  /\ ((isNumber score = false /\ isString score = false)
      \/ (exists n, score = JNum n /\ numIsFinite n = false)
      \/ (exists text, score = JStr text
                       /\ numIsFinite (parseFloat B text) = false) ->
      forall t' : jsnum, thresholdKeeps B t' entity = Ret true).
Proof.
  intros Hobj score.
  assert (Hnone : numIsFinite (scoreOf B entity) = false ->
                  forall t' : jsnum, thresholdKeeps B t' entity = Ret true).
  { intros E t'. rewrite thresholdKeeps_object, E by assumption. reflexivity. }
  split; [|split; [|split]].
  - intros s Hs. apply thresholdKeeps_finite; [assumption|].
    unfold scoreOf. fold score.
    destruct Hs as [-> | (text & -> & Hp)]; [reflexivity|exact Hp].
  - intros Hs. apply (thresholdKeeps_finite entity t t); [assumption| |apply Qle_refl].
    unfold scoreOf. fold score. rewrite Hs. reflexivity.
  - intros fields -> Hl. apply Hnone.
    unfold scoreOf, getPropOpt, getProp, fieldOr. rewrite Hl. reflexivity.
  - intros Hs. apply Hnone. unfold scoreOf. fold score.
    destruct Hs as [[Hn Hstr] | [(n & -> & Hn) | (text & -> & Hp)]].
    + destruct score; try reflexivity; discriminate.
    + exact Hn.
    + exact Hp.
Qed.

(** The effective threshold is always a number of [0, 1]. *)
Lemma acceptanceThresholdOf_range rawThreshold :
  exists q, acceptanceThresholdOf B rawThreshold = Fin q
            /\ (0 <= q)%Q /\ (q <= 1)%Q.
Proof.
  unfold acceptanceThresholdOf.
  change (ofNat 0) with (Fin 0). change (ofNat 1) with (Fin 1).
  destruct (parseNumeric B rawThreshold) as [| | |q]; cbn;
    try (exists (1 # 2); repeat split; [discriminate | discriminate]).
  destruct (Qle_bool 0 q) eqn:E0; cbn.
  - destruct (Qle_bool q 1) eqn:E1; cbn.
    + exists q. apply Qle_bool_iff in E0, E1. repeat split; auto.
    + exists (1 # 2). repeat split; discriminate.
  - exists (1 # 2). repeat split; discriminate.
Qed.

(** An input that does not read as a finite number gives the default. *)
Lemma acceptanceThresholdOf_non_numeric rawThreshold :
  numIsFinite (parseNumeric B rawThreshold) = false ->
  acceptanceThresholdOf B rawThreshold = Fin (1 # 2).
Proof.
  intros H. unfold acceptanceThresholdOf. rewrite H. reflexivity.
Qed.

(** A number outside [0, 1] gives the default as well. *)
Lemma acceptanceThresholdOf_out_of_range q :
  (q < 0)%Q \/ (1 < q)%Q ->
  acceptanceThresholdOf B (JNum (Fin q)) = Fin (1 # 2).
Proof.
  intros H. unfold acceptanceThresholdOf.
  change (ofNat 0) with (Fin 0). change (ofNat 1) with (Fin 1). cbn.
  destruct (Qle_bool 0 q) eqn:E0; cbn; [|reflexivity].
  destruct (Qle_bool q 1) eqn:E1; cbn; [|reflexivity].
  apply Qle_bool_iff in E0, E1. destruct H as [H|H];
    apply Qlt_not_le in H; contradiction.
Qed.

(** C4, at the input 1.5: the handler's threshold falls back to the
    default 0.5, where [normalizeThreshold] of the two services clamps
    the same input to 1. *)
Theorem acceptanceThresholdOf_one_and_a_half :
  acceptanceThresholdOf B (JNum (Fin (3 # 2))) = Fin (1 # 2)
  /\ normalizeThreshold B (JNum (Fin (3 # 2))) = ofNat 1.
Proof. split; reflexivity. Qed.
End Threshold.

(** C3 against the threshold 0.5: a score of 0.5 is kept, a score of 0.2
    is dropped, the string "0.9" is kept, and a record without a score is
    kept. *)
Lemma thresholdKeeps_inclusive_bound_witness :
  let scored := fun score =>
    JObj [ (js "entity_type", JStr (js "PERSON"));
           (js "start", JNum (ofNat 5));
           (js "end", JNum (ofNat 16));
           (js "score", score) ] in
  let unscored := JObj [ (js "entity_type", JStr (js "PERSON"));
                         (js "start", JNum (ofNat 5));
                         (js "end", JNum (ofNat 16)) ] in
  (truthy unscored && isObjectType unscored = true
   /\ truthy (scored (JNum (Fin (2 # 10))))
      && isObjectType (scored (JNum (Fin (2 # 10)))) = true)
  /\ thresholdKeeps asciiBuiltins (Fin (1 # 2)) (scored (JNum (Fin (1 # 2))))
     = Ret true
  /\ thresholdKeeps asciiBuiltins (Fin (1 # 2)) (scored (JNum (Fin (2 # 10))))
     = Ret false
  /\ thresholdKeeps asciiBuiltins (Fin (1 # 2)) (scored (JStr (js "0.9")))
     = Ret true
  /\ thresholdKeeps asciiBuiltins (Fin (1 # 2)) unscored = Ret true.
Proof.
  intros scored unscored.
  split; [split; reflexivity|].
  split; [|split; [|split]].
  - exact (proj1 (proj2 (thresholdKeeps_inclusive_bound asciiBuiltins
                           (scored (JNum (Fin (1 # 2)))) (1 # 2) eq_refl))
             eq_refl).
  - apply (proj1 (thresholdKeeps_inclusive_bound asciiBuiltins
                    (scored (JNum (Fin (2 # 10)))) (1 # 2) eq_refl) (2 # 10)).
    + left. reflexivity.
    + reflexivity.
  - apply (proj1 (thresholdKeeps_inclusive_bound asciiBuiltins
                    (scored (JStr (js "0.9"))) (1 # 2) eq_refl) (9 # 10)).
    + right. exists (js "0.9"). split; reflexivity.
    + discriminate.
  - exact (proj1 (proj2 (proj2 (thresholdKeeps_inclusive_bound asciiBuiltins
                                  unscored (1 # 2) eq_refl)))
             _ eq_refl eq_refl (Fin (1 # 2))).
Defined.

(** * The entity merger *)

Section Merger.
Context (B : JsBuiltins).

Lemma pushIfUnique_malformed st e :
  wellFormed e = false -> pushIfUnique B st e = Ret st.
Proof.
  destruct st as [seen output]. unfold wellFormed, pushIfUnique.
  destruct e as [| |b|n|s|items|fields]; try reflexivity.
  - destruct b; reflexivity.
  - intros _. cbn [isObjectType typeOf negb]. rewrite orb_true_r. reflexivity.
  - intros _. cbn [isObjectType typeOf negb]. rewrite orb_true_r. reflexivity.
  - cbn [entitySpan truthy isObjectType typeOf negb orb getProp bind].
    destruct (asFinite (fieldOr (js "start") fields)) as [a|]; [|reflexivity].
    destruct (asFinite (fieldOr (js "end") fields)) as [b|]; [|reflexivity].
    unfold Qlt_bool. destruct (Qle_bool b a); [reflexivity|discriminate].
Qed.

Lemma pushIfUnique_wellFormed seen output e :
  wellFormed e = true ->
  pushIfUnique B (seen, output) e =
  (let* key := keyOf B e in
   if setHas seen key then Ret (seen, output)
   else Ret (setAdd seen key, output ++ [e])).
Proof.
  unfold wellFormed. destruct (entitySpan e) as [[a b]|] eqn:E; [|discriminate].
  intros _. unfold keyOf. rewrite E.
  apply entitySpan_inv in E as (fields & -> & Ha & Hb & Hlt).
  unfold pushIfUnique, entityType, getPropOpt.
  cbn [truthy isObjectType typeOf negb orb getProp bind].
  rewrite Ha, Hb, Hlt. reflexivity.
Qed.

Lemma existsb_seenKeys earlier e :
  existsb (fun e' => wellFormed e' && jsstr_eqb (keyStr B e') (keyStr B e)) earlier
  = setHas (seenKeys B earlier) (keyStr B e).
Proof.
  unfold seenKeys, setHas. induction earlier as [|x l IH]; [reflexivity|].
  cbn [existsb List.filter]. rewrite IH. destruct (wellFormed x); cbn [andb orb].
  - cbn [List.map]. unfold jsstr_eqb.
    destruct (decide (keyStr B x = keyStr B e)) as [Heq|Hne].
    + rewrite bool_decide_eq_true_2 by assumption. cbn.
      symmetry. apply bool_decide_eq_true_2. rewrite Heq. apply list_elem_of_here.
    + rewrite bool_decide_eq_false_2 by assumption. cbn.
      apply bool_decide_ext. rewrite elem_of_cons.
      split; [auto | intros [Heq|Hin]; [congruence | assumption]].
  - reflexivity.
Qed.

Lemma seenKeys_snoc earlier e :
  seenKeys B (earlier ++ [e]) =
  seenKeys B earlier ++ (if wellFormed e then [keyStr B e] else []).
Proof.
  unfold seenKeys. rewrite List.filter_app, List.map_app. cbn.
  destruct (wellFormed e); reflexivity.
Qed.

(** The loop over a list of candidates whose keys can be built, from a
    state whose [seen] set holds the keys of the [earlier] candidates. *)
Lemma forEachM_pushIfUnique l earlier seen output :
  Forall (fun e => hasKey B e = true) l ->
  (forall k, k ∈ seen <-> k ∈ seenKeys B earlier) ->
  exists seen',
    forEachM (pushIfUnique B) l (seen, output)
    = Ret (seen', output ++ firstSeenWins B earlier l)
    /\ (forall k, k ∈ seen' <-> k ∈ seenKeys B (earlier ++ l)).
Proof.
  revert earlier seen output.
  induction l as [|e l IH]; intros earlier seen output Hk Hseen.
  - exists seen. cbn. rewrite !app_nil_r. auto.
  - apply Forall_cons in Hk as [He Hl]. cbn [forEachM firstSeenWins].
    assert (Hsame : setHas seen (keyStr B e) = setHas (seenKeys B earlier) (keyStr B e)).
    { unfold setHas. apply bool_decide_ext, Hseen. }
    destruct (wellFormed e) eqn:Hwf.
    + rewrite pushIfUnique_wellFormed by assumption.
      rewrite existsb_seenKeys, <- Hsame.
      assert (Hkey : keyOf B e = Ret (keyStr B e)).
      { unfold hasKey in He. unfold keyStr.
        destruct (keyOf B e); [reflexivity|discriminate]. }
      rewrite Hkey. cbn [bind andb].
      destruct (setHas seen (keyStr B e)) eqn:Hhas; cbn [negb].
      * destruct (IH (earlier ++ [e]) seen output Hl) as (seen' & Hrun & Hs').
        { intros k'. rewrite seenKeys_snoc, Hwf, elem_of_app, <- Hseen.
          rewrite list_elem_of_singleton.
          apply setHas_true in Hhas.
          split; [auto | intros [Hin| ->]; assumption]. }
        exists seen'. rewrite <- app_assoc in Hs'. auto.
      * destruct (IH (earlier ++ [e]) (setAdd seen (keyStr B e)) (output ++ [e]) Hl)
          as (seen' & Hrun & Hs').
        { intros k'. rewrite setAdd_elem, seenKeys_snoc, Hwf, elem_of_app, <- Hseen.
          rewrite list_elem_of_singleton. tauto. }
        exists seen'. rewrite <- !app_assoc in *. auto.
    + rewrite pushIfUnique_malformed by assumption. cbn [bind andb].
      destruct (IH (earlier ++ [e]) seen output Hl) as (seen' & Hrun & Hs').
      { intros k'. rewrite seenKeys_snoc, Hwf, app_nil_r. apply Hseen. }
      exists seen'. rewrite <- app_assoc in Hs'. auto.
Qed.

Lemma firstSeenWins_app earlier l1 l2 :
  firstSeenWins B earlier (l1 ++ l2)
  = firstSeenWins B earlier l1 ++ firstSeenWins B (earlier ++ l1) l2.
Proof.
  revert earlier; induction l1 as [|e l1 IH]; intros earlier; cbn.
  - rewrite app_nil_r. reflexivity.
  - rewrite IH, <- app_assoc. cbn.
    destruct (andb (wellFormed e) _); reflexivity.
Qed.

Lemma firstSeenWins_sublist earlier l : sublist (firstSeenWins B earlier l) l.
Proof.
  revert earlier; induction l as [|e l IH]; intros earlier; cbn.
  - constructor.
  - destruct (andb (wellFormed e) _); [apply sublist_skip | apply sublist_cons]; apply IH.
Qed.

Lemma firstSeenWins_wellFormed earlier l :
  Forall (fun e => wellFormed e = true) (firstSeenWins B earlier l).
Proof.
  revert earlier; induction l as [|e l IH]; intros earlier; cbn.
  - constructor.
  - destruct (wellFormed e) eqn:E; cbn; [|apply IH].
    destruct (negb _); [constructor; [assumption|]|]; apply IH.
Qed.



(** Every well-formed candidate is represented by its key. *)
Lemma firstSeenWins_complete earlier l e :
  e ∈ l -> wellFormed e = true ->
  keyStr B e ∈ seenKeys B earlier
  \/ keyStr B e ∈ List.map (keyStr B) (firstSeenWins B earlier l).
Proof.
  revert earlier; induction l as [|x l IH]; intros earlier Hin Hwf.
  - inversion Hin.
  - cbn [firstSeenWins]. rewrite existsb_seenKeys.
    apply elem_of_cons in Hin as [<- | Hin].
    + rewrite Hwf. cbn [andb].
      destruct (setHas (seenKeys B earlier) (keyStr B e)) eqn:Hhas; cbn [negb].
      * left. apply setHas_true. assumption.
      * right. cbn. apply list_elem_of_here.
    + destruct (IH (earlier ++ [x]) Hin Hwf) as [H|H].
      * rewrite seenKeys_snoc, elem_of_app in H. destruct H as [H|H]; [auto|].
        destruct (wellFormed x) eqn:Hx; [|inversion H].
        apply list_elem_of_singleton in H. cbn [andb].
        destruct (setHas (seenKeys B earlier) (keyStr B x)) eqn:Hhas; cbn [negb].
        -- left. rewrite H. apply setHas_true. assumption.
        -- right. cbn. rewrite H. apply list_elem_of_here.
      * right. destruct (andb (wellFormed x) _); cbn;
          [apply list_elem_of_further|]; assumption.
Qed.
End Merger.

Section MergerClaims.
Context (B : JsBuiltins).

(** The merge returns the first-seen-wins selection when every key can be
    built. *)
Lemma mergeEntities_returns (baseEntities supplementalEntities : list jsval) :
  Forall (fun e => hasKey B e = true) (baseEntities ++ supplementalEntities) ->
  mergeEntities B baseEntities supplementalEntities
  = Ret (firstSeenWins B [] (baseEntities ++ supplementalEntities)).
Proof.
  intros Hk. apply Forall_app in Hk as [Hb Hs].
  destruct (forEachM_pushIfUnique B baseEntities [] [] [] Hb) as (seen1 & Hrun1 & Hseen1).
  { intros k. reflexivity. }
  destruct (forEachM_pushIfUnique B supplementalEntities baseEntities seen1
              (firstSeenWins B [] baseEntities) Hs) as (seen2 & Hrun2 & _).
  { exact Hseen1. }
  unfold mergeEntities. unfold jsset in *.
  rewrite Hrun1. cbn [bind app]. rewrite Hrun2. cbn [bind snd].
  rewrite firstSeenWins_app. reflexivity.
Qed.


(** A candidate whose [entity_type] is absent or a primitive value has a
    key. *)
Lemma hasKey_primitive_type (entity : jsval) :
  match entityType entity with JArr _ | JObj _ => False | _ => True end ->
  hasKey B entity = true.
Proof.
  unfold hasKey, keyOf. destruct (entitySpan entity) as [[a b]|]; [|reflexivity].
  unfold entityKey. destruct (entityType entity) as [| |[]| | | |];
    intros H; try reflexivity; contradiction.
Qed.

Lemma forEachM_pushIfUnique_seen l seen output seen' output' :
  forEachM (pushIfUnique B) l (seen, output) = Ret (seen', output') ->
  (forall k, k ∈ seen -> k ∈ seen')
  /\ (forall e, e ∈ l -> wellFormed e = true ->
                exists k, keyOf B e = Ret k /\ k ∈ seen').
Proof.
  revert seen output. induction l as [|x l IH]; intros seen output; cbn [forEachM].
  - intros [= <- <-]. split; [auto|]. intros e He. inversion He.
  - destruct (wellFormed x) eqn:Hwf.
    + rewrite pushIfUnique_wellFormed by assumption.
      destruct (keyOf B x) as [k|err] eqn:Ek; cbn [bind]; [|discriminate].
      destruct (setHas seen k) eqn:Hhas; cbn [bind]; intros Hrun;
        apply IH in Hrun as [Hmono Hall].
      * split; [assumption|]. intros e He Hwe.
        apply elem_of_cons in He as [-> | He]; [|auto].
        exists k. split; [assumption|]. apply Hmono, setHas_true, Hhas.
      * split.
        -- intros k' Hk'. apply Hmono, setAdd_elem. auto.
        -- intros e He Hwe. apply elem_of_cons in He as [-> | He]; [|auto].
           exists k. split; [assumption|]. apply Hmono, setAdd_elem. auto.
    + rewrite pushIfUnique_malformed by assumption. cbn [bind].
      intros Hrun. apply IH in Hrun as [Hmono Hall].
      split; [assumption|]. intros e He Hwe.
      apply elem_of_cons in He as [-> | He]; [congruence|auto].
Qed.

Lemma forEachM_pushIfUnique_idle l seen output :
  (forall e, e ∈ l -> wellFormed e = true ->
             exists k, keyOf B e = Ret k /\ k ∈ seen) ->
  forEachM (pushIfUnique B) l (seen, output) = Ret (seen, output).
Proof.
  induction l as [|x l IH]; intros Hall; cbn [forEachM]; [reflexivity|].
  assert (Hl : forall e, e ∈ l -> wellFormed e = true ->
                         exists k, keyOf B e = Ret k /\ k ∈ seen).
  { intros e He. apply Hall, list_elem_of_further, He. }
  destruct (wellFormed x) eqn:Hwf.
  - rewrite pushIfUnique_wellFormed by assumption.
    destruct (Hall x (list_elem_of_here _ _) Hwf) as (k & Ek & Hin).
    rewrite Ek. cbn [bind]. apply setHas_true in Hin. rewrite Hin.
    cbn [bind]. apply IH, Hl.
  - rewrite pushIfUnique_malformed by assumption. cbn [bind]. apply IH, Hl.
Qed.

(** C9. Merging a list with itself is merging it with the empty list:
    the second pass finds every key already seen. When building a key
    throws, both calls throw. *)
Theorem mergeEntities_idempotent (entities : list jsval) :
  mergeEntities B entities entities = mergeEntities B entities [].
Proof.
  unfold mergeEntities.
  destruct (forEachM (pushIfUnique B) entities ([], [])) as [[seen output]|err] eqn:Hrun;
    cbn [bind forEachM]; [|reflexivity].
  apply forEachM_pushIfUnique_seen in Hrun as [_ Hall].
  rewrite forEachM_pushIfUnique_idle by exact Hall. reflexivity.
Qed.
End MergerClaims.

(** * The deny-list scanner *)

Section ScannerLemmas.

Lemma isPrefix_length p s : isPrefix p s = true -> length p <= length s.
Proof.
  revert s; induction p as [|a p IH]; intros [|b s]; simpl; try lia; try discriminate.
  intros H. apply andb_prop in H as [_ H]. apply IH in H. lia.
Qed.

Lemma indexOfAux_bounds term s i k :
  indexOfAux term s i = Some k -> i <= k /\ k + length term <= i + length s.
Proof.
  revert i; induction s as [|c s IH]; intros i; simpl.
  - destruct (isPrefix term []) eqn:E; [|discriminate].
    intros [= <-]. apply isPrefix_length in E. simpl in E. lia.
  - destruct (isPrefix term (c :: s)) eqn:E.
    + intros [= <-]. apply isPrefix_length in E. simpl in E. lia.
    + intros H. apply IH in H. lia.
Qed.

Lemma indexOf_bounds s term from k :
  indexOf s term from = Some k ->
  Nat.min from (length s) <= k /\ k + length term <= length s.
Proof.
  unfold indexOf. intros H. apply indexOfAux_bounds in H.
  rewrite length_drop in H. lia.
Qed.

Lemma isPrefix_take p s : isPrefix p s = true <-> take (length p) s = p.
Proof.
  revert s; induction p as [|a p IH]; intros [|b s]; cbn; try tauto.
  - split; [discriminate|discriminate].
  - rewrite andb_true_iff, N.eqb_eq, IH. split.
    + intros [-> ->]. reflexivity.
    + intros [= -> H]. rewrite H. auto.
Qed.

Lemma occursAt_prefix s term i :
  occursAt s term i <-> isPrefix term (drop i s) = true.
Proof.
  unfold occursAt, sliceNat. rewrite isPrefix_take.
  replace (i + length term - i) with (length term) by lia. reflexivity.
Qed.

Lemma occursAt_bound s term i :
  term <> [] -> occursAt s term i -> i + length term <= length s.
Proof.
  intros Hne H. apply occursAt_prefix, isPrefix_length in H.
  rewrite length_drop in H. destruct term; [contradiction|]. cbn in *. lia.
Qed.

Lemma indexOfAux_Some term s i k :
  indexOfAux term s i = Some k ->
  exists j, k = i + j /\ isPrefix term (drop j s) = true
            /\ forall j', j' < j -> isPrefix term (drop j' s) = false.
Proof.
  revert i; induction s as [|c s IH]; intros i; cbn [indexOfAux].
  - destruct (isPrefix term []) eqn:E; [|discriminate].
    intros [= <-]. exists 0. repeat split; [lia|assumption|lia].
  - destruct (isPrefix term (c :: s)) eqn:E.
    + intros [= <-]. exists 0. repeat split; [lia|assumption|lia].
    + intros H. apply IH in H as (j & -> & Hp & Hnone).
      exists (S j). repeat split; [lia|assumption|].
      intros [|j'] Hj'; [assumption|]. apply Hnone. lia.
Qed.

Lemma indexOfAux_None term s i :
  indexOfAux term s i = None -> forall j, isPrefix term (drop j s) = false.
Proof.
  revert i; induction s as [|c s IH]; intros i; cbn [indexOfAux].
  - destruct (isPrefix term []) eqn:E; [discriminate|].
    intros _ j. rewrite drop_nil. assumption.
  - destruct (isPrefix term (c :: s)) eqn:E; [discriminate|].
    intros H [|j]; [assumption|]. cbn. eapply IH, H.
Qed.

(** [indexOf] answers the first occurrence at or after the cursor. *)
Lemma indexOf_Some s term from k :
  from <= length s ->
  indexOf s term from = Some k ->
  from <= k /\ occursAt s term k
  /\ forall i, from <= i < k -> ~ occursAt s term i.
Proof.
  intros Hfrom. unfold indexOf. rewrite Nat.min_l by assumption.
  intros H. apply indexOfAux_Some in H as (j & -> & Hp & Hnone).
  rewrite drop_drop in Hp. repeat split.
  - lia.
  - apply occursAt_prefix. assumption.
  - intros i [Hi1 Hi2] Hocc. apply occursAt_prefix in Hocc.
    specialize (Hnone (i - from)). rewrite drop_drop in Hnone.
    replace (from + (i - from)) with i in Hnone by lia.
    rewrite Hnone in Hocc by lia. discriminate.
Qed.

Lemma indexOf_None s term from :
  from <= length s ->
  indexOf s term from = None ->
  forall i, from <= i -> ~ occursAt s term i.
Proof.
  intros Hfrom. unfold indexOf. rewrite Nat.min_l by assumption.
  intros H i Hi Hocc. apply occursAt_prefix in Hocc.
  pose proof (indexOfAux_None _ _ _ H (i - from)) as Hn.
  rewrite drop_drop in Hn. replace (from + (i - from)) with i in Hn by lia.
  congruence.
Qed.

(** The loop emits the greedy matches of the term in the lower-cased
    source, one synthetic entity for each. *)
Lemma scanTerm_greedy lowerSource sourceText c t searchIndex :
  exists starts,
    scanTerm lowerSource sourceText c t searchIndex
    = List.map (fun p => denylistEntity sourceText p (p + length (c :: t))) starts
    /\ GreedyMatches lowerSource (c :: t) searchIndex starts.
Proof.
  funelim (scanTerm lowerSource sourceText c t searchIndex).
  - exists []. split; [reflexivity|].
    apply greedy_done. intros i Hi Hocc.
    apply occursAt_bound in Hocc; [|discriminate]. cbn in Hocc. lia.
  - match goal with
    | IH : exists _, _ |- _ => destruct IH as (rest & Hrun & Hg)
    end.
    exists (matchIndex :: rest). split.
    + cbn [List.map]. f_equal. exact Hrun.
    + match goal with
      | E : indexOf _ _ _ = Some _, L : _ <= length _ |- _ =>
          pose proof (indexOf_Some _ _ _ _ L E) as (H1 & H2 & H3)
      end.
      apply greedy_step; assumption.
  - exists []. split; [reflexivity|].
    apply greedy_done.
    match goal with
    | E : indexOf _ _ _ = None, L : _ <= length _ |- _ =>
        exact (indexOf_None _ _ _ L E)
    end.
Qed.

(** The greedy matches from a cursor are unique. *)
Lemma GreedyMatches_unique s term cursor l1 l2 :
  GreedyMatches s term cursor l1 -> GreedyMatches s term cursor l2 -> l1 = l2.
Proof.
  intros H1. revert l2. induction H1 as [cursor Hnone|cursor p rest Hle Hocc Hfirst Hrest IH];
    intros l2 H2; inversion H2 as [? Hnone2|? p2 rest2 Hle2 Hocc2 Hfirst2 Hrest2]; subst.
  - reflexivity.
  - exfalso. eapply Hnone; eassumption.
  - exfalso. eapply Hnone2; eassumption.
  - assert (p = p2).
    { destruct (Nat.lt_trichotomy p p2) as [Hlt|[Heq|Hgt]]; [|assumption|].
      - exfalso. apply (Hfirst2 p); [lia|assumption].
      - exfalso. apply (Hfirst p2); [lia|assumption]. }
    subst p2. f_equal. apply IH. assumption.
Qed.

(** Greedy matches of a non-empty term lie in the string, in increasing
    order and without overlap. *)
Lemma GreedyMatches_spans s term cursor starts :
  term <> [] ->
  GreedyMatches s term cursor starts ->
  Forall (fun p => cursor <= p /\ p + length term <= length s) starts
  /\ StronglySorted (fun p q => p + length term <= q) starts.
Proof.
  intros Hne H. induction H as [cursor Hnone|cursor p rest Hle Hocc Hfirst Hrest [IH1 IH2]].
  - split; constructor.
  - split.
    + constructor.
      * split; [assumption|]. apply occursAt_bound; assumption.
      * eapply Forall_impl; [exact IH1|]. cbn. intros q [Hq1 Hq2]. lia.
    + constructor; [assumption|].
      eapply Forall_impl; [exact IH1|]. cbn. intros q [Hq1 Hq2]. lia.
Qed.

(** Every occurrence of the term at or after the cursor is a match or
    starts inside one. *)
Lemma GreedyMatches_cover s term cursor starts i :
  GreedyMatches s term cursor starts ->
  cursor <= i -> occursAt s term i ->
  exists p, p ∈ starts /\ p <= i < p + length term.
Proof.
  intros H. induction H as [cursor Hnone|cursor p rest Hle Hocc Hfirst Hrest IH];
    intros Hi Hoi.
  - exfalso. eapply Hnone; eassumption.
  - destruct (Nat.lt_ge_cases i p) as [Hlt|Hge].
    + exfalso. apply (Hfirst i); [lia|assumption].
    + destruct (Nat.lt_ge_cases i (p + length term)) as [Hin|Hout].
      * exists p. split; [apply list_elem_of_here|lia].
      * destruct (IH Hout Hoi) as (q & Hq & Hqi).
        exists q. split; [apply list_elem_of_further|]; assumption.
Qed.
End ScannerLemmas.

(** * Keys of the scanner's entities *)

Section DecimalKeys.

Lemma uintDigits_inj d1 d2 : uintDigits d1 = uintDigits d2 -> d1 = d2.
Proof.
  revert d2; induction d1; intros d2; destruct d2; cbn; intros H;
    inversion H; f_equal; auto.
Qed.

Lemma decimalN_inj n m : decimalN n = decimalN m -> n = m.
Proof.
  unfold decimalN. intros H. apply uintDigits_inj in H.
  rewrite <- (Unsigned.of_to n), <- (Unsigned.of_to m), H. reflexivity.
Qed.

Lemma uintDigits_no_hyphen d : 45%N ∉ uintDigits d.
Proof.
  induction d; cbn; [apply not_elem_of_nil|..];
    rewrite elem_of_cons; intros [H|H]; try discriminate; contradiction.
Qed.

Lemma decimalN_no_hyphen n : 45%N ∉ decimalN n.
Proof. apply uintDigits_no_hyphen. Qed.

Lemma app_pivot_inj (x : N) l1 r1 l2 r2 :
  x ∉ l1 -> x ∉ l2 -> l1 ++ x :: r1 = l2 ++ x :: r2 -> l1 = l2 /\ r1 = r2.
Proof.
  revert l2; induction l1 as [|a l1 IH]; intros [|b l2] H1 H2; cbn.
  - intros [= ->]. auto.
  - intros [= <- _]. exfalso. apply H2, list_elem_of_here.
  - intros [= -> _]. exfalso. apply H1, list_elem_of_here.
  - intros [= -> H]. apply IH in H as [-> ->]; [auto| |].
    + intros Hin. apply H1, list_elem_of_further, Hin.
    + intros Hin. apply H2, list_elem_of_further, Hin.
Qed.
End DecimalKeys.

Section ScannerKeys.
Context (B : JsBuiltins).

Lemma numberToString_ofNat n :
  (Z.of_nat n < 2 ^ 53)%Z ->
  numberToString B (ofNat n) = decimalN (N.of_nat n).
Proof.
  intros Hn. unfold numberToString, ofNat, qIsInteger, qTrunc.
  cbn [inject_Z Qnum Qden]. rewrite Z.rem_1_r, Z.quot_1_r.
  rewrite Z.abs_eq by lia.
  replace (Z.of_nat n <? 2 ^ 53)%Z with true by (symmetry; apply Z.ltb_lt; assumption).
  cbn [Z.eqb andb]. unfold decimalZ.
  replace (Z.of_nat n <? 0)%Z with false by (symmetry; apply Z.ltb_ge; lia).
  f_equal. lia.
Qed.

Lemma entitySpan_denylistEntity sourceText s e :
  s < e ->
  entitySpan (denylistEntity sourceText s e)
  = Some (inject_Z (Z.of_nat s), inject_Z (Z.of_nat e)).
Proof.
  intros H. unfold entitySpan, denylistEntity.
  change (fieldOr (js "start") _) with (JNum (ofNat s)).
  change (fieldOr (js "end") _) with (JNum (ofNat e)).
  cbn [asFinite ofNat]. unfold Qlt_bool.
  replace (Qle_bool (inject_Z (Z.of_nat e)) (inject_Z (Z.of_nat s))) with false;
    [reflexivity|].
  symmetry. apply not_true_is_false. intros Hle.
  apply Qle_bool_iff in Hle. rewrite <- Zle_Qle in Hle. lia.
Qed.

Lemma wellFormed_denylistEntity sourceText s e :
  s < e -> wellFormed (denylistEntity sourceText s e) = true.
Proof.
  intros H. unfold wellFormed. rewrite entitySpan_denylistEntity by assumption.
  reflexivity.
Qed.

(** The key of a synthetic entity: ["<start>-<end>-DENYLIST_TERM"]. *)
Lemma keyOf_denylistEntity sourceText s e :
  s < e -> (Z.of_nat e < 2 ^ 53)%Z ->
  keyOf B (denylistEntity sourceText s e)
  = Ret (decimalN (N.of_nat s) ++ js "-" ++ decimalN (N.of_nat e)
         ++ js "-" ++ js "DENYLIST_TERM").
Proof.
  intros Hlt Hb. unfold keyOf. rewrite entitySpan_denylistEntity by assumption.
  change (entityType (denylistEntity sourceText s e))
    with (JStr (js "DENYLIST_TERM")).
  unfold entityKey. cbn [toStringJS bind].
  change (Fin (inject_Z (Z.of_nat s))) with (ofNat s).
  change (Fin (inject_Z (Z.of_nat e))) with (ofNat e).
  rewrite !numberToString_ofNat by lia. reflexivity.
Qed.

Lemma keyStr_denylistEntity_inj t1 s1 e1 t2 s2 e2 :
  s1 < e1 -> (Z.of_nat e1 < 2 ^ 53)%Z ->
  s2 < e2 -> (Z.of_nat e2 < 2 ^ 53)%Z ->
  keyStr B (denylistEntity t1 s1 e1) = keyStr B (denylistEntity t2 s2 e2) ->
  s1 = s2 /\ e1 = e2.
Proof.
  intros H1 B1 H2 B2. unfold keyStr.
  rewrite !keyOf_denylistEntity by assumption.
  change (js "-") with [45%N]. cbn [app]. intros H.
  apply app_pivot_inj in H as [Hs H]; try apply decimalN_no_hyphen.
  apply app_pivot_inj in H as [He _]; try apply decimalN_no_hyphen.
  apply decimalN_inj in Hs, He. lia.
Qed.

(** A list of well-formed candidates with distinct keys, none of them
    seen before, is kept whole. *)
Lemma firstSeenWins_all earlier l :
  Forall (fun e => wellFormed e = true) l ->
  NoDup (List.map (keyStr B) l) ->
  (forall k, k ∈ List.map (keyStr B) l -> k ∉ seenKeys B earlier) ->
  firstSeenWins B earlier l = l.
Proof.
  revert earlier; induction l as [|e l IH]; intros earlier Hwf Hnd Hnew;
    [reflexivity|].
  apply Forall_cons in Hwf as [He Hl]. cbn [List.map] in Hnd, Hnew.
  apply NoDup_cons in Hnd as [Hni Hnd].
  cbn [firstSeenWins]. rewrite He, existsb_seenKeys. cbn [andb].
  replace (setHas (seenKeys B earlier) (keyStr B e)) with false.
  - cbn [negb]. f_equal. apply IH; [assumption|assumption|].
    intros k Hk. rewrite seenKeys_snoc, He, elem_of_app, list_elem_of_singleton.
    intros [Hin| ->]; [|contradiction].
    eapply Hnew; [apply list_elem_of_further|]; eassumption.
  - symmetry. apply setHas_false. apply Hnew, list_elem_of_here.
Qed.
End ScannerKeys.

Section ScannerClaims.
Context (B : JsBuiltins).

Lemma findDenylistEntities_matches sourceText denylistSet :
  exists matches : list (list nat),
    Forall2 (termMatches (toLowerCase B sourceText)) denylistSet matches
    /\ findDenylistEntities B (JStr sourceText) denylistSet
       = concat (zip_with (termEntities sourceText) denylistSet matches).
Proof.
  unfold findDenylistEntities.
  destruct denylistSet as [|term0 rest0]; [exists []; split; [constructor|reflexivity]|].
  cbn [length Nat.eqb]. generalize (term0 :: rest0). clear term0 rest0.
  intros denylistSet. induction denylistSet as [|term rest (matches & HF & Heq)].
  - exists []. split; [constructor|reflexivity].
  - destruct term as [|c t].
    + exists ([] :: matches). split; [constructor; [reflexivity|assumption]|].
      cbn [flat_map zip_with concat termEntities List.map app]. exact Heq.
    + destruct (scanTerm_greedy (toLowerCase B sourceText) sourceText c t 0)
        as (starts & Hrun & Hg).
      exists (starts :: matches). split; [constructor; assumption|].
      cbn [flat_map zip_with concat]. rewrite Hrun, Heq. reflexivity.
Qed.

Lemma GreedyMatches_occurs s term cursor starts :
  GreedyMatches s term cursor starts -> Forall (occursAt s term) starts.
Proof. induction 1; constructor; assumption. Qed.

(** The entities owed for the terms of a set are spans of the terms. *)
Lemma termEntities_elem lowerSource sourceText denylistSet matches e :
  Forall2 (termMatches lowerSource) denylistSet matches ->
  e ∈ concat (zip_with (termEntities sourceText) denylistSet matches) ->
  exists term p,
    term ∈ denylistSet /\ term <> [] /\ occursAt lowerSource term p
    /\ p + length term <= length lowerSource
    /\ e = denylistEntity sourceText p (p + length term).
Proof.
  induction 1 as [|term starts rest matches Hm HF IH]; cbn [zip_with concat].
  - intros H. inversion H.
  - rewrite elem_of_app. intros [Hin|Hin].
    + unfold termEntities in Hin. apply list_elem_of_In, in_map_iff in Hin
        as (p & <- & Hp). apply list_elem_of_In in Hp.
      destruct term as [|c t]; [cbn in Hm; subst; inversion Hp|].
      cbn [termMatches] in Hm.
      pose proof (GreedyMatches_occurs _ _ _ _ Hm) as Hocc.
      rewrite Forall_forall in Hocc. specialize (Hocc p Hp).
      exists (c :: t), p. repeat split.
      * apply list_elem_of_here.
      * discriminate.
      * assumption.
      * apply occursAt_bound; [discriminate|assumption].
    + destruct (IH Hin) as (term' & p & H1 & H2).
      exists term', p. split; [apply list_elem_of_further|]; assumption.
Qed.

Lemma occursAt_same_span s t1 t2 p :
  occursAt s t1 p -> occursAt s t2 p -> length t1 = length t2 -> t1 = t2.
Proof.
  unfold occursAt. intros H1 H2 Hl. rewrite <- H1, Hl. exact H2.
Qed.

(** The scanner's entities are well formed and carry distinct keys. *)
Lemma termEntities_keys lowerSource sourceText denylistSet matches :
  NoDup denylistSet ->
  (Z.of_nat (length lowerSource) < 2 ^ 53)%Z ->
  Forall2 (termMatches lowerSource) denylistSet matches ->
  let found := concat (zip_with (termEntities sourceText) denylistSet matches) in
  Forall (fun e => wellFormed e = true) found
  /\ Forall (fun e => hasKey B e = true) found
  /\ NoDup (List.map (keyStr B) found).
Proof.
  intros Hnd Hlen HF found.
  assert (Hall : forall e, e ∈ found ->
            exists term p, term ∈ denylistSet /\ term <> []
              /\ occursAt lowerSource term p
              /\ p + length term <= length lowerSource
              /\ e = denylistEntity sourceText p (p + length term)).
  { intros e. apply termEntities_elem. assumption. }
  assert (Hpos : forall term : jsstr, term <> [] -> 0 < length term).
  { intros [|? ?] ?; [contradiction|cbn; lia]. }
  repeat split.
  - apply Forall_forall. intros e He.
    destruct (Hall e He) as (term & p & _ & Hne & _ & _ & ->).
    apply wellFormed_denylistEntity. specialize (Hpos term Hne). lia.
  - apply Forall_forall. intros e He.
    destruct (Hall e He) as (term & p & _ & Hne & _ & Hb & ->).
    unfold hasKey. specialize (Hpos term Hne).
    rewrite keyOf_denylistEntity by lia. reflexivity.
  - clear Hall. subst found. induction HF as [|term starts rest matches Hm HF IH];
      cbn [zip_with concat]; [constructor|].
    apply NoDup_cons in Hnd as [Hnotin Hnd].
    rewrite List.map_app. apply NoDup_app. repeat split.
    + destruct term as [|c t]; [cbn in Hm; subst; constructor|].
      cbn [termMatches] in Hm.
      assert (Hne : c :: t <> []) by discriminate.
      pose proof (GreedyMatches_spans _ _ _ _ Hne Hm) as [Hin Hsorted].
      clear Hm. unfold termEntities.
      induction Hsorted as [|p starts Hs IHs Hp]; cbn [List.map]; [constructor|].
      apply Forall_cons in Hin as [[_ Hpb] Hin].
      constructor; [|apply IHs; assumption].
      intros Hk. apply list_elem_of_In, in_map_iff in Hk as (e & Hke & He).
      apply in_map_iff in He as (q & <- & Hq).
      rewrite Forall_forall in Hp, Hin.
      apply list_elem_of_In in Hq.
      pose proof (Hp q Hq) as Hpq. destruct (Hin q Hq) as [_ Hqb].
      cbn [length] in *.
      apply keyStr_denylistEntity_inj in Hke as [Heq _]; lia.
    + intros k Hk1 Hk2.
      apply list_elem_of_In, in_map_iff in Hk1 as (e1 & <- & He1).
      apply list_elem_of_In, in_map_iff in Hk2 as (e2 & Hke & He2).
      apply list_elem_of_In in He1, He2.
      destruct (termEntities_elem lowerSource sourceText [term] [starts] e1)
        as (t1 & p1 & Ht1 & Hne1 & Ho1 & Hb1 & ->).
      { constructor; [assumption|constructor]. }
      { cbn [zip_with concat]. rewrite app_nil_r. assumption. }
      apply list_elem_of_singleton in Ht1. subst t1.
      destruct (termEntities_elem lowerSource sourceText rest matches e2 HF He2)
        as (t2 & p2 & Ht2 & Hne2 & Ho2 & Hb2 & ->).
      pose proof (Hpos term Hne1). pose proof (Hpos t2 Hne2).
      apply keyStr_denylistEntity_inj in Hke as [-> Hend]; try lia.
      apply Hnotin. replace term with t2; [assumption|].
      eapply occursAt_same_span; [eassumption|eassumption|lia].
    + apply IH. assumption.
Qed.

Lemma map_sliceNat (f : N -> N) s a b :
  List.map f (sliceNat s a b) = sliceNat (List.map f s) a b.
Proof.
  unfold sliceNat. generalize (b - a). revert a.
  induction s as [|c s IH]; intros [|a] [|n]; cbn; try reflexivity.
  - f_equal. apply (IH 0 n).
  - apply (IH a (S n)).
Qed.

(** When lower-casing maps code unit by code unit (as it does on ASCII
    text), the text of each synthetic entity is the term up to case. *)
Lemma occursAt_lowered_text (f : N -> N) sourceText term p :
  toLowerCase B sourceText = List.map f sourceText ->
  occursAt (toLowerCase B sourceText) term p ->
  List.map f (sliceNat sourceText p (p + length term)) = term.
Proof.
  intros Hf Hocc. rewrite map_sliceNat, <- Hf. exact Hocc.
Qed.

(** For natural indices the two readings of [slice] agree. *)
Lemma slice_ofNat s a b : slice s (ofNat a) (ofNat b) = sliceNat s a b.
Proof.
  unfold slice, ofNat, toIntegerOrInfinity, relativeIndex.
  cbn [inject_Z Qnum Qden]. rewrite !Z.quot_1_r.
  replace (Z.of_nat a <? 0)%Z with false by (symmetry; apply Z.ltb_ge; lia).
  replace (Z.of_nat b <? 0)%Z with false by (symmetry; apply Z.ltb_ge; lia).
  unfold sliceNat.
  replace (Z.to_nat (Z.min (Z.of_nat a) (Z.of_nat (length s))))
    with (Nat.min a (length s)) by lia.
  replace (Z.to_nat (Z.min (Z.of_nat b) (Z.of_nat (length s))))
    with (Nat.min b (length s)) by lia.
  destruct (Nat.le_gt_cases (length s) a) as [Ha|Ha].
  - rewrite !drop_ge by lia. rewrite !take_nil. reflexivity.
  - rewrite (Nat.min_l a) by lia.
    destruct (Nat.le_gt_cases b (length s)) as [Hb|Hb].
    + rewrite Nat.min_l by lia. reflexivity.
    + rewrite Nat.min_r by lia.
      rewrite !take_ge; [reflexivity| |]; rewrite length_drop; lia.
Qed.

(** What the scanner returns, in terms of the lower-cased source. For
    every source text and every deny set there are, term by term, the
    greedy (left to right, non-overlapping, cursor moved to the end of each
    match) occurrences of the term in the lower-cased source, none for an
    empty term, such that the scanner returns, in the order of the set and
    of the matches, one synthetic entity per match, with the offsets of the
    match in the lower-cased source and the part of the source between
    these offsets as its text; matches of different terms are all there,
    overlapping or not. With no detected entity the pipeline returns
    exactly these entities. *)
Theorem findDenylistEntities_postcondition
    (sourceText : jsstr) (denylistSet allowlistSet : jsset)
    (entityTypeFilterSet : option jsset) (acceptanceThreshold : jsnum) :
  NoDup denylistSet ->
  (Z.of_nat (length (toLowerCase B sourceText)) < 2 ^ 53)%Z ->
  exists matches : list (list nat),
    Forall2 (termMatches (toLowerCase B sourceText)) denylistSet matches
    /\ findDenylistEntities B (JStr sourceText) denylistSet
       = concat
           (zip_with
              (fun term starts =>
                 List.map
                   (fun start =>
                      let end_ := start + length term in
                      JObj [ (js "entity_type", JStr (js "DENYLIST_TERM"));
                             (js "start", JNum (ofNat start));
                             (js "end", JNum (ofNat end_));
                             (js "score", JNum (ofNat 1));
                             (js "recognizer_result", JStr (js "denylist"));
                             (js "text",
                               JStr (slice sourceText (ofNat start) (ofNat end_))) ])
                   starts)
              denylistSet matches)
    /\ filterAnalyzerResults B (JArr []) sourceText entityTypeFilterSet
         acceptanceThreshold allowlistSet denylistSet
       = Ret (findDenylistEntities B (JStr sourceText) denylistSet).
Proof.
  intros Hnd Hlen.
  destruct (findDenylistEntities_matches sourceText denylistSet)
    as (matches & HF & Heq).
  exists matches. split; [assumption|]. split.
  - rewrite Heq. f_equal. clear. revert matches.
    induction denylistSet as [|term rest IH]; intros [|starts matches];
      try reflexivity.
    cbn [zip_with]. f_equal; [|apply IH].
    unfold termEntities, denylistEntity. apply map_ext. intros start.
    cbv zeta. rewrite slice_ofNat. reflexivity.
  - unfold filterAnalyzerResults. cbn [filterM bind].
    rewrite Heq.
    destruct (termEntities_keys (toLowerCase B sourceText) sourceText
                denylistSet matches Hnd Hlen HF) as (Hwf & Hk & Hkeys).
    set (found := concat (zip_with (termEntities sourceText) denylistSet matches)) in *.
    rewrite (mergeEntities_returns B [] found) by exact Hk.
    cbn [app]. f_equal.
    apply firstSeenWins_all; [assumption|assumption|].
    intros k _. apply not_elem_of_nil.
Qed.

(** C2. The scanner finds its matches in [sourceText.toLowerCase()] and
    uses their offsets as offsets of [sourceText]; where lower-casing
    lengthens the text, the entity is not on the match. In "Istanbul jan"
    with U+0130 as first letter (12 code units, "jan" at [9, 12)) the
    lower-cased text has 13 code units and "jan" at [10, 13): for the deny
    term "jan" the scanner returns one entity with [start] 10, [end] 13,
    past the end of the text, and the text "an"; so does the pipeline when
    nothing is detected. *)
Theorem findDenylistEntities_offsets_of_lowered :
  toLowerCase B istanbulJan = [105; 775]%N ++ js "stanbul jan" ->
  let emitted :=
    JObj [ (js "entity_type", JStr (js "DENYLIST_TERM"));
           (js "start", JNum (ofNat 10));
           (js "end", JNum (ofNat 13));
           (js "score", JNum (ofNat 1));
           (js "recognizer_result", JStr (js "denylist"));
           (js "text", JStr (js "an")) ] in
  length istanbulJan = 12
  /\ slice istanbulJan (ofNat 9) (ofNat 12) = js "jan"
  /\ (forall i, occursAt istanbulJan (js "jan") i -> i = 9)
  /\ findDenylistEntities B (JStr istanbulJan) [js "jan"] = [emitted]
  /\ filterAnalyzerResults B (JArr []) istanbulJan None
       (Fin DEFAULT_ACCEPTANCE_THRESHOLD) [] [js "jan"] = Ret [emitted].
Proof.
  intros Hlower emitted.
  assert (Hscan : findDenylistEntities B (JStr istanbulJan) [js "jan"] = [emitted]).
  { unfold findDenylistEntities. rewrite Hlower. vm_compute. reflexivity. }
  split; [reflexivity|]. split; [reflexivity|]. split; [|split].
  - intros i Hocc.
    assert (Hi : i + 3 <= 12)
      by (apply (occursAt_bound istanbulJan (js "jan")); [discriminate|exact Hocc]).
    unfold occursAt in Hocc.
    do 10 (destruct i as [|i]; [try reflexivity; vm_compute in Hocc; discriminate Hocc|]).
    lia.
  - exact Hscan.
  - unfold filterAnalyzerResults. cbn [filterM bind]. rewrite Hscan.
    vm_compute. reflexivity.
Qed.
End ScannerClaims.

(** C2 with a lower-casing that knows U+0130. *)
Lemma findDenylistEntities_offsets_of_lowered_witness :
  toLowerCase dottedBuiltins istanbulJan = [105; 775]%N ++ js "stanbul jan"
  /\ findDenylistEntities dottedBuiltins (JStr istanbulJan) [js "jan"]
     = [ JObj [ (js "entity_type", JStr (js "DENYLIST_TERM"));
                (js "start", JNum (ofNat 10));
                (js "end", JNum (ofNat 13));
                (js "score", JNum (ofNat 1));
                (js "recognizer_result", JStr (js "denylist"));
                (js "text", JStr (js "an")) ] ].
Proof.
  split; [reflexivity|].
  exact (proj1 (proj2 (proj2 (proj2
           (findDenylistEntities_offsets_of_lowered dottedBuiltins eq_refl))))).
Defined.

(** The deny-list floor scenario: the term "codealpha", no detected
    entity; the pipeline returns the one synthetic entity over "CodeAlpha". *)
Lemma findDenylistEntities_postcondition_witness :
  let sourceText := js "Secret project CodeAlpha is active" in
  let denylistSet := buildTermSet asciiBuiltins (JStr (js "codealpha")) in
  NoDup denylistSet
  /\ (Z.of_nat (length (toLowerCase asciiBuiltins sourceText)) < 2 ^ 53)%Z
  /\ filterAnalyzerResults asciiBuiltins (JArr []) sourceText None (Fin (1 # 2))
       [] denylistSet
     = Ret [ JObj [ (js "entity_type", JStr (js "DENYLIST_TERM"));
                    (js "start", JNum (ofNat 15));
                    (js "end", JNum (ofNat 24));
                    (js "score", JNum (ofNat 1));
                    (js "recognizer_result", JStr (js "denylist"));
                    (js "text", JStr (js "CodeAlpha")) ] ].
Proof.
  intros sourceText denylistSet.
  assert (H1 : NoDup denylistSet) by apply buildTermSet_NoDup.
  assert (H2 : (Z.of_nat (length (toLowerCase asciiBuiltins sourceText)) < 2 ^ 53)%Z)
    by reflexivity.
  split; [exact H1|]. split; [exact H2|].
  destruct (findDenylistEntities_postcondition asciiBuiltins sourceText
              denylistSet [] None (Fin (1 # 2)) H1 H2) as (matches & _ & _ & Hrun).
  rewrite Hrun. vm_compute. reflexivity.
Defined.


(** * The pipeline and malformed records *)

Section PipelineClaims.
Context (B : JsBuiltins).

Lemma filterM_pure {A} (f : A -> outcome bool) (g : A -> bool) (l : list A) :
  (forall x, f x = Ret (g x)) -> filterM f l = Ret (List.filter g l).
Proof.
  intros H. induction l as [|x l IH]; [reflexivity|].
  cbn [filterM List.filter]. rewrite H, IH. cbn [bind].
  destruct (g x); reflexivity.
Qed.

Lemma filter_filter_implied {A} (p q : A -> bool) (l : list A) :
  (forall x, p x = true -> q x = true) ->
  List.filter p (List.filter q l) = List.filter p l.
Proof.
  intros H. induction l as [|x l IH]; [reflexivity|]. cbn [List.filter].
  destruct (q x) eqn:Eq; cbn [List.filter]; rewrite IH; [reflexivity|].
  destruct (p x) eqn:Ep; [|reflexivity].
  apply H in Ep. congruence.
Qed.

(** The type filter's callback never throws. *)
Lemma entityTypeKeeps_total entityTypeFilterSet entity :
  exists b, entityTypeKeeps B entityTypeFilterSet entity = Ret b.
Proof.
  unfold entityTypeKeeps.
  destruct (negb (truthy entity) || negb (isObjectType entity)) eqn:E; [eauto|].
  destruct entityTypeFilterSet as [set|]; [|eauto].
  destruct entity; try discriminate; cbn [getProp bind]; eauto.
Qed.

(** The threshold filter's callback never throws. *)
Lemma thresholdKeeps_total acceptanceThreshold entity :
  exists b, thresholdKeeps B acceptanceThreshold entity = Ret b.
Proof.
  unfold thresholdKeeps.
  destruct (negb (truthy entity) || negb (isObjectType entity)) eqn:E; [eauto|].
  destruct entity; try discriminate; cbn [getProp bind]; eauto.
Qed.

(** The term policy filter drops every malformed record. *)
Lemma shouldIncludeEntity_malformed entity sourceText allowlistSet denylistSet :
  wellFormed entity = false ->
  shouldIncludeEntity B entity sourceText allowlistSet denylistSet = Ret false.
Proof.
  unfold wellFormed, shouldIncludeEntity.
  destruct entity as [| |b|n|s|items|fields]; try reflexivity.
  - destruct b; reflexivity.
  - intros _. cbn [isObjectType typeOf negb]. rewrite orb_true_r. reflexivity.
  - intros _. cbn [isObjectType typeOf negb]. rewrite orb_true_r. reflexivity.
  - cbn [entitySpan truthy isObjectType typeOf negb orb getProp bind].
    destruct (asFinite (fieldOr (js "start") fields)) as [a|]; [|reflexivity].
    destruct (asFinite (fieldOr (js "end") fields)) as [b|]; [|reflexivity].
    unfold Qlt_bool. destruct (Qle_bool b a); [reflexivity|discriminate].
Qed.

Lemma shouldIncludeEntity_total entity sourceText allowlistSet denylistSet :
  exists b,
    shouldIncludeEntity B entity sourceText allowlistSet denylistSet = Ret b
    /\ (b = true -> wellFormed entity = true).
Proof.
  destruct (wellFormed entity) eqn:Hwf.
  - unfold wellFormed in Hwf.
    destruct (entitySpan entity) as [[a b]|] eqn:E; [|discriminate].
    rewrite (shouldIncludeEntity_decision B _ _ _ _ a b E). eauto.
  - rewrite shouldIncludeEntity_malformed by assumption.
    exists false. split; [reflexivity|discriminate].
Qed.

Lemma answer_Ret (m : outcome bool) : (exists b, m = Ret b) -> m = Ret (answer m).
Proof. intros [b ->]. reflexivity. Qed.

Lemma filter_andb {A} (p q : A -> bool) (l : list A) :
  List.filter p (List.filter q l) = List.filter (fun x => p x && q x) l.
Proof.
  induction l as [|x l IH]; [reflexivity|]. cbn [List.filter].
  destruct (q x); cbn [List.filter]; rewrite IH; [|rewrite andb_false_r; reflexivity].
  rewrite andb_true_r. reflexivity.
Qed.

(** The filtering stages never throw; what reaches the merge is the pure
    filter of the analyzer's array. *)
Lemma filterAnalyzerResults_stages results sourceText entityTypeFilterSet
    acceptanceThreshold allowlistSet denylistSet :
  filterAnalyzerResults B (JArr results) sourceText entityTypeFilterSet
    acceptanceThreshold allowlistSet denylistSet
  = mergeEntities B
      (List.filter (passesFilters B sourceText entityTypeFilterSet
                      acceptanceThreshold allowlistSet denylistSet) results)
      (findDenylistEntities B (JStr sourceText) denylistSet).
Proof.
  unfold filterAnalyzerResults.
  rewrite (filterM_pure _ (fun e => answer (entityTypeKeeps B entityTypeFilterSet e)))
    by (intros x; apply answer_Ret, entityTypeKeeps_total).
  cbn [bind].
  rewrite (filterM_pure _ (fun e => answer (thresholdKeeps B acceptanceThreshold e)))
    by (intros x; apply answer_Ret, thresholdKeeps_total).
  cbn [bind].
  rewrite (filterM_pure _
             (fun e => answer (shouldIncludeEntity B e sourceText allowlistSet denylistSet))).
  - cbn [bind]. rewrite !filter_andb. reflexivity.
  - intros x. apply answer_Ret.
    destruct (shouldIncludeEntity_total x sourceText allowlistSet denylistSet)
      as (b & -> & _). eauto.
Qed.

Lemma passesFilters_wellFormed sourceText entityTypeFilterSet acceptanceThreshold
    allowlistSet denylistSet entity :
  passesFilters B sourceText entityTypeFilterSet acceptanceThreshold
    allowlistSet denylistSet entity = true ->
  wellFormed entity = true.
Proof.
  unfold passesFilters. intros H.
  apply andb_prop in H as [H _]. apply andb_prop in H as [H _].
  destruct (shouldIncludeEntity_total entity sourceText allowlistSet denylistSet)
    as (b & Hb & Hwf).
  rewrite Hb in H. cbn in H. auto.
Qed.

Lemma forEachM_pushIfUnique_wellFormed l seen output seen' output' :
  forEachM (pushIfUnique B) l (seen, output) = Ret (seen', output') ->
  Forall (fun e => wellFormed e = true) output ->
  Forall (fun e => wellFormed e = true) output'.
Proof.
  revert seen output. induction l as [|x l IH]; intros seen output; cbn [forEachM].
  - intros [= <- <-]. auto.
  - destruct (wellFormed x) eqn:Hwf.
    + rewrite pushIfUnique_wellFormed by assumption.
      destruct (keyOf B x) as [k|err]; cbn [bind]; [|discriminate].
      destruct (setHas seen k); cbn [bind]; intros Hrun Hout.
      * eapply IH; eassumption.
      * eapply IH; [eassumption|]. apply Forall_app. split; [assumption|].
        constructor; [assumption|constructor].
    + rewrite pushIfUnique_malformed by assumption. cbn [bind]. apply IH.
Qed.

Lemma mergeEntities_wellFormed baseEntities supplementalEntities output :
  mergeEntities B baseEntities supplementalEntities = Ret output ->
  Forall (fun e => wellFormed e = true) output.
Proof.
  unfold mergeEntities.
  destruct (forEachM (pushIfUnique B) baseEntities ([], []))
    as [[seen1 out1]|] eqn:H1; cbn [bind]; [|discriminate].
  destruct (forEachM (pushIfUnique B) supplementalEntities (seen1, out1))
    as [[seen2 out2]|] eqn:H2; cbn [bind]; [|discriminate].
  intros [= <-]. cbn [snd].
  eapply forEachM_pushIfUnique_wellFormed; [exact H2|].
  eapply forEachM_pushIfUnique_wellFormed; [exact H1|]. constructor.
Qed.

Lemma hasKey_denylistEntity sourceText s e :
  hasKey B (denylistEntity sourceText s e) = true.
Proof. apply hasKey_primitive_type. exact I. Qed.

Lemma findDenylistEntities_hasKey sourceText denylistSet :
  Forall (fun e => hasKey B e = true)
    (findDenylistEntities B (JStr sourceText) denylistSet).
Proof.
  destruct (findDenylistEntities_matches B sourceText denylistSet)
    as (matches & HF & ->).
  apply Forall_forall. intros e He.
  destruct (termEntities_elem _ _ _ _ _ HF He) as (term & p & _ & _ & _ & _ & ->).
  apply hasKey_denylistEntity.
Qed.

(** C8. The error contract of the filtering pipeline. (1) A request whose
    [text] is not a string is answered with status 400, whatever the
    services would reply. (2) On every record the three filter callbacks
    return normally; on a malformed record (not an object, offsets missing
    or not finite numbers, or start >= end) the term policy filter answers
    [false] and the merger's [pushIfUnique] leaves its state unchanged.
    (3) Malformed records are dropped without a trace: the pipeline on the
    analyzer's array is the pipeline on the array without them, and every
    entity it returns is well formed. (4) It returns normally whenever the
    [entity_type] of each well-formed record converts to a string. *)
Theorem filterAnalyzerResults_error_contract :
  (forall body analyzer anonymizer,
     isString (getPropOpt (coalesce body (JObj [])) (js "text")) = false ->
     postAnonymize B body analyzer anonymizer
     = Status400 (js "Request body must include non-empty text."))
  /\ (forall entity sourceText entityTypeFilterSet acceptanceThreshold
             allowlistSet denylistSet,
        (exists b, entityTypeKeeps B entityTypeFilterSet entity = Ret b)
        /\ (exists b, thresholdKeeps B acceptanceThreshold entity = Ret b)
        /\ (exists b, shouldIncludeEntity B entity sourceText allowlistSet
                        denylistSet = Ret b)
        /\ (wellFormed entity = false ->
            shouldIncludeEntity B entity sourceText allowlistSet denylistSet
            = Ret false
            /\ forall st, pushIfUnique B st entity = Ret st))
  /\ (forall results sourceText entityTypeFilterSet acceptanceThreshold
             allowlistSet denylistSet,
        filterAnalyzerResults B (JArr results) sourceText entityTypeFilterSet
          acceptanceThreshold allowlistSet denylistSet
        = filterAnalyzerResults B (JArr (List.filter wellFormed results))
            sourceText entityTypeFilterSet acceptanceThreshold
            allowlistSet denylistSet
        /\ (forall output,
              filterAnalyzerResults B (JArr results) sourceText
                entityTypeFilterSet acceptanceThreshold allowlistSet denylistSet
              = Ret output ->
              Forall (fun e => wellFormed e = true) output)
        /\ (Forall (fun e => wellFormed e = true -> hasKey B e = true) results ->
            exists output,
              filterAnalyzerResults B (JArr results) sourceText
                entityTypeFilterSet acceptanceThreshold allowlistSet denylistSet
              = Ret output)).
Proof.
  split; [|split].
  - intros body analyzer anonymizer Htext. unfold postAnonymize.
    destruct (getPropOpt (coalesce body (JObj [])) (js "text"));
      try reflexivity; discriminate.
  - intros entity sourceText entityTypeFilterSet acceptanceThreshold
      allowlistSet denylistSet.
    split; [apply entityTypeKeeps_total|].
    split; [apply thresholdKeeps_total|].
    split.
    + destruct (shouldIncludeEntity_total entity sourceText allowlistSet denylistSet)
        as (b & Hb & _). eauto.
    + intros Hwf. split; [apply shouldIncludeEntity_malformed; assumption|].
      intros st. apply pushIfUnique_malformed. assumption.
  - intros results sourceText entityTypeFilterSet acceptanceThreshold
      allowlistSet denylistSet.
    rewrite !filterAnalyzerResults_stages. split; [|split].
    + f_equal. symmetry. apply filter_filter_implied.
      intros x. apply passesFilters_wellFormed.
    + intros output. apply mergeEntities_wellFormed.
    + intros Hk.
      eexists. apply mergeEntities_returns.
      apply Forall_app. split; [|apply findDenylistEntities_hasKey].
        apply Forall_forall. intros e He.
        apply list_elem_of_In, filter_In in He as [He Hp].
        rewrite Forall_forall in Hk. apply Hk.
        -- apply list_elem_of_In. assumption.
        -- eapply passesFilters_wellFormed. eassumption.
Qed.
End PipelineClaims.

(** C8 on a request whose text is the number 42. *)
Lemma filterAnalyzerResults_error_contract_witness :
  let body := JObj [ (js "text", JNum (ofNat 42)) ] in
  isString (getPropOpt (coalesce body (JObj [])) (js "text")) = false
  /\ postAnonymize asciiBuiltins body (ServiceJson (JArr [])) (ServiceJson (JObj []))
     = Status400 (js "Request body must include non-empty text.").
Proof.
  intros body. split; [reflexivity|].
  exact (proj1 (filterAnalyzerResults_error_contract asciiBuiltins) body
           (ServiceJson (JArr [])) (ServiceJson (JObj [])) eq_refl).
Defined.

(** * The markup annotator *)

Section SortLemmas.
Context {A : Type} (before : A -> A -> bool).

Lemma insertSorted_last x l :
  Forall (fun y => before y x = true) l -> insertSorted before x l = l ++ [x].
Proof.
  induction 1 as [|y l Hy Hl IH]; [reflexivity|].
  cbn [insertSorted app]. rewrite Hy, IH. reflexivity.
Qed.

(** On a list in which every element sorts strictly after the ones behind
    it, the stable sort is the reversal. *)
Lemma stableSort_rev l :
  StronglySorted (fun a b => before b a = true) l -> stableSort before l = rev l.
Proof.
  induction 1 as [|x l Hs IH Hx]; [reflexivity|].
  cbn [stableSort foldr rev]. fold (stableSort before l). rewrite IH.
  apply insertSorted_last. apply Forall_rev. exact Hx.
Qed.

Lemma insertSorted_Permutation x l : insertSorted before x l ≡ₚ x :: l.
Proof.
  induction l as [|y l IH]; [reflexivity|]. cbn [insertSorted].
  destruct (before y x); [|reflexivity].
  rewrite IH. apply Permutation_swap.
Qed.

Lemma stableSort_Permutation l : stableSort before l ≡ₚ l.
Proof.
  induction l as [|x l IH]; [reflexivity|].
  cbn [stableSort foldr]. fold (stableSort before l).
  rewrite insertSorted_Permutation, IH. reflexivity.
Qed.

(** When [before] is the strict part of a total preorder, no element of the
    sorted list sorts strictly before an element in front of it. *)
Lemma insertSorted_sorted x l :
  (forall a b c, before a b = false -> before b c = false -> before a c = false) ->
  (forall a b, before a b = true -> before b a = false) ->
  StronglySorted (fun a b => before b a = false) l ->
  StronglySorted (fun a b => before b a = false) (insertSorted before x l).
Proof.
  intros Htrans Hasym. induction 1 as [|y l Hs IH Hy]; cbn [insertSorted].
  - repeat constructor.
  - destruct (before y x) eqn:E.
    + constructor; [exact IH|].
      rewrite (insertSorted_Permutation x l). constructor; [|exact Hy].
      apply Hasym. assumption.
    + constructor; [constructor; assumption|].
      constructor; [assumption|].
      eapply Forall_impl; [exact Hy|]. cbn. intros z Hz.
      eapply Htrans; eassumption.
Qed.

Lemma stableSort_sorted l :
  (forall a b c, before a b = false -> before b c = false -> before a c = false) ->
  (forall a b, before a b = true -> before b a = false) ->
  StronglySorted (fun a b => before b a = false) (stableSort before l).
Proof.
  intros Htrans Hasym. induction l as [|x l IH]; [constructor|].
  cbn [stableSort foldr]. apply insertSorted_sorted; assumption.
Qed.
End SortLemmas.

Section AnnotatorClaims.
Context (B : JsBuiltins).

Lemma StronglySorted_weaken {A} (R R' : A -> A -> Prop) l :
  (forall a b, R a b -> R' a b) -> StronglySorted R l -> StronglySorted R' l.
Proof.
  intros H. induction 1 as [|x l Hs IH Hx]; constructor; [assumption|].
  eapply Forall_impl; [exact Hx|]. cbn. auto.
Qed.

Lemma foundTextLength_undefined e : isUndefined e = true -> foundTextLength e = 0.
Proof. destruct e; try discriminate. reflexivity. Qed.

Lemma filter_all {A} (p : A -> bool) l :
  Forall (fun x => p x = true) l -> List.filter p l = l.
Proof.
  induction 1 as [|x l Hx Hl IH]; [reflexivity|].
  cbn [List.filter]. rewrite Hx, IH. reflexivity.
Qed.

Lemma filter_none {A} (p : A -> bool) l :
  Forall (fun x => p x = false) l -> List.filter p l = [].
Proof.
  induction 1 as [|x l Hx Hl IH]; [reflexivity|].
  cbn [List.filter]. rewrite Hx, IH. reflexivity.
Qed.

(** The sorted copy holds the same entities, longest found text first. *)
Lemma sortEntities_longest_first entities :
  sortEntities entities ≡ₚ entities
  /\ StronglySorted (fun a b => foundTextLength b <= foundTextLength a)
       (sortEntities entities).
Proof.
  unfold sortEntities. split.
  - rewrite stableSort_Permutation.
    induction entities as [|e l IH]; [reflexivity|]. cbn [List.filter].
    destruct (isUndefined e); cbn [negb].
    + rewrite <- Permutation_middle. constructor. exact IH.
    + cbn [app]. constructor. exact IH.
  - set (before := fun y x : jsval => (foundTextLength x <? foundTextLength y)%nat).
    assert (Hsorted : StronglySorted (fun a b => before b a = false)
              (stableSort before (List.filter (fun e => negb (isUndefined e)) entities))).
    { apply stableSort_sorted; unfold before.
      - intros a b c H1 H2. apply Nat.ltb_ge in H1, H2. apply Nat.ltb_ge. lia.
      - intros a b H1. apply Nat.ltb_lt in H1. apply Nat.ltb_ge. lia. }
    apply (StronglySorted_weaken _ (fun a b => foundTextLength b <= foundTextLength a))
      in Hsorted; [|unfold before; intros a b H; apply Nat.ltb_ge in H; exact H].
    induction Hsorted as [|x l Hs IH Hx]; cbn [app].
    + induction entities as [|e l IH]; cbn [List.filter]; [constructor|].
      destruct (isUndefined e) eqn:E; [|exact IH].
      constructor; [exact IH|].
      apply Forall_forall. intros y Hy.
      apply list_elem_of_In, filter_In in Hy as [_ Hy].
      rewrite (foundTextLength_undefined y Hy). lia.
    + constructor; [exact IH|]. apply Forall_app. split; [exact Hx|].
      apply Forall_forall. intros y Hy.
      apply list_elem_of_In, filter_In in Hy as [_ Hy].
      rewrite (foundTextLength_undefined y Hy). lia.
Qed.

(** An entity whose found text is a proper part of another's is longer
    behind it in the sorted copy: the pass of the longer text runs first. *)
Lemma sortEntities_longer_first entities pre x mid y post :
  sortEntities entities = pre ++ x :: mid ++ y :: post ->
  foundTextLength y <= foundTextLength x.
Proof.
  intros H. destruct (sortEntities_longest_first entities) as [_ Hs].
  rewrite H in Hs. clear H. induction pre as [|p pre IH]; cbn [app] in Hs.
  - apply StronglySorted_inv in Hs as [_ Hx].
    rewrite Forall_forall in Hx. apply Hx.
    rewrite elem_of_app. right. apply list_elem_of_here.
  - apply StronglySorted_inv in Hs as [Hs _]. auto.
Qed.

(** When the found texts get strictly longer along the array, the sorted
    copy is the array reversed. *)
Lemma sortEntities_rev entities :
  StronglySorted (fun a b => foundTextLength a < foundTextLength b) entities ->
  sortEntities entities = rev entities.
Proof.
  intros Hs. unfold sortEntities.
  set (before := fun y x : jsval => (foundTextLength x <? foundTextLength y)%nat).
  assert (Hb : forall l,
             StronglySorted (fun a b => foundTextLength a < foundTextLength b) l ->
             StronglySorted (fun a b => before b a = true) l).
  { intros l. apply StronglySorted_weaken. unfold before.
    intros a b H. apply Nat.ltb_lt. exact H. }
  destruct entities as [|x l]; [reflexivity|].
  apply StronglySorted_inv in Hs as [Hl Hx].
  assert (Hdef : Forall (fun e => negb (isUndefined e) = true) l).
  { eapply Forall_impl; [exact Hx|]. cbn. intros e He.
    destruct (isUndefined e) eqn:E; [|reflexivity].
    rewrite (foundTextLength_undefined e E) in He. lia. }
  assert (Hund : Forall (fun e => isUndefined e = false) l).
  { eapply Forall_impl; [exact Hdef|]. cbn. intros e He.
    apply negb_true_iff. exact He. }
  cbn [List.filter]. destruct (isUndefined x) eqn:Ex; cbn [negb].
  - rewrite (filter_all _ l Hdef), (filter_none _ l Hund).
    rewrite (stableSort_rev before l (Hb l Hl)). reflexivity.
  - rewrite (filter_all _ l Hdef), (filter_none _ l Hund), app_nil_r.
    apply stableSort_rev. apply Hb. constructor; assumption.
Qed.
End AnnotatorClaims.

Section AnnotatorOrder.
Context (B : JsBuiltins).

(** C6. With the findings "Ann Smith" and "Ann", in either order of the
    array and on every markup, the sorted annotator replaces the
    occurrences of "Ann Smith" first and those of "Ann" after; on the
    markup of the example no "Ann Smith" is left as a placeholder followed
    by " Smith". The unsorted annotator, given the longer finding first,
    runs the pass of "Ann" first and leaves exactly that. *)
Theorem applyAnonymizationToHtml_longest_first :
  (forall (html : jsstr) (entities : list jsval),
     entities = [annSmith; ann] \/ entities = [ann; annSmith] ->
     applyAnonymizationToHtml B (JStr html) annText JNull (Some entities) None
     = Ret (replaceAll (replaceAll html (js "Ann Smith") (js "&lt;PERSON&gt;"))
              (js "Ann") (js "&lt;PERSON&gt;")))
  /\ applyAnonymizationToHtml B (JStr (js "<p>Ann Smith met Ann</p>")) annText
       JNull (Some [annSmith; ann]) None
     = Ret (js "<p>&lt;PERSON&gt; met &lt;PERSON&gt;</p>")
  /\ applyAnonymizationToHtml_unsorted B (JStr (js "<p>Ann Smith met Ann</p>"))
       annText JNull (Some [annSmith; ann]) None
     = Ret (js "<p>&lt;PERSON&gt; Smith met &lt;PERSON&gt;</p>").
Proof.
  split; [|split].
  - intros html entities [-> | ->]; reflexivity.
  - vm_compute. reflexivity.
  - vm_compute. reflexivity.
Qed.
End AnnotatorOrder.

Section AnnotatorVariants.
Context (B : JsBuiltins).

(** Where the two annotators agree: on a markup that is a string and an
    array of entities whose found texts, once written, get strictly longer
    along the array. Reverse index order is then longest first. *)
Lemma applyAnonymizationToHtml_agree_when_increasing
    (html : jsstr) (plainText _items : jsval) (entities : list jsval)
    (entityTypeDisplayMap : displayMap) :
  StronglySorted (fun a b => foundTextLength a < foundTextLength b)
    (assignFoundTexts plainText entities) ->
  applyAnonymizationToHtml B (JStr html) plainText _items (Some entities)
    entityTypeDisplayMap
  = applyAnonymizationToHtml_unsorted B (JStr html) plainText _items
      (Some entities) entityTypeDisplayMap.
Proof.
  intros Hs. unfold applyAnonymizationToHtml, applyAnonymizationToHtml_unsorted.
  destruct entities as [|e l].
  - cbn [length Nat.eqb stringOrEmpty].
    replace (assignFoundTexts plainText []) with (@nil jsval)
      by (destruct plainText; reflexivity).
    reflexivity.
  - cbn [length Nat.eqb stringOrEmpty].
    rewrite (sortEntities_rev _ Hs). reflexivity.
Qed.

(** C10. The two implementations of [applyAnonymizationToHtml] are not
    extensionally equal. Given "Ann Smith" before "Ann" they return
    different strings: the sorted one redacts "Ann Smith" whole, the
    unsorted one leaves " Smith" behind the placeholder. They part as well
    where the sorted one is guarded: on a markup that is not a string the
    sorted one answers the empty string and the unsorted one throws at its
    first pass, and on [null] entities the sorted one returns the markup
    and the unsorted one throws. *)
Theorem applyAnonymizationToHtml_variants_differ :
  applyAnonymizationToHtml B (JStr (js "<p>Ann Smith met Ann</p>"))
    annText JNull (Some [annSmith; ann]) None
  <> applyAnonymizationToHtml_unsorted B
       (JStr (js "<p>Ann Smith met Ann</p>")) annText JNull
       (Some [annSmith; ann]) None
  /\ applyAnonymizationToHtml B JNull annText JNull (Some [ann]) None = Ret []
  /\ applyAnonymizationToHtml_unsorted B JNull annText JNull (Some [ann]) None
     = Throw TypeError
  /\ applyAnonymizationToHtml B (JStr (js "<p>Ann</p>")) annText JNull None None
     = Ret (js "<p>Ann</p>")
  /\ applyAnonymizationToHtml_unsorted B (JStr (js "<p>Ann</p>")) annText JNull
       None None
     = Throw TypeError.
Proof.
  split; [vm_compute; discriminate|].
  repeat split; vm_compute; reflexivity.
Qed.
End AnnotatorVariants.

(** The two annotators on the array that lists "Ann" before "Ann Smith". *)
Lemma applyAnonymizationToHtml_agree_when_increasing_witness :
  StronglySorted (fun a b => foundTextLength a < foundTextLength b)
    (assignFoundTexts annText [ann; annSmith])
  /\ applyAnonymizationToHtml_unsorted asciiBuiltins
       (JStr (js "<p>Ann Smith met Ann</p>")) annText JNull
       (Some [ann; annSmith]) None
     = Ret (js "<p>&lt;PERSON&gt; met &lt;PERSON&gt;</p>").
Proof.
  assert (H : StronglySorted (fun a b => foundTextLength a < foundTextLength b)
                (assignFoundTexts annText [ann; annSmith])).
  { repeat constructor. }
  split; [exact H|].
  rewrite <- (applyAnonymizationToHtml_agree_when_increasing asciiBuiltins
                (js "<p>Ann Smith met Ann</p>") annText JNull [ann; annSmith]
                None H).
  vm_compute. reflexivity.
Defined.

(** * The result signature *)

Section StringOrder.

Lemma strLtb_asym a b : strLtb a b = true -> strLtb b a = false.
Proof.
  revert b; induction a as [|x a IH]; intros [|y b]; cbn; try congruence.
  destruct (x <? y)%N eqn:Exy, (y <? x)%N eqn:Eyx; try congruence.
  - apply N.ltb_lt in Exy, Eyx. lia.
  - apply IH.
Qed.

Lemma strLtb_antisym a b : strLtb a b = false -> strLtb b a = false -> a = b.
Proof.
  revert b; induction a as [|x a IH]; intros [|y b]; cbn; try congruence.
  destruct (x <? y)%N eqn:Exy, (y <? x)%N eqn:Eyx; try congruence.
  intros H1 H2. apply N.ltb_ge in Exy, Eyx. f_equal; [lia|auto].
Qed.

Lemma strLtb_negtrans a b c :
  strLtb a b = false -> strLtb b c = false -> strLtb a c = false.
Proof.
  revert b c; induction a as [|x a IH]; intros [|y b] [|z c]; cbn;
    try congruence.
  destruct (x <? y)%N eqn:Exy; [congruence|].
  destruct (y <? x)%N eqn:Eyx.
  - intros _. destruct (y <? z)%N eqn:Eyz; [congruence|].
    destruct (z <? y)%N eqn:Ezy.
    + intros _. apply N.ltb_lt in Eyx, Ezy.
      replace (x <? z)%N with false by (symmetry; apply N.ltb_ge; lia).
      replace (z <? x)%N with true by (symmetry; apply N.ltb_lt; lia).
      reflexivity.
    + intros _. apply N.ltb_lt in Eyx. apply N.ltb_ge in Eyz, Ezy.
      replace (x <? z)%N with false by (symmetry; apply N.ltb_ge; lia).
      replace (z <? x)%N with true by (symmetry; apply N.ltb_lt; lia).
      reflexivity.
  - intros H1. apply N.ltb_ge in Exy, Eyx. assert (x = y) by lia. subst y.
    destruct (x <? z)%N; [congruence|]. destruct (z <? x)%N; [reflexivity|].
    apply IH. exact H1.
Qed.

(** [sort()] answers a list in ascending order. *)
Lemma sortStrings_sorted l :
  StronglySorted (fun a b => strLtb b a = false) (sortStrings l).
Proof.
  apply stableSort_sorted.
  - apply strLtb_negtrans.
  - apply strLtb_asym.
Qed.

Lemma sortStrings_Permutation l : sortStrings l ≡ₚ l.
Proof. apply stableSort_Permutation. Qed.

(** The sorted list does not depend on the order of the input. *)
Lemma sortStrings_order_irrelevant l1 l2 :
  l1 ≡ₚ l2 -> sortStrings l1 = sortStrings l2.
Proof.
  intros H.
  assert (Hanti : AntiSymm eq (fun a b : jsstr => strLtb b a = false)).
  { intros a b H1 H2. apply strLtb_antisym; assumption. }
  apply (StronglySorted_unique (fun a b => strLtb b a = false)).
  - apply sortStrings_sorted.
  - apply sortStrings_sorted.
  - rewrite !sortStrings_Permutation. exact H.
Qed.

(** A sorted list of distinct strings is strictly ascending. *)
Lemma sortStrings_strict l :
  NoDup l -> StronglySorted (fun a b => strLtb a b = true) (sortStrings l).
Proof.
  intros Hnd.
  assert (Hnd' : NoDup (sortStrings l)) by (rewrite sortStrings_Permutation; exact Hnd).
  pose proof (sortStrings_sorted l) as Hs.
  induction Hs as [|x s Hs IH Hx]; [constructor|].
  apply NoDup_cons in Hnd' as [Hni Hnd']. constructor; [auto|].
  rewrite Forall_forall in Hx |- *. intros y Hy.
  destruct (strLtb x y) eqn:E; [reflexivity|].
  exfalso. apply Hni. rewrite (strLtb_antisym x y E (Hx y Hy)). exact Hy.
Qed.
End StringOrder.

Section SignatureStability.
Context (B : JsBuiltins).

Lemma lookupRendered_fieldOr key fields :
  lookupRendered key (renderedFields B fields)
  = stableStringify B (fieldOr key fields).
Proof.
  unfold fieldOr. induction fields as [|[k v] rest IH]; [reflexivity|].
  cbn [renderedFields List.map lookupRendered lookupField fst snd].
  destruct (jsstr_eqb key k); [reflexivity|]. exact IH.
Qed.

(** The object case in the shape of the source: the keys sorted, each with
    [stableStringify(value[key])]. *)
Lemma stableStringify_object fields :
  stableStringify B (JObj fields)
  = js "{"
    ++ join (js ",")
         (List.map
            (fun key => jsonQuote B key ++ js ":"
                        ++ stableStringify B (fieldOr key fields))
            (sortStrings (List.map fst fields)))
    ++ js "}".
Proof.
  cbn [stableStringify]. do 3 f_equal. apply map_ext. intros key.
  do 2 f_equal. apply lookupRendered_fieldOr.
Qed.

Lemma lookupRendered_Permutation key (r1 r2 : list (jsstr * jsstr)) :
  r1 ≡ₚ r2 -> NoDup (List.map fst r1) ->
  lookupRendered key r1 = lookupRendered key r2.
Proof.
  induction 1 as [|[k r] l l' Hp IH|[k1 x1] [k2 x2] l|l l' l'' Hp1 IH1 Hp2 IH2];
    intros Hnd.
  - reflexivity.
  - cbn [lookupRendered]. destruct (jsstr_eqb key k); [reflexivity|].
    apply IH. cbn in Hnd. apply NoDup_cons in Hnd as [_ Hnd]. exact Hnd.
  - cbn [lookupRendered]. cbn in Hnd.
    apply NoDup_cons in Hnd as [Hni _]. unfold jsstr_eqb.
    destruct (decide (key = k1)) as [E1|H1], (decide (key = k2)) as [E2|H2].
    + exfalso. apply Hni. rewrite <- E1, E2. apply list_elem_of_here.
    + rewrite (bool_decide_eq_true_2 _ E1).
      rewrite bool_decide_eq_false_2 by assumption. reflexivity.
    + rewrite (bool_decide_eq_true_2 _ E2).
      rewrite bool_decide_eq_false_2 by assumption. reflexivity.
    + rewrite !bool_decide_eq_false_2 by assumption. reflexivity.
  - rewrite IH1 by assumption. apply IH2.
    rewrite <- Hp1. exact Hnd.
Qed.

(** [stableStringify] does not see the differences [sameUpToOrder] allows. *)
Lemma stableStringify_stable_mut :
  (forall v w, sameUpToOrder B v w -> stableStringify B v = stableStringify B w)
  /\ (forall l1 l2, sameItems B l1 l2 ->
        List.map (stableStringify B) l1 = List.map (stableStringify B) l2)
  /\ (forall f1 f2, sameFields B f1 f2 ->
        List.map fst f1 = List.map fst f2
        /\ renderedFields B f1 = renderedFields B f2).
Proof.
  apply (sameUpToOrder_mutind B).
  - reflexivity.
  - intros p q H. cbn [stableStringify]. rewrite H. reflexivity.
  - intros l1 l2 _ IH. cbn [stableStringify]. rewrite IH. reflexivity.
  - intros f1 f1' f2 Hnd Hp _ [Hkeys Hren].
    cbn [stableStringify]. fold (renderedFields B f1). fold (renderedFields B f2).
    rewrite (sortStrings_order_irrelevant (List.map fst f1) (List.map fst f2))
      by (rewrite <- Hkeys; apply Permutation_map; exact Hp).
    do 3 f_equal. apply map_ext. intros key. do 2 f_equal.
    rewrite <- Hren. apply lookupRendered_Permutation.
    + unfold renderedFields. apply Permutation_map. exact Hp.
    + unfold renderedFields. rewrite List.map_map. cbn [fst]. exact Hnd.
  - reflexivity.
  - intros v w l1 l2 _ IHv _ IHl. cbn [List.map]. rewrite IHv, IHl. reflexivity.
  - split; reflexivity.
  - intros k v w f1 f2 _ IHv _ [IHk IHr]. cbn [List.map renderedFields fst snd].
    fold (renderedFields B f1). fold (renderedFields B f2).
    rewrite IHv, IHk, IHr. split; reflexivity.
Qed.

Lemma stableStringify_stable v w :
  sameUpToOrder B v w -> stableStringify B v = stableStringify B w.
Proof. apply stableStringify_stable_mut. Qed.
End SignatureStability.

Section SignatureClaims.
Context (B : JsBuiltins).

(** What [sameUpToOrder] leaves of the shape of a value. *)
Lemma sameUpToOrder_shape v w :
  sameUpToOrder B v w ->
  match v with
  | JNum (Fin p) => exists q, w = JNum (Fin q) /\ roundTo6 B p = roundTo6 B q
  | JArr l1 => exists l2, w = JArr l2 /\ sameItems B l1 l2
  | JObj _ => exists f2, w = JObj f2
  | _ => w = v
  end.
Proof.
  intros H. destruct H as [v|p q H|l1 l2 H|f1 f1' f2 Hnd Hp H].
  - destruct v as [| | |[]| |l|f]; eauto.
    exists l. split; [reflexivity|]. induction l; constructor; [constructor|assumption].
  - eauto.
  - eauto.
  - eauto.
Qed.

Lemma lookupField_Permutation key (f1 f2 : list (jsstr * jsval)) :
  f1 ≡ₚ f2 -> NoDup (List.map fst f1) ->
  lookupField key f1 = lookupField key f2.
Proof.
  induction 1 as [|[k r] l l' Hp IH|[k1 x1] [k2 x2] l|l l' l'' Hp1 IH1 Hp2 IH2];
    intros Hnd.
  - reflexivity.
  - cbn [lookupField]. destruct (jsstr_eqb key k); [reflexivity|].
    apply IH. cbn in Hnd. apply NoDup_cons in Hnd as [_ Hnd]. exact Hnd.
  - cbn [lookupField]. cbn in Hnd.
    apply NoDup_cons in Hnd as [Hni _]. unfold jsstr_eqb.
    destruct (decide (key = k1)) as [E1|H1], (decide (key = k2)) as [E2|H2].
    + exfalso. apply Hni. rewrite <- E1, E2. apply list_elem_of_here.
    + rewrite (bool_decide_eq_true_2 _ E1).
      rewrite bool_decide_eq_false_2 by assumption. reflexivity.
    + rewrite (bool_decide_eq_true_2 _ E2).
      rewrite bool_decide_eq_false_2 by assumption. reflexivity.
    + rewrite !bool_decide_eq_false_2 by assumption. reflexivity.
  - rewrite IH1 by assumption. apply IH2.
    rewrite <- Hp1. exact Hnd.
Qed.

(** Reading a property of two objects that differ in key order only. *)
Lemma fieldOr_sameUpToOrder key f1 f1' f2 :
  NoDup (List.map fst f1) -> f1 ≡ₚ f1' -> sameFields B f1' f2 ->
  sameUpToOrder B (fieldOr key f1) (fieldOr key f2).
Proof.
  intros Hnd Hp Hf. unfold fieldOr.
  rewrite (lookupField_Permutation key f1 f1' Hp Hnd). clear Hnd Hp f1.
  induction Hf as [|k v w f1 f2 Hv Hf IH]; cbn [lookupField].
  - constructor.
  - destruct (jsstr_eqb key k); assumption.
Qed.

Lemma orDefault_sameUpToOrder v w d :
  sameUpToOrder B v w -> sameUpToOrder B (orDefault v d) (orDefault w d).
Proof.
  intros H. pose proof (sameUpToOrder_shape v w H) as Hs.
  destruct v as [| | |[]| |l|f]; cbn in Hs.
  - subst w. constructor.
  - subst w. constructor.
  - subst w. constructor.
  - subst w. constructor.
  - subst w. constructor.
  - subst w. constructor.
  - destruct Hs as (q' & -> & _). exact H.
  - subst w. constructor.
  - destruct Hs as (l2 & -> & _). exact H.
  - destruct Hs as (f2 & ->). exact H.
Qed.

Lemma arrayOrEmpty_sameUpToOrder v w :
  sameUpToOrder B v w -> sameUpToOrder B (arrayOrEmpty v) (arrayOrEmpty w).
Proof.
  intros H. pose proof (sameUpToOrder_shape v w H) as Hs.
  destruct v as [| | |[]| |l|f]; cbn in Hs;
    try (subst w; constructor).
  - destruct Hs as (q' & -> & _). constructor.
  - destruct Hs as (l2 & -> & _). exact H.
  - destruct Hs as (f2 & ->). constructor.
Qed.

Lemma normalizeEntityTypes_stable v w :
  sameUpToOrder B v w -> normalizeEntityTypes B v = normalizeEntityTypes B w.
Proof.
  intros H. pose proof (sameUpToOrder_shape v w H) as Hs.
  destruct v as [| | |[]| |l|f]; cbn in Hs;
    try (subst w; reflexivity).
  - destruct Hs as (q' & -> & _). reflexivity.
  - destruct Hs as (l2 & -> & Hl). cbn [normalizeEntityTypes]. do 3 f_equal.
    clear H. induction Hl as [|x y l1 l2 Hxy Hl IH]; [reflexivity|].
    cbn [List.map]. rewrite IH. f_equal.
    pose proof (sameUpToOrder_shape x y Hxy) as Hx.
    destruct x as [| | |[]| |lx|fx]; cbn in Hx; try (subst y; reflexivity).
    + destruct Hx as (q' & -> & _). reflexivity.
    + destruct Hx as (l2' & -> & _). reflexivity.
    + destruct Hx as (f2' & ->). reflexivity.
  - destruct Hs as (f2 & ->). reflexivity.
Qed.

Lemma signatureThreshold_stable v w :
  sameUpToOrder B v w -> signatureThreshold B v = signatureThreshold B w.
Proof.
  intros H. pose proof (sameUpToOrder_shape v w H) as Hs.
  destruct v as [| | |[]| |l|f]; cbn in Hs;
    try (subst w; reflexivity).
  - destruct Hs as (q' & -> & Hq). unfold signatureThreshold. rewrite Hq. reflexivity.
  - destruct Hs as (l2 & -> & _). reflexivity.
  - destruct Hs as (f2 & ->). reflexivity.
Qed.

(** Two payload objects whose properties read the same up to order have
    the same signature. *)
Lemma buildResultSignature_fields f1 f2 :
  (forall key, sameUpToOrder B (fieldOr key f1) (fieldOr key f2)) ->
  buildResultSignature B (JObj f1) = buildResultSignature B (JObj f2).
Proof.
  intros H. unfold buildResultSignature.
  cbn [truthy isObjectType typeOf negb orb getPropOpt getProp].
  apply stableStringify_stable.
  eapply same_object; [|reflexivity|].
  - vm_compute. repeat (constructor; [rewrite ?elem_of_cons, ?elem_of_nil; intuition discriminate|]).
    constructor.
  - repeat (apply same_fields_cons || apply same_fields_nil);
      try (apply orDefault_sameUpToOrder, H);
      try (apply arrayOrEmpty_sameUpToOrder, orDefault_sameUpToOrder, H).
    + fold (signatureThreshold B
              (orDefault (fieldOr (js "threshold") f1)
                 (JNum (Fin DEFAULT_ACCEPTANCE_THRESHOLD_UI)))).
      fold (signatureThreshold B
              (orDefault (fieldOr (js "threshold") f2)
                 (JNum (Fin DEFAULT_ACCEPTANCE_THRESHOLD_UI)))).
      rewrite (signatureThreshold_stable _ _
                 (orDefault_sameUpToOrder _ _ _ (H (js "threshold")))).
      constructor.
    + rewrite (normalizeEntityTypes_stable _ _
                 (orDefault_sameUpToOrder _ _ (JArr []) (H (js "entityTypes")))).
      constructor.
Qed.

Lemma buildResultSignature_sameUpToOrder payload payload' :
  sameUpToOrder B payload payload' ->
  buildResultSignature B payload = buildResultSignature B payload'.
Proof.
  intros H. destruct H as [v|p q H|l1 l2 H|f1 f1' f2 Hnd Hp H].
  - reflexivity.
  - unfold buildResultSignature. cbn [isObjectType typeOf negb].
    rewrite !orb_true_r. reflexivity.
  - reflexivity.
  - apply buildResultSignature_fields. intros key.
    eapply fieldOr_sameUpToOrder; eassumption.
Qed.
End SignatureClaims.

Section SignatureTheorem.
Context (B : JsBuiltins).

Lemma Qfloor_between (x : Q) (z : Z) :
  (inject_Z z <= x)%Q -> (x < inject_Z (z + 1))%Q -> Qfloor x = z.
Proof.
  intros Hlo Hhi.
  assert (H1 : (z <= Qfloor x)%Z).
  { rewrite <- (Qfloor_Z z). apply Qfloor_resp_le. exact Hlo. }
  assert (H2 : (Qfloor x < z + 1)%Z).
  { rewrite Zlt_Qlt. eapply Qle_lt_trans; [apply Qfloor_le|exact Hhi]. }
  lia.
Qed.

(** Every number within half a millionth of 0.3 has the numeral
    "0.300000": the doubles written 0.30000001 and 0.3 among them. *)
Lemma toFixed_near_three_tenths (q : Q) :
  (2999995 # 10000000 <= q)%Q -> (q < 3000005 # 10000000)%Q ->
  toFixed B 6 q = js "0.300000".
Proof.
  intros Hlo Hhi. unfold toFixed.
  assert (Hpos : (0 < q)%Q) by (eapply Qlt_le_trans; [|exact Hlo]; reflexivity).
  assert (Hneg : Qlt_bool q 0 = false).
  { unfold Qlt_bool. apply negb_false_iff, Qle_bool_iff, Qlt_le_weak, Hpos. }
  rewrite Hneg.
  assert (Habs : Qabs q = q).
  { destruct q as [n d]. unfold Qabs. f_equal. apply Z.abs_eq.
    unfold Qlt in Hpos. cbn in Hpos. lia. }
  rewrite Habs.
  assert (Hbig : Qle_bool (inject_Z (10 ^ 21)) q = false).
  { apply not_true_is_false. intros H. apply Qle_bool_iff in H.
    apply (Qlt_irrefl q). eapply Qlt_le_trans; [exact Hhi|].
    eapply Qle_trans; [|exact H]. discriminate. }
  rewrite Hbig. unfold fixedNumeral.
  rewrite (Qfloor_between _ 300000).
  - reflexivity.
  - destruct q as [n d]. unfold Qle, Qmult, Qplus, inject_Z in *. cbn in *. lia.
  - destruct q as [n d]. unfold Qlt, Qmult, Qplus, inject_Z in *. cbn in *. lia.
Qed.

Lemma normalizeEntityTypes_elem entityTypes t :
  t ∈ normalizeEntityTypes B entityTypes <->
  t <> [] /\ exists values s,
               entityTypes = JArr values /\ JStr s ∈ values
               /\ t = toUpperCase B (trim s).
Proof.
  unfold normalizeEntityTypes.
  destruct entityTypes as [| |b0|n0|s0|values|fields0];
    try (split; [intros H; inversion H|intros (_ & vs & s & Hv & _); discriminate]).
  cbv beta iota.
  rewrite sortStrings_Permutation, setFromList_elem, list_elem_of_In, filter_In,
    in_map_iff, nonEmpty_true.
  split.
  - intros [(value & Hval & Hin) Hne]. split; [exact Hne|].
    destruct value as [| | | |s| |]; try (subst t; contradiction).
    exists values, s. repeat split; [apply list_elem_of_In; exact Hin|auto].
  - intros (Hne & vs & s & [= <-] & Hin & ->). split; [|exact Hne].
    exists (JStr s). split; [reflexivity|apply list_elem_of_In; exact Hin].
Qed.

(** C7. Stability of the result signature. Payloads that differ only in
    the insertion order of object keys, at any depth, or in finite numbers
    that round to the same six decimals get the same signature, and so do
    any two such values under [stableStringify]; a number that is [NaN] or
    infinite is written [null]; the entity-type list put into the
    signature is free of duplicates, in ascending order, and holds the
    trimmed upper-case forms of the strings of the input, the empty ones
    left out; the signatures of [{a:1,b:2}] and [{b:2,a:1}] are equal, and
    so are those of [{threshold:0.30000001}] and [{threshold:0.3}]. *)
Theorem buildResultSignature_stable :
  (forall payload payload',
     sameUpToOrder B payload payload' ->
     buildResultSignature B payload = buildResultSignature B payload')
  /\ (forall v w,
        sameUpToOrder B v w -> stableStringify B v = stableStringify B w)
  /\ (forall n, numIsFinite n = false -> stableStringify B (JNum n) = js "null")
  /\ (forall entityTypes,
        NoDup (normalizeEntityTypes B entityTypes)
        /\ StronglySorted (fun a b => strLtb a b = true)
             (normalizeEntityTypes B entityTypes)
        /\ forall t,
             t ∈ normalizeEntityTypes B entityTypes <->
             t <> [] /\ exists values s,
                          entityTypes = JArr values /\ JStr s ∈ values
                          /\ t = toUpperCase B (trim s))
  /\ (let ab := JObj [ (js "a", JNum (ofNat 1)); (js "b", JNum (ofNat 2)) ] in
      let ba := JObj [ (js "b", JNum (ofNat 2)); (js "a", JNum (ofNat 1)) ] in
      buildResultSignature B ab = buildResultSignature B ba
      /\ stableStringify B ab = stableStringify B ba)
  /\ (forall q1 q2,
        (2999995 # 10000000 <= q1)%Q -> (q1 < 3000005 # 10000000)%Q ->
        (2999995 # 10000000 <= q2)%Q -> (q2 < 3000005 # 10000000)%Q ->
        buildResultSignature B (JObj [ (js "threshold", JNum (Fin q1)) ])
        = buildResultSignature B (JObj [ (js "threshold", JNum (Fin q2)) ]))
  /\ buildResultSignature B
       (JObj [ (js "threshold", JNum (Fin (30000001 # 100000000))) ])
     = buildResultSignature B (JObj [ (js "threshold", JNum (Fin (3 # 10))) ]).
Proof.
  assert (Hnear : forall q1 q2,
        (2999995 # 10000000 <= q1)%Q -> (q1 < 3000005 # 10000000)%Q ->
        (2999995 # 10000000 <= q2)%Q -> (q2 < 3000005 # 10000000)%Q ->
        buildResultSignature B (JObj [ (js "threshold", JNum (Fin q1)) ])
        = buildResultSignature B (JObj [ (js "threshold", JNum (Fin q2)) ])).
  { intros q1 q2 H1 H2 H3 H4. apply buildResultSignature_sameUpToOrder.
    eapply same_object; [repeat constructor; apply not_elem_of_nil|reflexivity|].
    repeat constructor. unfold roundTo6.
    rewrite !toFixed_near_three_tenths by assumption. reflexivity. }
  split; [|split; [|split; [|split; [|split; [|split]]]]].
  - apply buildResultSignature_sameUpToOrder.
  - apply stableStringify_stable.
  - intros [| | |q] H; try reflexivity. discriminate.
  - intros entityTypes. split; [|split].
    + unfold normalizeEntityTypes. destruct entityTypes; try constructor.
      cbv beta iota. rewrite sortStrings_Permutation. apply setFromList_NoDup.
    + unfold normalizeEntityTypes. destruct entityTypes; try constructor.
      apply sortStrings_strict, setFromList_NoDup.
    + apply normalizeEntityTypes_elem.
  - assert (Hsame : sameUpToOrder B
              (JObj [ (js "a", JNum (ofNat 1)); (js "b", JNum (ofNat 2)) ])
              (JObj [ (js "b", JNum (ofNat 2)); (js "a", JNum (ofNat 1)) ])).
    { eapply same_object
        with (f1' := [ (js "b", JNum (ofNat 2)); (js "a", JNum (ofNat 1)) ]).
      - repeat constructor; rewrite ?elem_of_cons, ?elem_of_nil; intuition discriminate.
      - apply Permutation_swap.
      - repeat constructor. }
    split.
    + apply buildResultSignature_sameUpToOrder. exact Hsame.
    + apply stableStringify_stable. exact Hsame.
  - exact Hnear.
  - apply Hnear; unfold Qle, Qlt; cbn; lia.
Qed.
End SignatureTheorem.

(** * The merger as an operation on lists *)

Section MergerState.
Context (B : JsBuiltins).

Lemma forEachM_app {S} (f : S -> jsval -> outcome S) l1 l2 st :
  forEachM f (l1 ++ l2) st = (let* st' := forEachM f l1 st in forEachM f l2 st').
Proof.
  revert st; induction l1 as [|x l1 IH]; intros st; cbn [app forEachM bind];
    [reflexivity|].
  destruct (f st x) as [st'|err]; cbn [bind]; [apply IH|reflexivity].
Qed.

Lemma hasKey_keyOf e : hasKey B e = true -> keyOf B e = Ret (keyStr B e).
Proof.
  unfold hasKey, keyStr. destruct (keyOf B e); [reflexivity|discriminate].
Qed.

Lemma mergeState_nil : mergeState B [] [].
Proof. repeat split; constructor. Qed.

(** The loop keeps the state's invariant, and only appends candidates of
    its list, in their order. *)
Lemma forEachM_pushIfUnique_state l seen output seen' output' :
  forEachM (pushIfUnique B) l (seen, output) = Ret (seen', output') ->
  mergeState B seen output ->
  mergeState B seen' output'
  /\ exists kept, output' = output ++ kept /\ sublist kept l.
Proof.
  revert seen output. induction l as [|x l IH]; intros seen output; cbn [forEachM].
  - intros [= <- <-] Hst. split; [exact Hst|].
    exists []. rewrite app_nil_r. split; [reflexivity|constructor].
  - destruct (wellFormed x) eqn:Hwf.
    + rewrite pushIfUnique_wellFormed by assumption.
      destruct (keyOf B x) as [k|err] eqn:Ek; cbn [bind]; [|discriminate].
      destruct (setHas seen k) eqn:Hhas; cbn [bind]; intros Hrun Hst.
      * destruct (IH _ _ Hrun Hst) as (Hst' & kept & -> & Hsub).
        split; [exact Hst'|]. exists kept. split; [reflexivity|].
        apply sublist_cons. exact Hsub.
      * assert (Hk : keyStr B x = k) by (unfold keyStr; rewrite Ek; reflexivity).
        assert (Hx : hasKey B x = true) by (unfold hasKey; rewrite Ek; reflexivity).
        destruct Hst as (Hseen & Hnd & Hall).
        destruct (IH _ _ Hrun) as (Hst' & kept & -> & Hsub).
        { unfold setAdd. rewrite Hhas. repeat split.
          - rewrite List.map_app. cbn [List.map]. rewrite Hk, <- Hseen. reflexivity.
          - apply NoDup_app. repeat split; [exact Hnd| |apply NoDup_singleton].
            intros k' Hin Hin'. apply list_elem_of_singleton in Hin'. subst k'.
            apply setHas_false in Hhas. contradiction.
          - apply Forall_app. split; [exact Hall|]. repeat constructor; assumption. }
        split; [exact Hst'|]. exists (x :: kept).
        rewrite <- app_assoc. split; [reflexivity|].
        apply sublist_skip. exact Hsub.
    + rewrite pushIfUnique_malformed by assumption. cbn [bind].
      intros Hrun Hst. destruct (IH _ _ Hrun Hst) as (Hst' & kept & -> & Hsub).
      split; [exact Hst'|]. exists kept. split; [reflexivity|].
      apply sublist_cons. exact Hsub.
Qed.

(** Going through a list of well-formed candidates with distinct, unseen
    keys appends all of them. *)
Lemma forEachM_pushIfUnique_replay o seen output :
  Forall (fun e => wellFormed e = true /\ hasKey B e = true) o ->
  NoDup (List.map (keyStr B) o) ->
  (forall k, k ∈ List.map (keyStr B) o -> k ∉ seen) ->
  forEachM (pushIfUnique B) o (seen, output)
  = Ret (seen ++ List.map (keyStr B) o, output ++ o).
Proof.
  revert seen output. induction o as [|e o IH]; intros seen output Hall Hnd Hnew.
  - cbn. rewrite !app_nil_r. reflexivity.
  - apply Forall_cons in Hall as [[Hwf Hk] Hall]. cbn [List.map] in Hnd, Hnew.
    apply NoDup_cons in Hnd as [Hni Hnd].
    cbn [forEachM]. rewrite pushIfUnique_wellFormed by assumption.
    rewrite (hasKey_keyOf e Hk). cbn [bind].
    replace (setHas seen (keyStr B e)) with false
      by (symmetry; apply setHas_false, Hnew, list_elem_of_here).
    cbn [bind]. unfold setAdd.
    replace (setHas seen (keyStr B e)) with false
      by (symmetry; apply setHas_false, Hnew, list_elem_of_here).
    rewrite IH; [|assumption|assumption|].
    + cbn [List.map]. rewrite <- !app_assoc. reflexivity.
    + intros k Hin. rewrite elem_of_app, list_elem_of_singleton.
      intros [Hs| ->]; [|contradiction].
      eapply Hnew; [apply list_elem_of_further|]; eassumption.
Qed.

(** Going through the output of an earlier run, from the empty state,
    rebuilds the state of that run. *)
Lemma forEachM_pushIfUnique_rebuild seen output :
  mergeState B seen output ->
  forEachM (pushIfUnique B) output ([], []) = Ret (seen, output).
Proof.
  intros (Hseen & Hnd & Hall).
  rewrite forEachM_pushIfUnique_replay.
  - cbn [app]. rewrite Hseen. reflexivity.
  - exact Hall.
  - rewrite <- Hseen. exact Hnd.
  - intros k _. apply not_elem_of_nil.
Qed.
End MergerState.

Section MergerComposition.
Context (B : JsBuiltins).

(** The merge depends on the concatenation of its two lists only, and
    merging in two steps is merging in one: the output of [mergeEntities a
    b], merged with [c], is [mergeEntities a (b ++ c)]. When a key cannot
    be built both sides throw. *)
Theorem mergeEntities_assoc (a b c : list jsval) :
  mergeEntities B a b = mergeEntities B (a ++ b) []
  /\ (let* m := mergeEntities B a b in mergeEntities B m c)
     = mergeEntities B a (b ++ c).
Proof.
  unfold mergeEntities. split.
  - rewrite forEachM_app.
    destruct (forEachM (pushIfUnique B) a ([], [])) as [st1|err]; cbn [bind];
      [|reflexivity].
    destruct (forEachM (pushIfUnique B) b st1) as [st2|err]; reflexivity.
  - destruct (forEachM (pushIfUnique B) a ([], [])) as [[s1 o1]|err] eqn:Ha;
      cbn [bind]; [|reflexivity].
    rewrite forEachM_app.
    destruct (forEachM (pushIfUnique B) b (s1, o1)) as [[s2 o2]|err] eqn:Hb;
      cbn [bind snd]; [|reflexivity].
    destruct (forEachM_pushIfUnique_state B _ _ _ _ _ Ha (mergeState_nil B))
      as [Hst1 _].
    destruct (forEachM_pushIfUnique_state B _ _ _ _ _ Hb Hst1) as [Hst2 _].
    rewrite (forEachM_pushIfUnique_rebuild B s2 o2 Hst2). reflexivity.
Qed.

(** Merging the output of a merge again changes nothing: with no
    supplement, with either input list or with both, the output comes back
    as it is. *)
Theorem mergeEntities_fixed_point (a b output : list jsval) :
  mergeEntities B a b = Ret output ->
  mergeEntities B output [] = Ret output
  /\ mergeEntities B output a = Ret output
  /\ mergeEntities B output b = Ret output
  /\ mergeEntities B output (a ++ b) = Ret output.
Proof.
  unfold mergeEntities.
  destruct (forEachM (pushIfUnique B) a ([], [])) as [[s1 o1]|err] eqn:Ha;
    cbn [bind]; [|discriminate].
  destruct (forEachM (pushIfUnique B) b (s1, o1)) as [[s2 o2]|err] eqn:Hb;
    cbn [bind snd]; [|discriminate].
  intros [= <-].
  destruct (forEachM_pushIfUnique_state B _ _ _ _ _ Ha (mergeState_nil B))
    as [Hst1 _].
  destruct (forEachM_pushIfUnique_state B _ _ _ _ _ Hb Hst1) as [Hst2 _].
  rewrite (forEachM_pushIfUnique_rebuild B s2 o2 Hst2). cbn [bind forEachM snd].
  pose proof (forEachM_pushIfUnique_seen B _ _ _ _ _ Ha) as [_ Hall1].
  pose proof (forEachM_pushIfUnique_seen B _ _ _ _ _ Hb) as [Hmono Hall2].
  assert (Ha' : forall e, e ∈ a -> wellFormed e = true ->
                          exists k, keyOf B e = Ret k /\ k ∈ s2).
  { intros e He Hwf. destruct (Hall1 e He Hwf) as (k & Hk & Hin). eauto. }
  assert (Hab : forall e, e ∈ a ++ b -> wellFormed e = true ->
                          exists k, keyOf B e = Ret k /\ k ∈ s2).
  { intros e He. apply elem_of_app in He as [He|He]; auto. }
  rewrite !forEachM_pushIfUnique_idle by assumption.
  auto.
Qed.
End MergerComposition.

(** * The scanner leaves no occurrence out *)

Section ScannerCover.
Context (B : JsBuiltins).

Lemma termEntities_of_term lowerSource sourceText denylistSet matches term :
  Forall2 (termMatches lowerSource) denylistSet matches ->
  term ∈ denylistSet ->
  exists starts,
    termMatches lowerSource term starts
    /\ forall e, e ∈ termEntities sourceText term starts ->
                 e ∈ concat (zip_with (termEntities sourceText) denylistSet matches).
Proof.
  induction 1 as [|t starts rest matches Hm HF IH]; intros Hin.
  - inversion Hin.
  - cbn [zip_with concat]. apply elem_of_cons in Hin as [-> | Hin].
    + exists starts. split; [exact Hm|]. intros e He.
      apply elem_of_app. left. exact He.
    + destruct (IH Hin) as (starts' & Hm' & Hsub).
      exists starts'. split; [exact Hm'|]. intros e He.
      apply elem_of_app. right. auto.
Qed.

(** Every occurrence of a non-empty deny term in the lower-cased source,
    overlapping ones included, starts inside a span that the scanner
    reports for that term; the reported span is itself an occurrence, at
    or before it. *)
Theorem findDenylistEntities_cover (sourceText : jsstr) (denylistSet : jsset)
    (term : jsstr) (i : nat) :
  term ∈ denylistSet -> term <> [] ->
  occursAt (toLowerCase B sourceText) term i ->
  exists p,
    p <= i < p + length term
    /\ occursAt (toLowerCase B sourceText) term p
    /\ denylistEntity sourceText p (p + length term)
       ∈ findDenylistEntities B (JStr sourceText) denylistSet.
Proof.
  intros Hin Hne Hocc.
  destruct (findDenylistEntities_matches B sourceText denylistSet)
    as (matches & HF & ->).
  destruct (termEntities_of_term _ sourceText _ _ term HF Hin)
    as (starts & Hm & Hsub).
  destruct term as [|c t]; [contradiction|]. cbn [termMatches] in Hm.
  destruct (GreedyMatches_cover _ _ _ _ i Hm (Nat.le_0_l i) Hocc)
    as (p & Hp & Hpi).
  exists p. split; [exact Hpi|]. split.
  - pose proof (GreedyMatches_occurs _ _ _ _ Hm) as Hall.
    rewrite Forall_forall in Hall. apply Hall. exact Hp.
  - apply Hsub. unfold termEntities.
    apply list_elem_of_In, in_map_iff. exists p.
    split; [reflexivity|]. apply list_elem_of_In. exact Hp.
Qed.
End ScannerCover.

(** * The pipeline as a whole *)

Section PipelineLemmas.
Context (B : JsBuiltins).

Lemma filter_sublist {A} (p : A -> bool) (l : list A) : sublist (List.filter p l) l.
Proof.
  induction l as [|x l IH]; [constructor|]. cbn [List.filter].
  destruct (p x); [apply sublist_skip|apply sublist_cons]; exact IH.
Qed.

Lemma jsLe_trans a b c : jsLe a b = true -> jsLe b c = true -> jsLe a c = true.
Proof.
  destruct a as [| | |p], b as [| | |q], c as [| | |r]; cbn;
    try reflexivity; try discriminate.
  intros H1 H2. apply Qle_bool_iff in H1, H2. apply Qle_bool_iff.
  eapply Qle_trans; eassumption.
Qed.

(** A record that passes the threshold filter passes it for every lower
    threshold. *)
Lemma thresholdKeeps_monotone t1 t2 entity :
  jsLe t1 t2 = true ->
  answer (thresholdKeeps B t2 entity) = true ->
  answer (thresholdKeeps B t1 entity) = true.
Proof.
  intros Hle. unfold thresholdKeeps.
  destruct (negb (truthy entity) || negb (isObjectType entity)); [auto|].
  destruct (getProp entity (js "score")) as [rawScore|err]; cbn [bind answer];
    [|auto].
  destruct (numIsFinite (parseNumeric B rawScore)); [|auto].
  unfold jsGe. intros H. eapply jsLe_trans; eassumption.
Qed.

(** A record that passes the term policy filter passes it with a smaller
    allow list and a larger deny list. *)
Lemma shouldIncludeEntity_monotone entity sourceText allow1 allow2 deny1 deny2 :
  (forall x, x ∈ allow1 -> x ∈ allow2) ->
  (forall x, x ∈ deny2 -> x ∈ deny1) ->
  answer (shouldIncludeEntity B entity sourceText allow2 deny2) = true ->
  answer (shouldIncludeEntity B entity sourceText allow1 deny1) = true.
Proof.
  intros Hallow Hdeny.
  destruct (entitySpan entity) as [[a b]|] eqn:E.
  - rewrite !(shouldIncludeEntity_decision B _ _ _ _ a b E). cbn [answer].
    repeat case_bool_decide; try reflexivity; try discriminate; intros _;
      exfalso; naive_solver.
  - rewrite !shouldIncludeEntity_malformed by (unfold wellFormed; rewrite E; reflexivity).
    auto.
Qed.

(** A record that passes the type filter passes it when more types, or all
    types, are requested. *)
Lemma entityTypeKeeps_monotone (set1 set2 : option jsset) entity :
  requestsMore set1 set2 ->
  answer (entityTypeKeeps B set2 entity) = true ->
  answer (entityTypeKeeps B set1 entity) = true.
Proof.
  unfold requestsMore. intros Hsets. unfold entityTypeKeeps.
  destruct (negb (truthy entity) || negb (isObjectType entity)); [auto|].
  destruct set1 as [s1|]; [|reflexivity].
  destruct set2 as [s2|]; [|contradiction].
  destruct (getProp entity (js "entity_type")) as [rawType|err]; cbn [bind answer];
    [|auto].
  rewrite !setHas_true. apply Hsets.
Qed.

Lemma passesFilters_monotone sourceText set1 set2 t1 t2
    allow1 allow2 deny1 deny2 entity :
  jsLe t1 t2 = true ->
  (forall x, x ∈ allow1 -> x ∈ allow2) ->
  (forall x, x ∈ deny2 -> x ∈ deny1) ->
  requestsMore set1 set2 ->
  passesFilters B sourceText set2 t2 allow2 deny2 entity = true ->
  passesFilters B sourceText set1 t1 allow1 deny1 entity = true.
Proof.
  intros Hle Hallow Hdeny Hsets. unfold passesFilters. rewrite !andb_true_iff.
  intros [[H1 H2] H3]. repeat split.
  - eapply shouldIncludeEntity_monotone; eassumption.
  - eapply thresholdKeeps_monotone; eassumption.
  - apply (entityTypeKeeps_monotone set1 set2); assumption.
Qed.

(** The scanner reports for a larger deny set what it reports for a
    smaller one. *)
Lemma findDenylistEntities_monotone sourceText deny1 deny2 d :
  (forall x, x ∈ deny2 -> x ∈ deny1) ->
  d ∈ findDenylistEntities B sourceText deny2 ->
  d ∈ findDenylistEntities B sourceText deny1.
Proof.
  intros Hdeny. unfold findDenylistEntities.
  destruct sourceText as [| | | |text| |]; try (intros H; exact H).
  destruct deny2 as [|t2 r2]; [intros H; inversion H|].
  cbn [length Nat.eqb]. intros H.
  apply list_elem_of_In, in_flat_map in H as (term & Hterm & Hd).
  apply list_elem_of_In, Hdeny in Hterm.
  destruct deny1 as [|t1 r1]; [inversion Hterm|].
  cbn [length Nat.eqb]. apply list_elem_of_In, in_flat_map.
  exists term. split; [apply list_elem_of_In; exact Hterm|exact Hd].
Qed.

(** What reaches the merge has keys that can be built when the well-formed
    records of the analyzer have. *)
Lemma candidates_hasKey results sourceText entityTypeFilterSet acceptanceThreshold
    allowlistSet denylistSet :
  Forall (fun e => wellFormed e = true -> hasKey B e = true) results ->
  Forall (fun e => hasKey B e = true)
    (List.filter (passesFilters B sourceText entityTypeFilterSet
                    acceptanceThreshold allowlistSet denylistSet) results
     ++ findDenylistEntities B (JStr sourceText) denylistSet).
Proof.
  intros Hk. apply Forall_app. split; [|apply findDenylistEntities_hasKey].
  apply Forall_forall. intros e He.
  apply list_elem_of_In, filter_In in He as [He Hp].
  rewrite Forall_forall in Hk. apply Hk.
  - apply list_elem_of_In. assumption.
  - eapply passesFilters_wellFormed. eassumption.
Qed.

Lemma findDenylistEntities_elem sourceText denylistSet d :
  d ∈ findDenylistEntities B (JStr sourceText) denylistSet ->
  exists term p,
    term ∈ denylistSet /\ term <> []
    /\ occursAt (toLowerCase B sourceText) term p
    /\ p + length term <= length (toLowerCase B sourceText)
    /\ d = denylistEntity sourceText p (p + length term).
Proof.
  destruct (findDenylistEntities_matches B sourceText denylistSet)
    as (matches & HF & ->).
  apply termEntities_elem. exact HF.
Qed.

Lemma passesFilters_callbacks sourceText entityTypeFilterSet acceptanceThreshold
    allowlistSet denylistSet entity :
  passesFilters B sourceText entityTypeFilterSet acceptanceThreshold
    allowlistSet denylistSet entity = true ->
  entityTypeKeeps B entityTypeFilterSet entity = Ret true
  /\ thresholdKeeps B acceptanceThreshold entity = Ret true
  /\ shouldIncludeEntity B entity sourceText allowlistSet denylistSet = Ret true.
Proof.
  unfold passesFilters. rewrite !andb_true_iff. intros [[H1 H2] H3].
  repeat split.
  - destruct (entityTypeKeeps_total B entityTypeFilterSet entity) as [b Hb].
    rewrite Hb in H3 |- *. cbn in H3. congruence.
  - destruct (thresholdKeeps_total B acceptanceThreshold entity) as [b Hb].
    rewrite Hb in H2 |- *. cbn in H2. congruence.
  - destruct (shouldIncludeEntity_total B entity sourceText allowlistSet denylistSet)
      as (b & Hb & _).
    rewrite Hb in H1 |- *. cbn in H1. congruence.
Qed.
End PipelineLemmas.

Section PipelineGuarantees.
Context (B : JsBuiltins).

(** The deny-list floor of the pipeline: whatever the analyzer's array,
    the threshold, the requested entity types and the allow list, the key
    of every match of the scanner is the key of a returned entity, which is
    the scanner's own entity unless a record of the analyzer that passed the
    filters has the same key. *)
Theorem filterAnalyzerResults_denylist_floor
    (results : list jsval) (sourceText : jsstr)
    (entityTypeFilterSet : option jsset) (acceptanceThreshold : jsnum)
    (allowlistSet denylistSet : jsset) :
  Forall (fun e => wellFormed e = true -> hasKey B e = true) results ->
  (Z.of_nat (length (toLowerCase B sourceText)) < 2 ^ 53)%Z ->
  exists output,
    filterAnalyzerResults B (JArr results) sourceText entityTypeFilterSet
      acceptanceThreshold allowlistSet denylistSet = Ret output
    /\ forall d, d ∈ findDenylistEntities B (JStr sourceText) denylistSet ->
         exists e, e ∈ output /\ keyStr B e = keyStr B d
                   /\ (e = d \/ e ∈ results).
Proof.
  intros Hk Hlen. rewrite filterAnalyzerResults_stages.
  set (F := List.filter _ results).
  set (D := findDenylistEntities B (JStr sourceText) denylistSet).
  rewrite (mergeEntities_returns B F D)
    by (apply candidates_hasKey; exact Hk).
  eexists. split; [reflexivity|]. intros d Hd.
  destruct (findDenylistEntities_elem B _ _ _ Hd)
    as (term & p & _ & Hne & _ & Hb & ->).
  assert (Hpos : 0 < length term) by (destruct term; [contradiction|cbn; lia]).
  assert (Hwf : wellFormed (denylistEntity sourceText p (p + length term)) = true)
    by (apply wellFormed_denylistEntity; lia).
  destruct (firstSeenWins_complete B [] (F ++ D) _
              (proj2 (elem_of_app _ _ _) (or_intror Hd)) Hwf) as [H|H];
    [inversion H|].
  apply list_elem_of_In, in_map_iff in H as (e & Hke & He).
  apply list_elem_of_In in He.
  exists e. split; [exact He|]. split; [exact Hke|].
  pose proof (elem_of_sublist _ _ _ He (firstSeenWins_sublist B [] (F ++ D))) as Hin.
  apply elem_of_app in Hin as [Hin|Hin].
  - right. apply list_elem_of_In, filter_In in Hin as [Hin _].
    apply list_elem_of_In. exact Hin.
  - left. destruct (findDenylistEntities_elem B _ _ _ Hin)
      as (term' & p' & _ & Hne' & _ & Hb' & ->).
    assert (Hpos' : 0 < length term') by (destruct term'; [contradiction|cbn; lia]).
    apply keyStr_denylistEntity_inj in Hke as [-> ->]; [reflexivity|lia..].
Qed.

(** The pipeline invents nothing: what it returns is records of the
    analyzer, in the analyzer's order, on each of which the three filter
    callbacks answer [true], followed by entities of the scanner, in the
    scanner's order; no two returned entities have the same key. *)
Theorem filterAnalyzerResults_sound
    (results : list jsval) (sourceText : jsstr)
    (entityTypeFilterSet : option jsset) (acceptanceThreshold : jsnum)
    (allowlistSet denylistSet : jsset) (output : list jsval) :
  filterAnalyzerResults B (JArr results) sourceText entityTypeFilterSet
    acceptanceThreshold allowlistSet denylistSet = Ret output ->
  exists fromAnalyzer fromScanner,
    output = fromAnalyzer ++ fromScanner
    /\ sublist fromAnalyzer results
    /\ Forall (fun e =>
                 entityTypeKeeps B entityTypeFilterSet e = Ret true
                 /\ thresholdKeeps B acceptanceThreshold e = Ret true
                 /\ shouldIncludeEntity B e sourceText allowlistSet denylistSet
                    = Ret true) fromAnalyzer
    /\ sublist fromScanner (findDenylistEntities B (JStr sourceText) denylistSet)
    /\ NoDup (List.map (keyStr B) output).
Proof.
  rewrite filterAnalyzerResults_stages. unfold mergeEntities.
  set (F := List.filter _ results).
  destruct (forEachM (pushIfUnique B) F ([], [])) as [[s1 o1]|err] eqn:Ha;
    cbn [bind]; [|discriminate].
  destruct (forEachM (pushIfUnique B) _ (s1, o1)) as [[s2 o2]|err] eqn:Hb;
    cbn [bind snd]; [|discriminate].
  intros [= <-].
  destruct (forEachM_pushIfUnique_state B _ _ _ _ _ Ha (mergeState_nil B))
    as (Hst1 & kept1 & -> & Hsub1).
  destruct (forEachM_pushIfUnique_state B _ _ _ _ _ Hb Hst1)
    as ((Hseen & Hnd & _) & kept2 & -> & Hsub2).
  cbn [app] in *. exists kept1, kept2. repeat split.
  - etransitivity; [exact Hsub1|]. apply filter_sublist.
  - apply Forall_forall. intros e He.
    pose proof (elem_of_sublist _ _ _ He Hsub1) as Hin.
    apply list_elem_of_In, filter_In in Hin as [_ Hp].
    apply passesFilters_callbacks. exact Hp.
  - exact Hsub2.
  - rewrite <- Hseen. exact Hnd.
Qed.

(** Tightening the filters reveals nothing new. Between two settings of
    which the second has the higher threshold, the larger allow list, the
    smaller deny list and the fewer requested types, the pipeline returns
    at both when the well-formed records of the analyzer have keys, and each
    entity returned under the second has the key of an entity returned under
    the first. *)
Theorem filterAnalyzerResults_monotone
    (results : list jsval) (sourceText : jsstr)
    (set1 set2 : option jsset) (t1 t2 : jsnum)
    (allow1 allow2 deny1 deny2 : jsset) :
  jsLe t1 t2 = true ->
  (forall x, x ∈ allow1 -> x ∈ allow2) ->
  (forall x, x ∈ deny2 -> x ∈ deny1) ->
  requestsMore set1 set2 ->
  Forall (fun e => wellFormed e = true -> hasKey B e = true) results ->
  exists out1 out2,
    filterAnalyzerResults B (JArr results) sourceText set1 t1 allow1 deny1
    = Ret out1
    /\ filterAnalyzerResults B (JArr results) sourceText set2 t2 allow2 deny2
       = Ret out2
    /\ forall e, e ∈ out2 ->
         exists e', e' ∈ out1 /\ keyStr B e' = keyStr B e.
Proof.
  intros Hle Hallow Hdeny Hsets Hk. rewrite !filterAnalyzerResults_stages.
  set (D1 := findDenylistEntities B (JStr sourceText) deny1).
  set (D2 := findDenylistEntities B (JStr sourceText) deny2).
  rewrite (mergeEntities_returns B _ D1) by (apply candidates_hasKey; exact Hk).
  rewrite (mergeEntities_returns B _ D2) by (apply candidates_hasKey; exact Hk).
  eexists. eexists. split; [reflexivity|]. split; [reflexivity|].
  intros e He.
  set (F2 := List.filter (passesFilters B sourceText set2 t2 allow2 deny2) results)
    in *.
  pose proof (firstSeenWins_wellFormed B [] (F2 ++ D2)) as Hwf.
  rewrite Forall_forall in Hwf. specialize (Hwf e He).
  pose proof (elem_of_sublist _ _ _ He (firstSeenWins_sublist B [] (F2 ++ D2))) as Hin.
  subst F2.
  assert (Hin1 : e ∈ List.filter (passesFilters B sourceText set1 t1 allow1 deny1)
                       results ++ D1).
  { apply elem_of_app in Hin as [Hin|Hin]; apply elem_of_app; [left|right].
    - apply list_elem_of_In, filter_In in Hin as [Hin Hp].
      apply list_elem_of_In, filter_In. split; [exact Hin|].
      apply (passesFilters_monotone B sourceText set1 set2 t1 t2
               allow1 allow2 deny1 deny2); assumption.
    - eapply findDenylistEntities_monotone; eassumption. }
  destruct (firstSeenWins_complete B [] _ e Hin1 Hwf) as [H|H]; [inversion H|].
  apply list_elem_of_In, in_map_iff in H as (e' & Hke & He').
  exists e'. split; [apply list_elem_of_In; exact He'|exact Hke].
Qed.
End PipelineGuarantees.

(** * Term lists and entity-type lists *)

Section SplitLemmas.
Context (sep : N -> bool) (f : jsstr -> jsstr).
Hypothesis f_empty : f [] = [].

Lemma splitAux_after_separator b :
  List.filter nonEmpty (List.map f (splitAux sep b [] true))
  = List.filter nonEmpty (List.map f (splitAux sep b [] false)).
Proof using f_empty.
  destruct b as [|c b]; [reflexivity|]. cbn [splitAux].
  destruct (sep c); [|reflexivity].
  cbn [rev List.map List.filter]. rewrite f_empty. reflexivity.
Qed.

(** The non-empty pieces of a string with a separator inside are those of
    the part before it followed by those of the part after it. *)
Lemma splitAux_app_separator a c b cur inSep :
  sep c = true -> (inSep = true -> cur = []) ->
  List.filter nonEmpty (List.map f (splitAux sep (a ++ c :: b) cur inSep))
  = List.filter nonEmpty (List.map f (splitAux sep a cur inSep))
    ++ List.filter nonEmpty (List.map f (splitAux sep b [] false)).
Proof using f_empty.
  intros Hc. revert cur inSep.
  induction a as [|x a IH]; intros cur inSep Hinv; cbn [app splitAux].
  - rewrite Hc. destruct inSep.
    + rewrite (Hinv eq_refl). cbn [rev List.map List.filter]. rewrite f_empty.
      cbn. apply splitAux_after_separator.
    + cbn [List.map List.filter]. rewrite splitAux_after_separator.
      destruct (nonEmpty (f (rev cur))); reflexivity.
  - destruct (sep x).
    + destruct inSep.
      * apply IH. exact Hinv.
      * cbn [List.map List.filter]. rewrite IH by reflexivity.
        destruct (nonEmpty (f (rev cur))); reflexivity.
    + apply IH. discriminate.
Qed.

Lemma splitRuns_join c (l : list jsstr) :
  sep c = true ->
  List.filter nonEmpty (List.map f (splitRuns sep (join [c] l)))
  = List.filter nonEmpty (List.map f (flat_map (splitRuns sep) l)).
Proof using f_empty.
  intros Hc. induction l as [|p l IH].
  - cbn. rewrite f_empty. reflexivity.
  - destruct l as [|q l].
    + cbn [join flat_map]. rewrite app_nil_r. reflexivity.
    + change (join [c] (p :: q :: l)) with (p ++ c :: join [c] (q :: l)).
      unfold splitRuns at 1. rewrite splitAux_app_separator by (auto; discriminate).
      fold (splitRuns sep p). fold (splitRuns sep (join [c] (q :: l))).
      rewrite IH. change (flat_map (splitRuns sep) (p :: q :: l))
        with (splitRuns sep p ++ flat_map (splitRuns sep) (q :: l)).
      rewrite List.map_app, List.filter_app. reflexivity.
Qed.
End SplitLemmas.

Section TermLists.
Context (B : JsBuiltins).

Lemma flat_map_strings {A} (g : jsstr -> list A) (l : list jsstr) :
  flat_map (fun entry => match entry with JStr s => g s | _ => [] end)
    (List.map JStr l)
  = flat_map g l.
Proof. induction l as [|p l IH]; [reflexivity|]. cbn. rewrite IH. reflexivity. Qed.

(** A term list can be given as one string or as the array of its
    pieces: the terms of the strings of [l] joined by a comma or by a line
    break are the terms of the array [l]. So a string gives the terms of
    the array that holds it alone. The terms of an array are those of its
    entries, one entry after the other, and entries that are not strings
    give none. *)
Theorem parseListInput_join (c : N) (l : list jsstr) (a b : list jsval) :
  normalizeListTerm B (JStr []) = [] ->
  TERM_SPLIT c = true ->
  parseListInput B (JStr (join [c] l)) = parseListInput B (JArr (List.map JStr l))
  /\ parseListInput B (JArr (a ++ b))
     = parseListInput B (JArr a) ++ parseListInput B (JArr b)
  /\ parseListInput B (JArr (List.filter isString a)) = parseListInput B (JArr a).
Proof.
  intros Hempty Hc. split; [|split].
  - assert (Hs : forall s,
              parseListInput B (JStr s)
              = List.filter nonEmpty
                  (List.map (fun piece => normalizeListTerm B (JStr piece))
                     (splitRuns TERM_SPLIT s))).
    { intros [|x s]; [|reflexivity].
      change (parseListInput B (JStr [])) with (@nil jsstr).
      change (splitRuns TERM_SPLIT []) with [@nil N].
      cbn [List.map List.filter]. rewrite Hempty. reflexivity. }
    rewrite Hs, (splitRuns_join _ _ Hempty) by exact Hc.
    cbn [parseListInput truthy negb]. rewrite flat_map_strings. reflexivity.
  - cbn [parseListInput truthy negb].
    rewrite flat_map_app, List.map_app, List.filter_app. reflexivity.
  - cbn [parseListInput truthy negb]. do 2 f_equal.
    induction a as [|x a IH]; [reflexivity|].
    destruct x; cbn [List.filter isString flat_map app]; rewrite IH; reflexivity.
Qed.

Lemma parseRequestedEntityTypes_array (l : list jsval) :
  parseRequestedEntityTypes B (JArr l)
  = setFromList
      (List.filter nonEmpty
         (flat_map
            (fun value =>
               match value with
               | JStr s =>
                   List.filter nonEmpty
                     (List.map (fun part => toUpperCase B (trim part))
                        (splitRuns ENTITY_TYPE_SPLIT s))
               | _ => []
               end) l)).
Proof. reflexivity. Qed.

Lemma filter_nonEmpty_idem (l : list jsstr) :
  List.filter nonEmpty (List.filter nonEmpty l) = List.filter nonEmpty l.
Proof.
  induction l as [|x l IH]; [reflexivity|]. cbn [List.filter].
  destruct (nonEmpty x) eqn:E; cbn [List.filter]; rewrite ?E, IH; reflexivity.
Qed.

Lemma filter_flat_map_filter {A} (p : jsstr -> bool) (g : A -> list jsstr) l :
  List.filter p (flat_map (fun x => List.filter p (g x)) l)
  = List.filter p (flat_map g l).
Proof.
  induction l as [|x l IH]; [reflexivity|]. cbn [flat_map].
  rewrite !List.filter_app, IH. f_equal.
  induction (g x) as [|y r IHr]; [reflexivity|]. cbn [List.filter].
  destruct (p y) eqn:E; cbn [List.filter]; rewrite ?E, IHr; reflexivity.
Qed.

(** The two services normalize a list of entity types as the route parses
    the requested ones: on every value [normalizeEntityTypes] of the
    services and [parseRequestedEntityTypes] of the route give the same
    list, which holds no name twice and no empty name. *)
Theorem normalizeEntityTypes_as_route (value : jsval) :
  toUpperCase B [] = [] ->
  PresetService.normalizeEntityTypes B value = parseRequestedEntityTypes B value
  /\ NoDup (parseRequestedEntityTypes B value)
  /\ [] ∉ parseRequestedEntityTypes B value.
Proof.
  intros Hup. split; [|split].
  - unfold PresetService.normalizeEntityTypes, parseRequestedEntityTypes.
    destruct value as [| |[]|[| | |q]|[|x s]|l|fields]; try reflexivity.
    + cbn [truthy negb]. destruct (Qeq_bool q 0); reflexivity.
    + cbn. rewrite Hup. reflexivity.
  - apply setFromList_NoDup.
  - unfold parseRequestedEntityTypes. rewrite setFromList_elem.
    intros H. apply list_elem_of_In, filter_In in H as [_ H]. discriminate.
Qed.

(** The requested entity types can be given as one string or as the array
    of its pieces: the names of the strings of [l] joined by a comma or by
    a white-space character are the names of the array [l]. *)
Theorem parseRequestedEntityTypes_join (c : N) (l : list jsstr) :
  toUpperCase B [] = [] ->
  ENTITY_TYPE_SPLIT c = true ->
  parseRequestedEntityTypes B (JStr (join [c] l))
  = parseRequestedEntityTypes B (JArr (List.map JStr l)).
Proof.
  intros Hup Hc. unfold parseRequestedEntityTypes. f_equal.
  cbn [flat_map]. rewrite app_nil_r, filter_nonEmpty_idem.
  rewrite (splitRuns_join ENTITY_TYPE_SPLIT (fun part => toUpperCase B (trim part)))
    by (try exact Hc; exact Hup).
  rewrite flat_map_strings.
  rewrite (filter_flat_map_filter nonEmpty
             (fun s => List.map (fun part => toUpperCase B (trim part))
                         (splitRuns ENTITY_TYPE_SPLIT s))).
  f_equal. induction l as [|p l IH]; [reflexivity|].
  cbn [flat_map]. rewrite List.map_app, IH. reflexivity.
Qed.
End TermLists.

(** * What a signature reads of its payload *)

Section SignatureReads.
Context (B : JsBuiltins).

(** The signature of a payload object is the rendering of its twelve
    entries. *)
Lemma buildResultSignature_entries fields :
  buildResultSignature B (JObj fields)
  = stableStringify B (JObj (List.map (signatureEntry B fields) signatureProperties)).
Proof. reflexivity. Qed.

Lemma buildResultSignature_same_entries f1 f2 :
  Forall (fun p => signatureEntry B f1 p = signatureEntry B f2 p)
    signatureProperties ->
  buildResultSignature B (JObj f1) = buildResultSignature B (JObj f2).
Proof.
  intros H. rewrite !buildResultSignature_entries. do 2 f_equal.
  induction H as [|p l Hp Hl IH]; [reflexivity|].
  cbn [List.map]. rewrite Hp, IH. reflexivity.
Qed.

Lemma lookupField_middle name f1 k v f2 :
  name <> k ->
  lookupField name (f1 ++ (k, v) :: f2) = lookupField name (f1 ++ f2).
Proof.
  intros Hne. induction f1 as [|[k' v'] f1 IH]; cbn [app lookupField].
  - unfold jsstr_eqb. rewrite bool_decide_eq_false_2 by exact Hne. reflexivity.
  - destruct (jsstr_eqb name k'); [reflexivity|exact IH].
Qed.

Lemma lookupField_snoc name fields k v :
  lookupField name (fields ++ [(k, v)])
  = match lookupField name fields with
    | Some x => Some x
    | None => if jsstr_eqb name k then Some v else None
    end.
Proof.
  induction fields as [|[k' v'] fields IH]; cbn [app lookupField]; [reflexivity|].
  destruct (jsstr_eqb name k'); [reflexivity|exact IH].
Qed.

Lemma signatureNames_NoDup : NoDup signatureNames.
Proof.
  vm_compute.
  repeat (constructor;
          [rewrite ?elem_of_cons, ?elem_of_nil; intuition discriminate|]).
  constructor.
Qed.

(** The default and the role that go with a name of the table. *)
Lemma signatureProperties_name name d role name' d' role' :
  (name, d, role) ∈ signatureProperties ->
  (name', d', role') ∈ signatureProperties ->
  name = name' -> d = d' /\ role = role'.
Proof.
  unfold signatureProperties. rewrite !elem_of_cons, !elem_of_nil.
  intros H1 H2 E.
  repeat (destruct H1 as [H1|H1]); try contradiction;
    injection H1 as -> -> ->;
    repeat (destruct H2 as [H2|H2]); try contradiction;
    injection H2 as -> -> ->;
    first [split; reflexivity | discriminate E].
Qed.
End SignatureReads.

Section SignatureFields.
Context (B : JsBuiltins).

(** Only the twelve properties count: a property of any other name,
    wherever it stands in the payload object, leaves the signature as it
    is. *)
Theorem buildResultSignature_other_property
    (f1 f2 : list (jsstr * jsval)) (k : jsstr) (v : jsval) :
  k ∉ signatureNames ->
  buildResultSignature B (JObj (f1 ++ (k, v) :: f2))
  = buildResultSignature B (JObj (f1 ++ f2)).
Proof.
  intros Hk. apply buildResultSignature_same_entries.
  apply Forall_forall. intros [[name d] role] Hin.
  unfold signatureEntry, fieldOr. rewrite lookupField_middle; [reflexivity|].
  intros ->. apply Hk. unfold signatureNames.
  apply list_elem_of_In, in_map_iff. exists (k, d, role).
  split; [reflexivity|apply list_elem_of_In; exact Hin].
Qed.

(** A property that the payload lacks counts as its default: adding it
    with the default value leaves the signature as it is. So does adding a
    [threshold] that is neither a number nor a string, or [entityTypes],
    [entities] or [items] that are not an array. *)
Theorem buildResultSignature_defaults
    (fields : list (jsstr * jsval)) (name : jsstr) (default v : jsval)
    (role : signatureRole) :
  (name, default, role) ∈ signatureProperties ->
  lookupField name fields = None ->
  v = default
  \/ (role = AsThreshold /\ isNumber v = false /\ isString v = false)
  \/ (role = AsEntityTypes /\ match v with JArr _ => False | _ => True end)
  \/ (role = AsArray /\ match v with JArr _ => False | _ => True end) ->
  buildResultSignature B (JObj (fields ++ [(name, v)]))
  = buildResultSignature B (JObj fields).
Proof.
  intros Hin Hnone Hv. apply buildResultSignature_same_entries.
  apply Forall_forall. intros [[name' d'] role'] Hin'.
  unfold signatureEntry, fieldOr. rewrite lookupField_snoc.
  unfold jsstr_eqb. destruct (decide (name' = name)) as [->|Hne].
  - rewrite Hnone, bool_decide_eq_true_2 by reflexivity.
    destruct (signatureProperties_name _ _ _ _ _ _ Hin' Hin eq_refl) as [-> ->].
    f_equal.
    unfold signatureProperties in Hin.
    rewrite !elem_of_cons, !elem_of_nil in Hin.
    repeat (destruct Hin as [Hin|Hin]); try contradiction;
      injection Hin as -> -> ->;
      (destruct Hv as [->|[(Hr & Hn & Hs)|[(Hr & Ha)|(Hr & Ha)]]];
       [reflexivity
       |try discriminate Hr; destruct v; try discriminate; reflexivity
       |try discriminate Hr; destruct v; try contradiction; reflexivity
       |try discriminate Hr; destruct v; try contradiction; reflexivity]).
  - rewrite bool_decide_eq_false_2 by exact Hne.
    destruct (lookupField name' fields); reflexivity.
Qed.
End SignatureFields.

(** * One pass of the annotator *)

Section ReplaceLemmas.

(** A replacement text without a dollar sign is inserted as it is. *)
Lemma expandReplacement_plain template matched before after :
  36%N ∉ template ->
  expandReplacement template matched before after = template.
Proof.
  induction template as [|c rest IH]; intros Hno; [reflexivity|].
  cbn [expandReplacement].
  assert (Hc : (c =? 36)%N = false).
  { apply N.eqb_neq. intros ->. apply Hno, list_elem_of_here. }
  rewrite Hc. f_equal. apply IH.
  intros Hin. apply Hno, list_elem_of_further, Hin.
Qed.

Lemma replaceAux_skip orig pat template s pos k :
  replaceAux orig pat template s pos k
  = replaceAux orig pat template (drop k s) (pos + k) 0.
Proof.
  revert s pos. induction k as [|k IH]; intros s pos.
  - rewrite drop_0, Nat.add_0_r. reflexivity.
  - destruct s as [|c rest]; [reflexivity|].
    cbn [replaceAux drop]. rewrite IH. f_equal. lia.
Qed.

Lemma replaceAux_nil orig pat template pos k :
  replaceAux orig pat template [] pos k = [].
Proof. reflexivity. Qed.

(** Up to the next occurrence the scan copies the text. *)
Lemma replaceAux_copy orig pat template pos p :
  pos <= p <= length orig ->
  (forall i, pos <= i < p -> ~ occursAt orig pat i) ->
  replaceAux orig pat template (drop pos orig) pos 0
  = sliceNat orig pos p ++ replaceAux orig pat template (drop p orig) p 0.
Proof.
  intros Hp. remember (p - pos) as d eqn:Hd. revert pos Hp Hd.
  induction d as [|d IH]; intros pos Hp Hd Hnone.
  - assert (pos = p) by lia. subst pos. unfold sliceNat.
    rewrite Nat.sub_diag. reflexivity.
  - destruct (lookup_lt_is_Some_2 orig pos ltac:(lia)) as [c Hc].
    rewrite (drop_S _ _ _ Hc). cbn [replaceAux].
    assert (Hpre : isPrefix pat (c :: drop (S pos) orig) = false).
    { apply not_true_is_false. rewrite <- (drop_S _ _ _ Hc).
      intros H. apply occursAt_prefix in H. apply (Hnone pos); [lia|exact H]. }
    rewrite Hpre, (IH (S pos)); [|lia|lia|intros i Hi; apply Hnone; lia].
    unfold sliceNat. rewrite (drop_S _ _ _ Hc).
    replace (p - pos) with (S (p - S pos)) by lia. reflexivity.
Qed.

(** The scan replaces the greedy matches of the text, and nothing else. *)
Lemma replaceAux_greedy orig pat template pos starts :
  pat <> [] -> 36%N ∉ template ->
  GreedyMatches orig pat pos starts ->
  pos <= length orig ->
  replaceAux orig pat template (drop pos orig) pos 0
  = spliceMatches orig (length pat) template pos starts.
Proof.
  intros Hne Hplain Hg.
  induction Hg as [cursor Hnone|cursor p rest Hle Hocc Hfirst Hrest IH];
    intros Hpos; cbn [spliceMatches].
  - rewrite (replaceAux_copy orig pat template cursor (length orig));
      [|lia|intros i Hi; apply Hnone; lia].
    rewrite drop_all, replaceAux_nil, app_nil_r. unfold sliceNat.
    apply take_ge. rewrite length_drop. lia.
  - pose proof (occursAt_bound _ _ _ Hne Hocc) as Hb.
    assert (Hlen : 0 < length pat) by (destruct pat; [contradiction|cbn; lia]).
    rewrite (replaceAux_copy orig pat template cursor p); [|lia|exact Hfirst].
    f_equal.
    destruct (lookup_lt_is_Some_2 orig p ltac:(lia)) as [c Hc].
    rewrite (drop_S _ _ _ Hc). cbn [replaceAux].
    assert (Hpre : isPrefix pat (c :: drop (S p) orig) = true).
    { rewrite <- (drop_S _ _ _ Hc). apply occursAt_prefix. exact Hocc. }
    rewrite Hpre, expandReplacement_plain by exact Hplain. f_equal.
    rewrite replaceAux_skip, drop_drop.
    replace (S p + (length pat - 1)) with (p + length pat) by lia.
    apply IH. lia.
Qed.

Lemma replaceAll_greedy s pat template starts :
  pat <> [] -> 36%N ∉ template ->
  GreedyMatches s pat 0 starts ->
  replaceAll s pat template = spliceMatches s (length pat) template 0 starts.
Proof.
  intros Hne Hplain Hg. unfold replaceAll.
  rewrite <- (replaceAux_greedy s pat template 0 starts) by (auto; lia).
  rewrite drop_0. reflexivity.
Qed.

(** A non-empty term has greedy matches in every text. *)
Lemma GreedyMatches_exist s term :
  term <> [] -> exists starts, GreedyMatches s term 0 starts.
Proof.
  destruct term as [|c t]; [contradiction|]. intros _.
  destruct (scanTerm_greedy s s c t 0) as (starts & _ & Hg).
  exists starts. exact Hg.
Qed.
End ReplaceLemmas.

Section AnnotatorPass.
Context (B : JsBuiltins).

Lemma lookupField_setField k v fields k' :
  lookupField k' (setField k v fields)
  = if jsstr_eqb k' k then Some v else lookupField k' fields.
Proof.
  induction fields as [|[k0 v0] fields IH]; cbn [setField lookupField].
  - destruct (jsstr_eqb k' k); reflexivity.
  - unfold jsstr_eqb in *.
    destruct (decide (k = k0)) as [<-|Hne].
    + rewrite bool_decide_eq_true_2 by reflexivity. cbn [lookupField].
      unfold jsstr_eqb. destruct (bool_decide (k' = k)); reflexivity.
    + rewrite (bool_decide_eq_false_2 (k = k0)) by exact Hne. cbn [lookupField].
      unfold jsstr_eqb. rewrite IH.
      destruct (decide (k' = k0)) as [->|Hne'].
      * rewrite bool_decide_eq_true_2 by reflexivity.
        rewrite bool_decide_eq_false_2 by congruence. reflexivity.
      * rewrite (bool_decide_eq_false_2 (k' = k0)) by exact Hne'. reflexivity.
Qed.

Lemma fieldOr_setField_other k v fields k' :
  k' <> k -> fieldOr k' (setField k v fields) = fieldOr k' fields.
Proof.
  intros Hne. unfold fieldOr. rewrite lookupField_setField.
  unfold jsstr_eqb. rewrite bool_decide_eq_false_2 by exact Hne. reflexivity.
Qed.

Lemma fieldOr_setField_same k v fields :
  fieldOr k (setField k v fields) = v.
Proof.
  unfold fieldOr. rewrite lookupField_setField.
  unfold jsstr_eqb. rewrite bool_decide_eq_true_2 by reflexivity. reflexivity.
Qed.

(** The placeholder of a type shown as a non-empty string. *)
Lemma replacementFor_string entityType map shown :
  resolveDisplayEntityType entityType map = JStr shown -> shown <> [] ->
  replacementFor B entityType map = Ret (js "&lt;" ++ shown ++ js "&gt;").
Proof.
  intros Hshown Hne. unfold replacementFor. rewrite Hshown.
  destruct shown as [|c shown]; [contradiction|]. reflexivity.
Qed.

(** With one entity, the annotator replaces the greedy matches of its
    found text (the first occurrence, then the first one after it, and so
    on) by the placeholder of its type, and copies the rest of the markup.
    The entity has numeric offsets [start < end] that cut a non-empty text
    out of the plain text, and a type shown as a non-empty string without
    dollar sign. *)
Theorem applyAnonymizationToHtml_single
    (html plainText : jsstr) (_items : jsval) (fields : list (jsstr * jsval))
    (a b : Q) (entityType : jsval) (map : displayMap) (shown : jsstr) :
  fieldOr (js "start") fields = JNum (Fin a) ->
  fieldOr (js "end") fields = JNum (Fin b) ->
  (a < b)%Q ->
  slice plainText (Fin a) (Fin b) <> [] ->
  fieldOr (js "entity_type") fields = entityType ->
  resolveDisplayEntityType entityType map = JStr shown ->
  shown <> [] -> 36%N ∉ shown ->
  let foundText := slice plainText (Fin a) (Fin b) in
  exists starts,
    GreedyMatches html foundText 0 starts
    /\ applyAnonymizationToHtml B (JStr html) (JStr plainText) _items
         (Some [JObj fields]) map
       = Ret (spliceMatches html (length foundText)
                (js "&lt;" ++ shown ++ js "&gt;") 0 starts).
Proof.
  intros Ha Hb Hlt Hfound Htype Hshown Hne Hplain foundText.
  destruct (GreedyMatches_exist html foundText Hfound) as (starts & Hg).
  exists starts. split; [exact Hg|].
  unfold applyAnonymizationToHtml.
  cbn [length Nat.eqb stringOrEmpty assignFoundTexts List.map assignFoundText].
  rewrite Ha, Hb.
  assert (Hgt : jsGt (Fin b) (Fin a) = true).
  { cbn. unfold Qlt_bool. apply negb_true_iff, not_true_is_false.
    intros H. apply Qle_bool_iff in H. apply (Qlt_irrefl a).
    eapply Qlt_le_trans; eassumption. }
  rewrite Hgt. fold foundText.
  set (entity := JObj (setField (js "foundText") (JStr foundText) fields)).
  change (sortEntities [entity]) with [entity].
  cbn [forEachM]. unfold annotatePass.
  assert (Hft : getPropOpt entity (js "foundText") = JStr foundText).
  { unfold entity, getPropOpt. cbn [getProp]. apply fieldOr_setField_same. }
  assert (Het : getProp entity (js "entity_type") = Ret entityType).
  { unfold entity. cbn [getProp]. rewrite fieldOr_setField_other by discriminate.
    rewrite Htype. reflexivity. }
  change (truthy entity) with true. cbv iota.
  rewrite Hft.
  assert (Hpos : (0 <? length foundText)%nat = true).
  { apply Nat.ltb_lt. destruct (length foundText) eqn:E; [|lia].
    apply length_zero_iff_nil in E. contradiction. }
  rewrite Hpos, Het. cbn [bind].
  rewrite (replacementFor_string _ _ _ Hshown Hne). cbn [bind stringOrEmpty].
  rewrite (replaceAll_greedy html foundText _ starts); [reflexivity|exact Hfound| |exact Hg].
  change (js "&lt;") with [38; 108; 116; 59]%N.
  change (js "&gt;") with [38; 103; 116; 59]%N.
  rewrite !elem_of_app.
  intros [H|[H|H]]; [|exact (Hplain H)|];
    rewrite !elem_of_cons, elem_of_nil in H; intuition discriminate.
Qed.
End AnnotatorPass.

(** * The order of the entities *)

Section AnnotatorPermutation.
Context (B : JsBuiltins).

Lemma NoDup_map_inj {A C} (f : A -> C) (l : list A) x y :
  NoDup (List.map f l) -> x ∈ l -> y ∈ l -> f x = f y -> x = y.
Proof.
  induction l as [|z l IH]; intros Hnd Hx Hy Hf; [inversion Hx|].
  cbn [List.map] in Hnd. apply NoDup_cons in Hnd as [Hni Hnd].
  apply elem_of_cons in Hx as [->|Hx], Hy as [->|Hy].
  - reflexivity.
  - exfalso. apply Hni. rewrite Hf. apply list_elem_of_In, in_map, list_elem_of_In, Hy.
  - exfalso. apply Hni. rewrite <- Hf. apply list_elem_of_In, in_map, list_elem_of_In, Hx.
  - auto.
Qed.

Lemma filter_Permutation {A} (p : A -> bool) (l1 l2 : list A) :
  l1 ≡ₚ l2 -> List.filter p l1 ≡ₚ List.filter p l2.
Proof.
  induction 1 as [|x l l' Hp IH|x y l|l l' l'' Hp1 IH1 Hp2 IH2]; cbn [List.filter].
  - reflexivity.
  - destruct (p x); [constructor|]; exact IH.
  - destruct (p x), (p y); try reflexivity. apply Permutation_swap.
  - etransitivity; eassumption.
Qed.

Lemma filter_isUndefined_repeat l :
  List.filter isUndefined l = repeat JUndefined (length (List.filter isUndefined l)).
Proof.
  induction l as [|x l IH]; [reflexivity|]. cbn [List.filter].
  destruct x; cbn [isUndefined]; try exact IH.
  cbn [length repeat]. f_equal. exact IH.
Qed.

(** Entities with found texts of distinct lengths are sorted the same way
    whatever their order in the array. *)
Lemma sortEntities_Permutation_eq l1 l2 :
  l1 ≡ₚ l2 -> NoDup (List.map foundTextLength l1) ->
  sortEntities l1 = sortEntities l2.
Proof.
  intros Hp Hnd.
  destruct (sortEntities_longest_first l1) as [Hp1 Hs1].
  destruct (sortEntities_longest_first l2) as [Hp2 Hs2].
  apply (StronglySorted_unique_strong
           (fun a b => foundTextLength b <= foundTextLength a));
    [|assumption|assumption|rewrite Hp1, Hp2; exact Hp].
  intros x1 x2 Hx1 Hx2 H1 H2.
  apply (NoDup_map_inj foundTextLength l1); [exact Hnd| | |lia].
  - rewrite <- Hp1. exact Hx1.
  - rewrite Hp, <- Hp2. exact Hx2.
Qed.

Lemma assignFoundTexts_Permutation plainText l1 l2 :
  l1 ≡ₚ l2 -> assignFoundTexts plainText l1 ≡ₚ assignFoundTexts plainText l2.
Proof.
  intros Hp. unfold assignFoundTexts. destruct plainText; try exact Hp.
  apply Permutation_map. exact Hp.
Qed.

(** The annotator of utils/anonymizerUtils.js does not depend on the
    order of the entity array when the found texts have distinct lengths:
    two arrays with the same entities give the same markup (or throw
    alike). *)
Theorem applyAnonymizationToHtml_order_irrelevant
    (html plainText _items : jsval) (entities entities' : list jsval)
    (map : displayMap) :
  entities ≡ₚ entities' ->
  NoDup (List.map foundTextLength (assignFoundTexts plainText entities)) ->
  applyAnonymizationToHtml B html plainText _items (Some entities) map
  = applyAnonymizationToHtml B html plainText _items (Some entities') map.
Proof.
  intros Hp Hnd. unfold applyAnonymizationToHtml.
  rewrite <- (Permutation_length Hp).
  destruct (length entities =? 0)%nat; [reflexivity|].
  rewrite (sortEntities_Permutation_eq _ (assignFoundTexts plainText entities'));
    [reflexivity| |exact Hnd].
  apply assignFoundTexts_Permutation. exact Hp.
Qed.
End AnnotatorPermutation.

(** * The ids of the findings *)

Section EntityIdClaims.
Context (B : JsBuiltins).

Lemma last_segment_inj (x : N) l1 d1 l2 d2 :
  x ∉ d1 -> x ∉ d2 -> l1 ++ x :: d1 = l2 ++ x :: d2 -> d1 = d2.
Proof.
  intros H1 H2 H. apply (f_equal (@rev N)) in H.
  rewrite !rev_app_distr in H. cbn [rev] in H. rewrite <- !app_assoc in H.
  cbn [app] in H.
  apply app_pivot_inj in H as [H _].
  - rewrite <- (rev_involutive d1), <- (rev_involutive d2), H. reflexivity.
  - intros Hin. apply H1. apply list_elem_of_In, in_rev, list_elem_of_In, Hin.
  - intros Hin. apply H2. apply list_elem_of_In, in_rev, list_elem_of_In, Hin.
Qed.

(** An id ends with the index it was built for. *)
Lemma buildEntityId_index_inj (e1 e2 : jsval) (i j : nat) (id : jsstr) :
  (Z.of_nat i < 2 ^ 53)%Z -> (Z.of_nat j < 2 ^ 53)%Z ->
  buildEntityId B e1 i = Ret id -> buildEntityId B e2 j = Ret id -> i = j.
Proof.
  intros Hi Hj. unfold buildEntityId.
  destruct (toStringJS B (coalesce (getPropOpt e1 (js "entity_type")) (JStr [])))
    as [t1|]; cbn [bind]; [|discriminate].
  destruct (toStringJS B (coalesce _ (JNum (ofNat i)))) as [s1|];
    cbn [bind]; [|discriminate].
  destruct (toStringJS B (coalesce (getPropOpt e2 (js "entity_type")) (JStr [])))
    as [t2|]; cbn [bind]; [|discriminate].
  destruct (toStringJS B (coalesce _ (JNum (ofNat j)))) as [s2|];
    cbn [bind]; [|discriminate].
  rewrite !numberToString_ofNat by assumption.
  intros [= <-] [= H].
  change (js "-") with [45%N] in H. cbn [app] in H.
  assert (E : forall t s d : jsstr,
             t ++ 45%N :: s ++ 45%N :: d = (t ++ 45%N :: s) ++ 45%N :: d)
    by (intros; rewrite <- app_assoc; reflexivity).
  rewrite !E in H.
  apply last_segment_inj in H; try apply decimalN_no_hyphen.
  apply decimalN_inj in H. lia.
Qed.

Lemma buildEntityId_returns (e : jsval) (i : nat) :
  (exists t, toStringJS B (entityType e) = Ret t) ->
  exists id, buildEntityId B e i = Ret id.
Proof.
  intros [t Ht]. unfold buildEntityId. unfold entityType in Ht.
  rewrite Ht. cbn [bind].
  destruct (getPropOpt e (js "start")) as [| | |n| | |];
    cbn [coalesce nullish toStringJS bind]; eauto.
Qed.

(** The ids of the findings of one result are pairwise distinct: two
    entities at different indices of the array never get the same id,
    whatever their types and offsets. The id can be built whenever the type
    of the entity converts to a string. *)
Theorem buildEntityId_distinct (e1 e2 : jsval) (i j : nat) :
  (Z.of_nat i < 2 ^ 53)%Z -> (Z.of_nat j < 2 ^ 53)%Z -> i <> j ->
  (forall id1 id2,
     buildEntityId B e1 i = Ret id1 -> buildEntityId B e2 j = Ret id2 ->
     id1 <> id2)
  /\ ((exists t, toStringJS B (entityType e1) = Ret t) ->
      exists id1, buildEntityId B e1 i = Ret id1).
Proof.
  intros Hi Hj Hne. split.
  - intros id1 id2 H1 H2 E. subst id2. apply Hne.
    eapply buildEntityId_index_inj; eassumption.
  - apply buildEntityId_returns.
Qed.
End EntityIdClaims.

(** * The normalizers of the services *)

Section TrimLemmas.

Lemma dropWhile_app_all {A} (p : A -> bool) l r :
  forallb p l = true -> dropWhile p (l ++ r) = dropWhile p r.
Proof.
  induction l as [|x l IH]; [reflexivity|]. cbn [forallb app dropWhile].
  intros H. apply andb_prop in H as [Hx Hl]. rewrite Hx. auto.
Qed.

Lemma dropWhile_split {A} (p : A -> bool) l :
  exists pre, l = pre ++ dropWhile p l /\ forallb p pre = true.
Proof.
  induction l as [|x l (pre & Hl & Hpre)].
  - exists []. auto.
  - cbn [dropWhile]. destruct (p x) eqn:E.
    + exists (x :: pre). cbn [forallb app]. rewrite E, Hpre, <- Hl. auto.
    + exists []. auto.
Qed.

Lemma dropWhile_head {A} (p : A -> bool) l x r :
  dropWhile p l = x :: r -> p x = false.
Proof.
  induction l as [|y l IH]; [discriminate|]. cbn [dropWhile].
  destruct (p y) eqn:E; [exact IH|]. intros [= <- _]. exact E.
Qed.

Lemma dropWhile_id {A} (p : A -> bool) l :
  match l with x :: _ => p x = false | [] => True end -> dropWhile p l = l.
Proof. destruct l as [|x l]; [reflexivity|]. cbn. intros ->. reflexivity. Qed.

Lemma dropWhile_nil_iff {A} (p : A -> bool) l :
  dropWhile p l = [] <-> forallb p l = true.
Proof.
  induction l as [|x l IH]; [cbn; tauto|]. cbn [dropWhile forallb].
  destruct (p x); cbn [andb]; [exact IH|]. split; discriminate.
Qed.

(** The shape of a trimmed string: the string without a white-space
    prefix and a white-space suffix, empty or with a first and a last
    character that are not white space. *)
Lemma trim_split s :
  exists pre post,
    s = pre ++ trim s ++ post
    /\ forallb isWhiteSpace pre = true /\ forallb isWhiteSpace post = true
    /\ match trim s with x :: _ => isWhiteSpace x = false | [] => True end
    /\ match rev (trim s) with x :: _ => isWhiteSpace x = false | [] => True end.
Proof.
  unfold trim.
  destruct (dropWhile_split isWhiteSpace s) as (pre & Hs & Hpre).
  set (d := dropWhile isWhiteSpace s) in *.
  destruct (dropWhile_split isWhiteSpace (rev d)) as (post & Hd & Hpost).
  set (e := dropWhile isWhiteSpace (rev d)) in *.
  exists pre, (rev post). repeat split.
  - rewrite <- rev_app_distr, <- Hd, rev_involutive. exact Hs.
  - exact Hpre.
  - rewrite forallb_forall in Hpost |- *. intros x Hx. apply Hpost, in_rev, Hx.
  - destruct (rev e) as [|x r] eqn:Er; [exact I|].
    destruct d as [|y d'] eqn:Ed.
    + subst e. cbn in Er. discriminate.
    + assert (Hy : isWhiteSpace y = false)
        by (eapply dropWhile_head; subst d; exact Ed).
      assert (Hyd : y :: d' = rev e ++ rev post).
      { rewrite <- rev_app_distr, <- Hd, rev_involutive. reflexivity. }
      rewrite Er in Hyd. injection Hyd as -> _. exact Hy.
  - rewrite rev_involutive. destruct e as [|x r] eqn:Ee; [exact I|].
    eapply dropWhile_head. subst e. exact Ee.
Qed.

Lemma trim_nil_iff s : trim s = [] <-> forallb isWhiteSpace s = true.
Proof.
  unfold trim. split.
  - intros H. apply (f_equal (@rev N)) in H. rewrite rev_involutive in H.
    cbn in H. apply dropWhile_nil_iff in H.
    destruct (dropWhile_split isWhiteSpace s) as (pre & Hs & Hpre).
    rewrite Hs, forallb_app, Hpre. cbn [andb].
    rewrite forallb_forall in H |- *. intros x Hx. apply H, in_rev.
    rewrite rev_involutive. exact Hx.
  - intros H. apply dropWhile_nil_iff in H. rewrite H. reflexivity.
Qed.

Lemma trim_length s : length (trim s) <= length s.
Proof.
  destruct (trim_split s) as (pre & post & Hs & _).
  rewrite Hs at 2. rewrite !length_app. lia.
Qed.

(** A string without white space at either end is its own trimmed form. *)
Lemma trim_fixed s :
  match s with x :: _ => isWhiteSpace x = false | [] => True end ->
  match rev s with x :: _ => isWhiteSpace x = false | [] => True end ->
  trim s = s.
Proof.
  intros H1 H2. unfold trim.
  rewrite (dropWhile_id _ s H1), (dropWhile_id _ (rev s) H2).
  apply rev_involutive.
Qed.

Lemma trim_idem s : trim (trim s) = trim s.
Proof.
  destruct (trim_split s) as (_ & _ & _ & _ & _ & H1 & H2).
  apply trim_fixed; assumption.
Qed.
End TrimLemmas.

Section ServiceNormalizers.
Context (B : JsBuiltins).

(** The name under which a preset is saved has at most 150 code units and
    does not start with white space; it is the trimmed value when that is
    short enough, and it is empty exactly when the value is not a string or
    holds white space only. *)
Theorem normalizeName_bounds (value : jsval) :
  length (PresetService.normalizeName value) <= 150
  /\ match PresetService.normalizeName value with
     | x :: _ => isWhiteSpace x = false
     | [] => True
     end
  /\ (PresetService.normalizeName value = [] <->
      match value with
      | JStr s => forallb isWhiteSpace s = true
      | _ => True
      end)
  /\ (forall s, value = JStr s -> length (trim s) <= 150 ->
                PresetService.normalizeName value = trim s).
Proof.
  unfold PresetService.normalizeName.
  destruct value as [| | | |s| |]; try (cbn; repeat split; auto; lia || discriminate).
  change (ofNat 0) with (ofNat 0%nat). rewrite slice_ofNat. unfold sliceNat.
  rewrite drop_0, Nat.sub_0_r.
  destruct (trim_split s) as (_ & _ & _ & _ & _ & Hhead & _).
  repeat split.
  - rewrite length_take. lia.
  - destruct (trim s) as [|x r]; [exact I|exact Hhead].
  - intros H. apply trim_nil_iff. destruct (trim s); [reflexivity|discriminate].
  - intros H. apply trim_nil_iff in H. rewrite H. reflexivity.
  - intros s' [= <-] Hlen. apply take_ge. exact Hlen.
Qed.

(** The model name of a preset and the language of a saved run are never
    blank: each is the trimmed value, which has no white space at either
    end, when that is not empty, and the default ("en_core_web_lg", "en")
    when the value is not a string or holds white space only. *)
Theorem normalizeNerModel_never_blank (value : jsval) :
  let blank :=
    match value with
    | JStr s => forallb isWhiteSpace s
    | _ => true
    end in
  let model := PresetService.normalizeNerModel value in
  let language := AnonymizationService.normalizeLanguage value in
  model <> [] /\ trim model = model
  /\ language <> [] /\ trim language = language
  /\ (blank = true -> model = js "en_core_web_lg" /\ language = js "en")
  /\ (blank = false ->
      exists s, value = JStr s /\ model = trim s /\ language = trim s).
Proof.
  unfold PresetService.normalizeNerModel, AnonymizationService.normalizeLanguage,
    AnonymizationService.DEFAULT_LANGUAGE.
  destruct value as [| | | |s| |];
    try (cbn; repeat split; auto; discriminate).
  cbv zeta.
  destruct (forallb isWhiteSpace s) eqn:Hblank.
  - rewrite (proj2 (trim_nil_iff s) Hblank).
    cbn; repeat split; auto; discriminate.
  - assert (Hne : trim s <> []).
    { intros H. apply trim_nil_iff in H. congruence. }
    destruct (trim s) as [|x r] eqn:Et; [contradiction|].
    cbn [length Nat.eqb Nat.ltb Nat.leb]. rewrite <- Et.
    repeat split; try discriminate; try apply trim_idem.
    + rewrite Et. discriminate.
    + rewrite Et. discriminate.
    + intros _. exists s. auto.
Qed.
End ServiceNormalizers.

(** * The search of saved runs *)

Section SavedSearch.
Context (B : JsBuiltins) (parseInt10 : jsstr -> jsnum).

Lemma escapeQuery_no_wildcard value c :
  c ∈ AnonymizationService.escapeQuery value -> c <> 37%N /\ c <> 95%N.
Proof.
  unfold AnonymizationService.escapeQuery.
  intros H. apply list_elem_of_In, filter_In in H as [_ H].
  apply negb_true_iff, orb_false_iff in H as [H1 H2].
  apply N.eqb_neq in H1, H2. auto.
Qed.

Lemma clampLimit_returns value s :
  toStringJS B value = Ret s ->
  exists q,
    AnonymizationService.clampLimit B parseInt10 value = Ret (Fin q)
    /\ (1 <= q)%Q /\ (q <= 50)%Q.
Proof.
  intros Hs. unfold AnonymizationService.clampLimit. rewrite Hs. cbn [bind].
  destruct (parseInt10 s) as [| | |n]; cbn [numIsFinite negb orb];
    try (eexists; split; [reflexivity|split; discriminate]).
  unfold ofNat. cbn [jsLe]. change (inject_Z (Z.of_nat 0)) with 0%Q.
  destruct (Qle_bool n 0) eqn:E0.
  - eexists; split; [reflexivity|split; discriminate].
  - unfold mathMax. cbn [jsLe]. change (inject_Z (Z.of_nat 1)) with 1%Q.
    destruct (Qle_bool n 1) eqn:E1.
    + eexists; split; [reflexivity|split; discriminate].
    + unfold mathMin. cbn [jsLe]. change (inject_Z (Z.of_nat 50)) with 50%Q.
      destruct (Qle_bool n 50) eqn:E50.
      * eexists; split; [reflexivity|]. split.
        -- apply Qlt_le_weak, Qnot_le_lt. intros H.
           apply Qle_bool_iff in H. congruence.
        -- apply Qle_bool_iff. exact E50.
      * eexists; split; [reflexivity|split; discriminate].
Qed.

(** The number of suggestions asked of the database is always between 1
    and 50: a limit that converts to a string gives the number read from
    it when that lies in the range, 1 or 50 when it is a positive number
    below or above the range, and 10 when nothing positive can be read. *)
Theorem clampLimit_range (value : jsval) (s : jsstr) :
  toStringJS B value = Ret s ->
  exists q,
    AnonymizationService.clampLimit B parseInt10 value = Ret (Fin q)
    /\ (1 <= q)%Q /\ (q <= 50)%Q
    /\ match parseInt10 s with
       | Fin n =>
           if Qle_bool n 0 then q = 10%Q
           else if Qle_bool n 1 then q = 1%Q
           else if Qle_bool n 50 then q = n
           else q = 50%Q
       | _ => q = 10%Q
       end.
Proof.
  intros Hs. destruct (clampLimit_returns value s Hs) as (q & Hq & H1 & H50).
  exists q. split; [exact Hq|]. split; [exact H1|]. split; [exact H50|].
  unfold AnonymizationService.clampLimit in Hq. rewrite Hs in Hq. cbn [bind] in Hq.
  destruct (parseInt10 s) as [| | |n]; cbn [numIsFinite negb orb] in Hq;
    try (injection Hq as <-; reflexivity).
  unfold ofNat in Hq. cbn [jsLe] in Hq.
  change (inject_Z (Z.of_nat 0)) with 0%Q in Hq.
  destruct (Qle_bool n 0); [injection Hq as <-; reflexivity|].
  unfold mathMax in Hq. cbn [jsLe] in Hq.
  change (inject_Z (Z.of_nat 1)) with 1%Q in Hq.
  destruct (Qle_bool n 1).
  - unfold mathMin in Hq. cbn in Hq. injection Hq as <-. reflexivity.
  - unfold mathMin in Hq. cbn [jsLe] in Hq.
    change (inject_Z (Z.of_nat 50)) with 50%Q in Hq.
    destruct (Qle_bool n 50); injection Hq as <-; reflexivity.
Qed.

(** A search of the saved runs never passes a wildcard of the user to the
    database: when the trimmed query is not empty, the [LIKE] pattern is
    the trimmed query without its [%] and [_] characters, which keep their
    order, between two [%]; otherwise the recent runs are listed. The
    search returns whenever the limit converts to a string, with a limit
    between 1 and 50. *)
Theorem searchAnonymizationsForUser_pattern (userId query limit : jsval)
    (s : jsstr) :
  truthy userId = true ->
  toStringJS B limit = Ret s ->
  let trimmedQuery := match query with JStr q => trim q | _ => [] end in
  exists lim,
    (1 <= lim)%Q /\ (lim <= 50)%Q
    /\ AnonymizationService.searchAnonymizationsForUser B parseInt10
         userId query limit
       = Ret (match trimmedQuery with
              | [] => AnonymizationService.RecentRuns (Fin lim)
              | _ :: _ =>
                  AnonymizationService.MatchingRuns
                    ([37%N] ++ AnonymizationService.escapeQuery trimmedQuery
                     ++ [37%N]) (Fin lim)
              end)
    /\ (37%N ∉ AnonymizationService.escapeQuery trimmedQuery)
    /\ (95%N ∉ AnonymizationService.escapeQuery trimmedQuery)
    /\ sublist (AnonymizationService.escapeQuery trimmedQuery) trimmedQuery
    /\ (37%N ∉ trimmedQuery -> 95%N ∉ trimmedQuery ->
        AnonymizationService.escapeQuery trimmedQuery = trimmedQuery).
Proof.
  intros Hu Hs trimmedQuery.
  destruct (clampLimit_returns limit s Hs) as (lim & Hlim & H1 & H50).
  exists lim. split; [exact H1|]. split; [exact H50|]. split; [|split; [|split; [|split]]].
  - unfold AnonymizationService.searchAnonymizationsForUser.
    rewrite Hu, Hlim. cbn [negb bind]. fold trimmedQuery.
    destruct trimmedQuery; reflexivity.
  - intros H. apply escapeQuery_no_wildcard in H as [H _]. contradiction.
  - intros H. apply escapeQuery_no_wildcard in H as [_ H]. contradiction.
  - apply filter_sublist.
  - intros H37 H95. unfold AnonymizationService.escapeQuery.
    apply filter_all. apply Forall_forall. intros c Hc.
    apply negb_true_iff, orb_false_iff. split; apply N.eqb_neq; intros ->; auto.
Qed.
End SavedSearch.

(** * The preview of a saved run *)

Section PreviewLemmas.

Lemma splitAux_not_nil sep s cur inSep : splitAux sep s cur inSep <> [].
Proof.
  revert cur inSep. induction s as [|c s IH]; intros cur inSep; cbn [splitAux].
  - discriminate.
  - destruct (sep c); [destruct inSep; [apply IH|discriminate]|apply IH].
Qed.

Lemma join_cons sep (p : jsstr) (l : list jsstr) :
  l <> [] -> join sep (p :: l) = p ++ sep ++ join sep l.
Proof. destruct l; [contradiction|reflexivity]. Qed.

(** The pieces between runs of white space hold no white space. *)
Lemma splitAux_pieces s cur inSep :
  forallb (fun c => negb (isWhiteSpace c)) cur = true ->
  Forall (fun p => forallb (fun c => negb (isWhiteSpace c)) p = true)
    (splitAux isWhiteSpace s cur inSep).
Proof.
  revert cur inSep. induction s as [|c s IH]; intros cur inSep Hcur; cbn [splitAux].
  - constructor; [|constructor].
    rewrite forallb_forall in Hcur |- *. intros x Hx. apply Hcur, in_rev, Hx.
  - destruct (isWhiteSpace c) eqn:E.
    + destruct inSep; [apply IH; exact Hcur|].
      constructor; [|apply IH; reflexivity].
      rewrite forallb_forall in Hcur |- *. intros x Hx. apply Hcur, in_rev, Hx.
    + apply IH. cbn [forallb]. rewrite E, Hcur. reflexivity.
Qed.

(** What [collapseWhiteSpace] writes, inside a word and behind a run of
    white space: the words that follow, one space between them, and at most
    one space at the end. *)
Lemma collapseWhiteSpace_words s :
  (forall cur, cur <> [] ->
     exists post,
       forallb isWhiteSpace post = true
       /\ rev cur ++ collapseWhiteSpace s false
          = join [32%N] (List.filter nonEmpty (splitAux isWhiteSpace s cur false))
            ++ post)
  /\ (exists post,
        forallb isWhiteSpace post = true
        /\ collapseWhiteSpace s true
           = join [32%N] (List.filter nonEmpty (splitAux isWhiteSpace s [] true))
             ++ post).
Proof.
  induction s as [|c s [IHword IHrun]].
  - split.
    + intros cur Hcur. exists []. split; [reflexivity|].
      cbn [splitAux collapseWhiteSpace List.filter].
      assert (Hne : nonEmpty (rev cur) = true).
      { apply nonEmpty_true. intros H. apply Hcur.
        rewrite <- (rev_involutive cur), H. reflexivity. }
      rewrite Hne. reflexivity.
    + exists []. split; reflexivity.
  - split.
    + intros cur Hcur. cbn [splitAux collapseWhiteSpace].
      destruct (isWhiteSpace c) eqn:E.
      * destruct IHrun as (post & Hpost & Hrun). rewrite Hrun.
        cbn [List.filter].
        assert (Hne : nonEmpty (rev cur) = true).
        { apply nonEmpty_true. intros H. apply Hcur.
          rewrite <- (rev_involutive cur), H. reflexivity. }
        rewrite Hne.
        destruct (List.filter nonEmpty (splitAux isWhiteSpace s [] true))
          as [|w ws] eqn:Ef.
        -- exists (32%N :: post). split; [exact Hpost|].
           cbn [join app]. reflexivity.
        -- exists post. split; [exact Hpost|].
           rewrite (join_cons _ (rev cur) (w :: ws)) by discriminate.
           rewrite <- !app_assoc. reflexivity.
      * assert (Hc : c :: cur <> []) by discriminate.
        destruct (IHword (c :: cur) Hc) as (post & Hpost & Hw).
        exists post. split; [exact Hpost|]. rewrite <- Hw.
        cbn [rev]. rewrite <- app_assoc. reflexivity.
    + cbn [splitAux collapseWhiteSpace]. destruct (isWhiteSpace c) eqn:E.
      * exact IHrun.
      * assert (Hc : [c] <> []) by discriminate.
        destruct (IHword [c] Hc) as (post & Hpost & Hw).
        exists post. split; [exact Hpost|]. exact Hw.
Qed.

(** The collapsed text is the words of the text with one space between
    them, after at most one space and before at most one. *)
Lemma collapseWhiteSpace_wordsOf t :
  exists pre post,
    forallb isWhiteSpace pre = true /\ forallb isWhiteSpace post = true
    /\ collapseWhiteSpace t false = pre ++ join [32%N] (wordsOf t) ++ post.
Proof.
  unfold wordsOf, splitRuns. destruct t as [|c t].
  - exists [], []. repeat split.
  - destruct (collapseWhiteSpace_words t) as [Hword Hrun].
    cbn [splitAux collapseWhiteSpace]. destruct (isWhiteSpace c) eqn:E.
    + destruct Hrun as (post & Hpost & Hrun).
      exists [32%N], post. repeat split; [exact Hpost|].
      rewrite Hrun. reflexivity.
    + assert (Hc : [c] <> []) by discriminate.
      destruct (Hword [c] Hc) as (post & Hpost & Hw).
      exists [], post. repeat split; [exact Hpost|]. exact Hw.
Qed.

Lemma wordsOf_words t :
  Forall (fun w => w <> []
                   /\ forallb (fun c => negb (isWhiteSpace c)) w = true)
    (wordsOf t).
Proof.
  unfold wordsOf, splitRuns. apply Forall_forall. intros w Hw.
  apply list_elem_of_In, filter_In in Hw as [Hin Hne]. split.
  - apply nonEmpty_true. exact Hne.
  - pose proof (splitAux_pieces t [] false eq_refl) as Hall.
    rewrite Forall_forall in Hall. apply Hall, list_elem_of_In, Hin.
Qed.

Lemma trim_strip pre m post :
  forallb isWhiteSpace pre = true -> forallb isWhiteSpace post = true ->
  trim (pre ++ m ++ post) = trim m.
Proof.
  intros Hpre Hpost. unfold trim.
  rewrite (dropWhile_app_all _ pre) by exact Hpre.
  destruct (dropWhile_split isWhiteSpace m) as (pm & Hm & Hpm).
  destruct (dropWhile isWhiteSpace m) as [|x r] eqn:Ed.
  - (* [m] is white space as well *)
    assert (Hall : forallb isWhiteSpace (m ++ post) = true).
    { rewrite forallb_app, Hpost, andb_true_r. rewrite Hm, app_nil_r. exact Hpm. }
    rewrite (proj2 (dropWhile_nil_iff _ _) Hall). reflexivity.
  - assert (Hx : isWhiteSpace x = false) by (eapply dropWhile_head; exact Ed).
    assert (Hd : dropWhile isWhiteSpace (m ++ post) = (x :: r) ++ post).
    { rewrite Hm at 1. rewrite <- app_assoc.
      rewrite (dropWhile_app_all _ pm) by exact Hpm.
      cbn [app dropWhile]. rewrite Hx. reflexivity. }
    rewrite Hd, rev_app_distr.
    rewrite (dropWhile_app_all _ (rev post)); [reflexivity|].
    rewrite forallb_forall in Hpost |- *. intros y Hy.
    apply Hpost, in_rev. exact Hy.
Qed.

Lemma ends_app (s1 s2 : jsstr) :
  s2 <> [] ->
  match rev s2 with x :: _ => isWhiteSpace x = false | [] => True end ->
  match rev (s1 ++ s2) with x :: _ => isWhiteSpace x = false | [] => True end.
Proof.
  intros Hne H. rewrite rev_app_distr.
  destruct (rev s2) as [|x r] eqn:E; [|exact H].
  exfalso. apply Hne. rewrite <- (rev_involutive s2), E. reflexivity.
Qed.

(** Words joined by single spaces have no white space at either end. *)
Lemma join_words_ends (ws : list jsstr) :
  ws <> [] ->
  Forall (fun w => w <> []
                   /\ forallb (fun c => negb (isWhiteSpace c)) w = true) ws ->
  join [32%N] ws <> []
  /\ match join [32%N] ws with x :: _ => isWhiteSpace x = false | [] => True end
  /\ match rev (join [32%N] ws) with
     | x :: _ => isWhiteSpace x = false
     | [] => True
     end.
Proof.
  intros Hne Hall. induction Hall as [|w ws [Hw Hfree] Hall IH]; [contradiction|].
  assert (Hhead : match w with x :: _ => isWhiteSpace x = false | [] => True end).
  { destruct w as [|x r]; [exact I|]. cbn [forallb] in Hfree.
    apply andb_prop in Hfree as [H _]. apply negb_true_iff. exact H. }
  assert (Hlast : match rev w with x :: _ => isWhiteSpace x = false | [] => True end).
  { destruct (rev w) as [|x r] eqn:E; [exact I|].
    rewrite forallb_forall in Hfree. apply negb_true_iff, Hfree, in_rev.
    rewrite E. left. reflexivity. }
  destruct ws as [|w' ws'].
  - cbn [join]. auto.
  - rewrite join_cons by discriminate.
    assert (Hws : w' :: ws' <> []) by discriminate.
    destruct (IH Hws) as (IH1 & IH2 & IH3).
    repeat split.
    + destruct w; [contradiction|discriminate].
    + destruct w as [|x r]; [contradiction|exact Hhead].
    + rewrite app_assoc. apply ends_app; assumption.
Qed.

Lemma splitCharAux_word sep w rest cur :
  sep ∉ w ->
  splitCharAux sep (w ++ rest) cur = splitCharAux sep rest (rev w ++ cur).
Proof.
  revert cur. induction w as [|x w IH]; intros cur Hno; [reflexivity|].
  cbn [app splitCharAux].
  assert (Hx : (x =? sep)%N = false).
  { apply N.eqb_neq. intros ->. apply Hno, list_elem_of_here. }
  rewrite Hx, IH by (intros H; apply Hno, list_elem_of_further, H).
  cbn [rev]. rewrite <- app_assoc. reflexivity.
Qed.

(** Splitting at the separator gives back the pieces that were joined. *)
Lemma splitChar_join sep (ws : list jsstr) :
  ws <> [] -> Forall (fun w => sep ∉ w) ws ->
  splitChar sep (join [sep] ws) = ws.
Proof.
  intros Hne Hall. unfold splitChar.
  induction Hall as [|w ws Hw Hall IH]; [contradiction|].
  destruct ws as [|w' ws'].
  - cbn [join]. rewrite <- (app_nil_r w) at 1.
    rewrite splitCharAux_word by exact Hw. cbn [splitCharAux].
    rewrite app_nil_r, rev_involutive. reflexivity.
  - rewrite join_cons by discriminate.
    rewrite splitCharAux_word by exact Hw. cbn [app splitCharAux].
    rewrite N.eqb_refl, app_nil_r, rev_involutive.
    f_equal. apply IH. discriminate.
Qed.
End PreviewLemmas.

Section Preview.

(** The preview of a saved run is its first ten words with single spaces
    between them, followed by the ellipsis mark of the source when the text
    has ten words or more (ten words exactly included); a text without a
    word, [null] and [undefined] give "(No content)", and any other value
    throws. The words are the maximal runs of code units that are not white
    space. *)
Theorem buildPreview_words (text : jsval) :
  match text with
  | JUndefined | JNull => buildPreview text = Ret (js "(No content)")
  | JStr t =>
      buildPreview text
      = Ret (match wordsOf t with
             | [] => js "(No content)"
             | _ :: _ =>
                 join (js " ") (take 10 (wordsOf t))
                 ++ (if (10 <=? length (wordsOf t))%nat then ELLIPSIS else [])
             end)
      /\ Forall (fun w => w <> []
                          /\ forallb (fun c => negb (isWhiteSpace c)) w = true)
           (wordsOf t)
  | _ => buildPreview text = Throw TypeError
  end.
Proof.
  destruct text as [| |b|n|t|l|f]; try reflexivity.
  split; [|apply wordsOf_words].
  unfold buildPreview. cbn [coalesce nullish]. cbv zeta.
  destruct (collapseWhiteSpace_wordsOf t) as (pre & post & Hpre & Hpost & ->).
  rewrite trim_strip by assumption.
  pose proof (wordsOf_words t) as Hall.
  destruct (wordsOf t) as [|w ws] eqn:Ew.
  - reflexivity.
  - assert (Hws : w :: ws <> []) by discriminate.
    destruct (join_words_ends (w :: ws) Hws Hall) as (Hne & Hh & Hl).
    rewrite (trim_fixed _ Hh Hl).
    destruct (length (join [32%N] (w :: ws))) eqn:El.
    { apply length_zero_iff_nil in El. contradiction. }
    cbn [Nat.eqb].
    rewrite splitChar_join; [|discriminate|].
    + f_equal. change (js " ") with [32%N]. rewrite length_take.
      destruct (Nat.leb_spec 10 (length (w :: ws))) as [Hle|Hlt].
      * rewrite Nat.min_l by exact Hle. reflexivity.
      * rewrite Nat.min_r by lia.
        destruct (Nat.eqb_spec (length (w :: ws)) 10) as [E|_]; [lia|].
        rewrite app_nil_r. reflexivity.
    + eapply Forall_impl; [exact Hall|]. cbn. intros x [_ Hx] Hin.
      rewrite forallb_forall in Hx. apply list_elem_of_In, Hx in Hin.
      discriminate.
Qed.
End Preview.

(** * The validation of the request text *)

Section RequestText.
Context (B : JsBuiltins).

(** [POST /anonymize] answers 400 "Request body must include non-empty
    text." exactly when the [text] of the body is not a string or holds
    white space only, whatever the rest of the body and the replies of the
    two services. *)
Theorem postAnonymize_rejects_blank
    (body : jsval) (analyzer anonymizer : serviceReply) :
  postAnonymize B body analyzer anonymizer
  = Status400 (js "Request body must include non-empty text.")
  <-> match getPropOpt (coalesce body (JObj [])) (js "text") with
      | JStr text => forallb isWhiteSpace text = true
      | _ => True
      end.
Proof.
  unfold postAnonymize.
  destruct (getPropOpt (coalesce body (JObj [])) (js "text")) as [| | | |text| |];
    try (split; [intros _; exact I|reflexivity]).
  destruct (length (trim text) =? 0)%nat eqn:E.
  - apply Nat.eqb_eq, length_zero_iff_nil, trim_nil_iff in E.
    split; [intros _; exact E|reflexivity].
  - split.
    + intros H. exfalso.
      destruct analyzer as [|message|analyzerResults]; try discriminate H.
      destruct (filterAnalyzerResults B analyzerResults text _ _ _ _);
        try discriminate H.
      destruct anonymizer as [|message|anonymizerResult]; try discriminate H.
      destruct (getProp anonymizerResult (js "text")); try discriminate H.
      destruct (getProp anonymizerResult (js "anonymized_text"));
        try discriminate H.
      destruct (getProp anonymizerResult (js "items")); discriminate H.
    + intros H. apply trim_nil_iff in H. rewrite H in E. discriminate.
Qed.
End RequestText.

(** * The toggles of the findings *)

Section ToggleClaims.
Context (B : JsBuiltins).

Lemma fieldOr_setField k v fields k' :
  fieldOr k' (setField k v fields) = if jsstr_eqb k' k then v else fieldOr k' fields.
Proof.
  unfold fieldOr. rewrite lookupField_setField.
  destruct (jsstr_eqb k' k); reflexivity.
Qed.

(** In the object made of the ids, each id reads [true]. *)
Lemma fold_setField_true ids acc id :
  fieldOr id (fold_left (fun toggles i => setField i (JBool true) toggles) ids acc)
  = if bool_decide (id ∈ ids) then JBool true else fieldOr id acc.
Proof.
  revert acc. induction ids as [|x ids IH]; intros acc; cbn [fold_left].
  - rewrite bool_decide_eq_false_2 by apply not_elem_of_nil. reflexivity.
  - rewrite IH. destruct (decide (id ∈ ids)) as [Hin|Hni].
    + rewrite !bool_decide_eq_true_2; [reflexivity| |exact Hin].
      apply list_elem_of_further. exact Hin.
    + rewrite (bool_decide_eq_false_2 (id ∈ ids)) by exact Hni.
      rewrite fieldOr_setField. unfold jsstr_eqb.
      destruct (decide (id = x)) as [->|Hne].
      * rewrite !bool_decide_eq_true_2; [reflexivity| |reflexivity].
        apply list_elem_of_here.
      * rewrite (bool_decide_eq_false_2 (id = x)) by exact Hne.
        rewrite bool_decide_eq_false_2; [reflexivity|].
        rewrite elem_of_cons. tauto.
Qed.

Lemma entityIdsFrom_returns k entities :
  Forall (fun e => exists t, toStringJS B (entityType e) = Ret t) entities ->
  exists ids,
    entityIdsFrom B k entities = Ret ids
    /\ forall j e id, entities !! j = Some e ->
                      buildEntityId B e (k + j) = Ret id -> id ∈ ids.
Proof.
  intros Hall. revert k. induction Hall as [|e rest He Hall IH]; intros k.
  - exists []. split; [reflexivity|]. intros j e id Hj. inversion Hj.
  - destruct (buildEntityId_returns B e k He) as [id0 Hid0].
    destruct (IH (S k)) as (ids & Hids & Hin).
    exists (id0 :: ids). cbn [entityIdsFrom]. rewrite Hid0, Hids. cbn [bind].
    split; [reflexivity|]. intros [|j] e' id Hj Hb.
    + cbn in Hj. injection Hj as <-. rewrite Nat.add_0_r in Hb.
      rewrite Hid0 in Hb. injection Hb as <-. apply list_elem_of_here.
    + cbn in Hj. apply list_elem_of_further. eapply Hin; [exact Hj|].
      replace (S k + j) with (k + S j) by lia. exact Hb.
Qed.

(** The loop over the entities, for toggles in which the id of the
    entity at [i] reads [false] and the other ids read [true]. *)
Lemma activeEntitiesFrom_one_off toggles k entities (i : option nat) :
  Forall (fun e => exists t, toStringJS B (entityType e) = Ret t) entities ->
  (forall j e id, entities !! j = Some e ->
                  buildEntityId B e (k + j) = Ret id ->
                  fieldOr id toggles = JBool (negb (bool_decide (i = Some j)))) ->
  activeEntitiesFrom B toggles k entities
  = Ret (List.map spreadCopy
           (match i with Some i => delete i entities | None => entities end)).
Proof.
  intros Hall. revert k i. induction Hall as [|e rest He Hall IH]; intros k i Hread.
  - destruct i; reflexivity.
  - destruct (buildEntityId_returns B e k He) as [id0 Hid0].
    cbn [activeEntitiesFrom]. rewrite Hid0. cbn [bind].
    assert (H0 : fieldOr id0 toggles = JBool (negb (bool_decide (i = Some 0)))).
    { apply (Hread 0 e id0); [reflexivity|]. rewrite Nat.add_0_r. exact Hid0. }
    rewrite H0.
    destruct i as [[|i]|].
    + (* the entity at the head is switched off *)
      rewrite (IH (S k) None).
      * cbn [bind]. reflexivity.
      * intros j e' id Hj Hb.
        rewrite (Hread (S j) e' id); [|exact Hj|].
        -- rewrite !bool_decide_eq_false_2 by discriminate. reflexivity.
        -- replace (k + S j) with (S k + j) by lia. exact Hb.
    + rewrite (IH (S k) (Some i)).
      * cbn [bind]. rewrite bool_decide_eq_false_2 by discriminate. reflexivity.
      * intros j e' id Hj Hb.
        rewrite (Hread (S j) e' id); [|exact Hj|].
        -- do 2 f_equal. apply bool_decide_ext. split; intros [= ->]; reflexivity.
        -- replace (k + S j) with (S k + j) by lia. exact Hb.
    + rewrite (IH (S k) None).
      * cbn [bind]. reflexivity.
      * intros j e' id Hj Hb.
        rewrite (Hread (S j) e' id); [|exact Hj|].
        -- rewrite !bool_decide_eq_false_2 by discriminate. reflexivity.
        -- replace (k + S j) with (S k + j) by lia. exact Hb.
Qed.

(** Switching a finding off takes its entity, and no other, out of the
    entities that are redacted; switching it on again brings it back. For
    an array of entities whose types convert to strings: the toggles made
    for the array keep every entity; after [handleFindingToggle] with the id
    of the entity at index [i] and [false], the active entities are the
    copies of all entities but that one, in their order. *)
Theorem activeEntities_toggle (entities : list jsval) (i : nat) (e : jsval) :
  (Z.of_nat (length entities) < 2 ^ 53)%Z ->
  Forall (fun e => exists t, toStringJS B (entityType e) = Ret t) entities ->
  entities !! i = Some e ->
  exists toggles id,
    initialToggles B entities = Ret toggles
    /\ buildEntityId B e i = Ret id
    /\ activeEntities B toggles entities = Ret (List.map spreadCopy entities)
    /\ activeEntities B (handleFindingToggle toggles id false) entities
       = Ret (List.map spreadCopy (delete i entities))
    /\ activeEntities B
         (handleFindingToggle (handleFindingToggle toggles id false) id true)
         entities
       = Ret (List.map spreadCopy entities).
Proof.
  intros Hlen Hall Hi.
  destruct (entityIdsFrom_returns 0 entities Hall) as (ids & Hids & Hin).
  assert (He : exists t, toStringJS B (entityType e) = Ret t).
  { rewrite Forall_forall in Hall. apply Hall.
    eapply list_elem_of_lookup_2. exact Hi. }
  destruct (buildEntityId_returns B e i He) as [id Hid].
  unfold initialToggles. rewrite Hids. cbn [bind].
  set (toggles := fold_left _ ids []).
  exists toggles, id. split; [reflexivity|]. split; [exact Hid|].
  assert (Htrue : forall j e' id',
            entities !! j = Some e' -> buildEntityId B e' (0 + j) = Ret id' ->
            fieldOr id' toggles = JBool true).
  { intros j e' id' Hj Hb. unfold toggles. rewrite fold_setField_true.
    rewrite bool_decide_eq_true_2; [reflexivity|]. eapply Hin; eassumption. }
  assert (Hsame : forall j e' id',
            entities !! j = Some e' -> buildEntityId B e' (0 + j) = Ret id' ->
            id' = id <-> i = j).
  { intros j e' id' Hj Hb. cbn [Nat.add] in Hb. split.
    - intros ->. eapply (buildEntityId_index_inj B e e' i j);
        [| |exact Hid|exact Hb].
      + apply lookup_lt_Some in Hi. lia.
      + apply lookup_lt_Some in Hj. lia.
    - intros <-. rewrite Hi in Hj. injection Hj as <-. congruence. }
  unfold activeEntities, handleFindingToggle. split; [|split].
  - apply (activeEntitiesFrom_one_off toggles 0 entities None Hall).
    intros j e' id' Hj Hb. rewrite (Htrue j e' id' Hj Hb).
    rewrite bool_decide_eq_false_2 by discriminate. reflexivity.
  - apply (activeEntitiesFrom_one_off _ 0 entities (Some i) Hall).
    intros j e' id' Hj Hb. rewrite fieldOr_setField. unfold jsstr_eqb.
    destruct (decide (id' = id)) as [E|Hne].
    + rewrite (bool_decide_eq_true_2 _ E).
      rewrite bool_decide_eq_true_2; [reflexivity|].
      f_equal. apply (Hsame j e' id' Hj Hb). exact E.
    + rewrite (bool_decide_eq_false_2 _ Hne), (Htrue j e' id' Hj Hb).
      rewrite bool_decide_eq_false_2; [reflexivity|].
      intros [= ->]. apply Hne. apply (Hsame j e' id' Hj Hb). reflexivity.
  - apply (activeEntitiesFrom_one_off _ 0 entities None Hall).
    intros j e' id' Hj Hb. rewrite !fieldOr_setField. unfold jsstr_eqb.
    rewrite (bool_decide_eq_false_2 (None = Some j)) by discriminate.
    destruct (bool_decide (id' = id)); [reflexivity|].
    exact (Htrue j e' id' Hj Hb).
Qed.
End ToggleClaims.

(** The toggles of "Ann Smith" and "Ann": with the first one off, "Ann"
    alone stays active. *)
Lemma activeEntities_toggle_witness :
  (Z.of_nat (length [annSmith; ann]) < 2 ^ 53)%Z
  /\ Forall (fun e => exists t, toStringJS asciiBuiltins (entityType e) = Ret t)
       [annSmith; ann]
  /\ [annSmith; ann] !! 0 = Some annSmith
  /\ exists toggles id,
       initialToggles asciiBuiltins [annSmith; ann] = Ret toggles
       /\ buildEntityId asciiBuiltins annSmith 0 = Ret id
       /\ activeEntities asciiBuiltins toggles [annSmith; ann]
          = Ret (List.map spreadCopy [annSmith; ann])
       /\ activeEntities asciiBuiltins (handleFindingToggle toggles id false)
            [annSmith; ann]
          = Ret (List.map spreadCopy (delete 0 [annSmith; ann]))
       /\ activeEntities asciiBuiltins
            (handleFindingToggle (handleFindingToggle toggles id false) id true)
            [annSmith; ann]
          = Ret (List.map spreadCopy [annSmith; ann]).
Proof.
  assert (H1 : (Z.of_nat (length [annSmith; ann]) < 2 ^ 53)%Z) by reflexivity.
  assert (H2 : Forall (fun e => exists t,
                         toStringJS asciiBuiltins (entityType e) = Ret t)
                 [annSmith; ann]).
  { repeat constructor; eexists; reflexivity. }
  assert (H3 : [annSmith; ann] !! 0 = Some annSmith) by reflexivity.
  split; [exact H1|]. split; [exact H2|]. split; [exact H3|].
  exact (activeEntities_toggle asciiBuiltins [annSmith; ann] 0 annSmith H1 H2 H3).
Defined.

(** * The text of a synthetic entity *)

Section ScannerText.
Context (B : JsBuiltins).

(** When lower-casing works code unit by code unit on the source text (as
    it does on ASCII text), every entity of the scanner lies inside the
    source text, its [text] is the part of the source between its offsets,
    and that part, lower-cased, is a term of the deny set. *)
Theorem findDenylistEntities_text (f : N -> N) (sourceText : jsstr)
    (denylistSet : jsset) (d : jsval) :
  toLowerCase B sourceText = List.map f sourceText ->
  d ∈ findDenylistEntities B (JStr sourceText) denylistSet ->
  exists term p,
    term ∈ denylistSet /\ term <> []
    /\ p + length term <= length sourceText
    /\ d = denylistEntity sourceText p (p + length term)
    /\ getPropOpt d (js "text") = JStr (sliceNat sourceText p (p + length term))
    /\ List.map f (sliceNat sourceText p (p + length term)) = term.
Proof.
  intros Hf Hd.
  destruct (findDenylistEntities_elem B _ _ _ Hd)
    as (term & p & Hin & Hne & Hocc & Hb & ->).
  exists term, p. repeat split; try assumption.
  - rewrite Hf, length_map in Hb. exact Hb.
  - eapply occursAt_lowered_text; eassumption.
Qed.
End ScannerText.

(** * Examples *)

Lemma mergeEntities_fixed_point_witness :
  mergeEntities asciiBuiltins [ann; JNull; ann] [annSmith] = Ret [ann; annSmith]
  /\ mergeEntities asciiBuiltins [ann; annSmith] [ann; JNull; ann]
     = Ret [ann; annSmith].
Proof.
  assert (H : mergeEntities asciiBuiltins [ann; JNull; ann] [annSmith]
              = Ret [ann; annSmith]) by (vm_compute; reflexivity).
  split; [exact H|].
  exact (proj1 (proj2 (mergeEntities_fixed_point asciiBuiltins _ _ _ H))).
Defined.

(** The term "aa" in "aaa": the occurrence at 1 starts inside the span
    reported at 0. *)
Lemma findDenylistEntities_cover_witness :
  let sourceText := js "aaa" in
  let term := js "aa" in
  term ∈ [term] /\ term <> []
  /\ occursAt (toLowerCase asciiBuiltins sourceText) term 1
  /\ exists p,
       p <= 1 < p + length term
       /\ occursAt (toLowerCase asciiBuiltins sourceText) term p
       /\ denylistEntity sourceText p (p + length term)
          ∈ findDenylistEntities asciiBuiltins (JStr sourceText) [term].
Proof.
  intros sourceText term.
  assert (H1 : term ∈ [term]) by apply list_elem_of_here.
  assert (H2 : term <> []) by discriminate.
  assert (H3 : occursAt (toLowerCase asciiBuiltins sourceText) term 1)
    by reflexivity.
  split; [exact H1|]. split; [exact H2|]. split; [exact H3|].
  exact (findDenylistEntities_cover asciiBuiltins sourceText [term] term 1 H1 H2 H3).
Defined.

Lemma findDenylistEntities_text_witness :
  let sourceText := js "Call Jan" in
  let d := denylistEntity sourceText 5 8 in
  toLowerCase asciiBuiltins sourceText
  = List.map (fun c => if ((65 <=? c) && (c <=? 90))%N then (c + 32)%N else c)
      sourceText
  /\ d ∈ findDenylistEntities asciiBuiltins (JStr sourceText) [js "jan"]
  /\ exists term p,
       term ∈ [js "jan"] /\ term <> []
       /\ p + length term <= length sourceText
       /\ d = denylistEntity sourceText p (p + length term)
       /\ getPropOpt d (js "text")
          = JStr (sliceNat sourceText p (p + length term))
       /\ List.map (fun c => if ((65 <=? c) && (c <=? 90))%N then (c + 32)%N else c)
            (sliceNat sourceText p (p + length term)) = term.
Proof.
  intros sourceText d.
  assert (H1 : toLowerCase asciiBuiltins sourceText
               = List.map (fun c => if ((65 <=? c) && (c <=? 90))%N
                                    then (c + 32)%N else c) sourceText)
    by reflexivity.
  assert (H2 : d ∈ findDenylistEntities asciiBuiltins (JStr sourceText) [js "jan"]).
  { vm_compute. apply list_elem_of_here. }
  split; [exact H1|]. split; [exact H2|].
  exact (findDenylistEntities_text asciiBuiltins _ sourceText [js "jan"] d H1 H2).
Defined.

(** A person found by the analyzer below the threshold, and the deny term
    "jan": the match of the scanner is returned alone. *)
Lemma filterAnalyzerResults_denylist_floor_witness :
  let sourceText := js "Call Jan Jansen" in
  let person := JObj [ (js "entity_type", JStr (js "PERSON"));
                       (js "start", JNum (ofNat 5));
                       (js "end", JNum (ofNat 15));
                       (js "score", JNum (Fin (4 # 10))) ] in
  Forall (fun e => wellFormed e = true -> hasKey asciiBuiltins e = true) [person]
  /\ (Z.of_nat (length (toLowerCase asciiBuiltins sourceText)) < 2 ^ 53)%Z
  /\ exists output,
       filterAnalyzerResults asciiBuiltins (JArr [person]) sourceText None
         (Fin (1 # 2)) [] [js "jan"] = Ret output
       /\ forall d,
            d ∈ findDenylistEntities asciiBuiltins (JStr sourceText) [js "jan"] ->
            exists e, e ∈ output /\ keyStr asciiBuiltins e = keyStr asciiBuiltins d
                      /\ (e = d \/ e ∈ [person]).
Proof.
  intros sourceText person.
  assert (H1 : Forall (fun e => wellFormed e = true -> hasKey asciiBuiltins e = true)
                 [person]).
  { constructor; [intros _; reflexivity|constructor]. }
  assert (H2 : (Z.of_nat (length (toLowerCase asciiBuiltins sourceText)) < 2 ^ 53)%Z)
    by reflexivity.
  split; [exact H1|]. split; [exact H2|].
  exact (filterAnalyzerResults_denylist_floor asciiBuiltins [person] sourceText
           None (Fin (1 # 2)) [] [js "jan"] H1 H2).
Defined.

Lemma filterAnalyzerResults_sound_witness :
  let sourceText := js "Call Jan Jansen" in
  let person := JObj [ (js "entity_type", JStr (js "PERSON"));
                       (js "start", JNum (ofNat 5));
                       (js "end", JNum (ofNat 15));
                       (js "score", JNum (Fin (9 # 10))) ] in
  let output := [person; denylistEntity sourceText 5 8;
                 denylistEntity sourceText 9 12] in
  filterAnalyzerResults asciiBuiltins (JArr [person; JNull]) sourceText None
    (Fin (1 # 2)) [] [js "jan"] = Ret output
  /\ exists fromAnalyzer fromScanner,
       output = fromAnalyzer ++ fromScanner
       /\ sublist fromAnalyzer [person; JNull]
       /\ Forall (fun e =>
                    entityTypeKeeps asciiBuiltins None e = Ret true
                    /\ thresholdKeeps asciiBuiltins (Fin (1 # 2)) e = Ret true
                    /\ shouldIncludeEntity asciiBuiltins e sourceText [] [js "jan"]
                       = Ret true) fromAnalyzer
       /\ sublist fromScanner
            (findDenylistEntities asciiBuiltins (JStr sourceText) [js "jan"])
       /\ NoDup (List.map (keyStr asciiBuiltins) output).
Proof.
  intros sourceText person output.
  assert (H : filterAnalyzerResults asciiBuiltins (JArr [person; JNull]) sourceText
                None (Fin (1 # 2)) [] [js "jan"] = Ret output)
    by (vm_compute; reflexivity).
  split; [exact H|].
  exact (filterAnalyzerResults_sound asciiBuiltins [person; JNull] sourceText None
           (Fin (1 # 2)) [] [js "jan"] output H).
Defined.

(** A person scored 0.7 over "Jan Jansen": returned at the threshold 0.5
    with no allow list, dropped at 0.9 with "jan jansen" allowed. *)
Lemma filterAnalyzerResults_monotone_witness :
  let sourceText := js "Call Jan Jansen" in
  let person := JObj [ (js "entity_type", JStr (js "PERSON"));
                       (js "start", JNum (ofNat 5));
                       (js "end", JNum (ofNat 15));
                       (js "score", JNum (Fin (7 # 10))) ] in
  jsLe (Fin (1 # 2)) (Fin (9 # 10)) = true
  /\ Forall (fun e => wellFormed e = true -> hasKey asciiBuiltins e = true) [person]
  /\ exists out1 out2,
       filterAnalyzerResults asciiBuiltins (JArr [person]) sourceText None
         (Fin (1 # 2)) [] [js "jan"] = Ret out1
       /\ filterAnalyzerResults asciiBuiltins (JArr [person]) sourceText
            (Some [js "PERSON"]) (Fin (9 # 10)) [js "jan jansen"] [] = Ret out2
       /\ forall e, e ∈ out2 ->
            exists e', e' ∈ out1 /\ keyStr asciiBuiltins e' = keyStr asciiBuiltins e.
Proof.
  intros sourceText person.
  assert (H1 : jsLe (Fin (1 # 2)) (Fin (9 # 10)) = true) by reflexivity.
  assert (H2 : forall x : jsstr, x ∈ @nil jsstr -> x ∈ [js "jan jansen"])
    by (intros x Hx; inversion Hx).
  assert (H3 : forall x : jsstr, x ∈ @nil jsstr -> x ∈ [js "jan"])
    by (intros x Hx; inversion Hx).
  assert (H4 : Forall (fun e => wellFormed e = true -> hasKey asciiBuiltins e = true)
                 [person]).
  { constructor; [intros _; reflexivity|constructor]. }
  split; [exact H1|]. split; [exact H4|].
  exact (filterAnalyzerResults_monotone asciiBuiltins [person] sourceText
           None (Some [js "PERSON"]) (Fin (1 # 2)) (Fin (9 # 10))
           [] [js "jan jansen"] [js "jan"] [] H1 H2 H3 I H4).
Defined.

(** "Jan Jansen,Acme" and ["Jan Jansen"; "Acme"] give the same terms. *)
Lemma parseListInput_join_witness :
  normalizeListTerm asciiBuiltins (JStr []) = []
  /\ TERM_SPLIT 44 = true
  /\ parseListInput asciiBuiltins (JStr (js "Jan Jansen,Acme"))
     = [js "jan jansen"; js "acme"]
  /\ parseListInput asciiBuiltins (JArr [JStr (js "Jan Jansen"); JStr (js "Acme")])
     = [js "jan jansen"; js "acme"].
Proof.
  assert (H1 : normalizeListTerm asciiBuiltins (JStr []) = []) by reflexivity.
  assert (H2 : TERM_SPLIT 44 = true) by reflexivity.
  split; [exact H1|]. split; [exact H2|].
  pose proof (proj1 (parseListInput_join asciiBuiltins 44
                       [js "Jan Jansen"; js "Acme"] [] [] H1 H2)) as H.
  cbn [List.map] in H.
  split; [vm_compute; reflexivity|].
  rewrite <- H. vm_compute. reflexivity.
Defined.

Lemma normalizeEntityTypes_as_route_witness :
  toUpperCase asciiBuiltins [] = []
  /\ PresetService.normalizeEntityTypes asciiBuiltins (JStr (js "person, email person"))
     = [js "PERSON"; js "EMAIL"].
Proof.
  assert (H : toUpperCase asciiBuiltins [] = []) by reflexivity.
  split; [exact H|].
  rewrite (proj1 (normalizeEntityTypes_as_route asciiBuiltins
                    (JStr (js "person, email person")) H)).
  vm_compute. reflexivity.
Defined.

Lemma parseRequestedEntityTypes_join_witness :
  toUpperCase asciiBuiltins [] = []
  /\ ENTITY_TYPE_SPLIT 44 = true
  /\ parseRequestedEntityTypes asciiBuiltins (JStr (js "person,email"))
     = [js "PERSON"; js "EMAIL"].
Proof.
  assert (H1 : toUpperCase asciiBuiltins [] = []) by reflexivity.
  assert (H2 : ENTITY_TYPE_SPLIT 44 = true) by reflexivity.
  split; [exact H1|]. split; [exact H2|].
  change (js "person,email") with (join [44%N] [js "person"; js "email"]).
  rewrite (parseRequestedEntityTypes_join asciiBuiltins 44
             [js "person"; js "email"] H1 H2).
  vm_compute. reflexivity.
Defined.

Lemma buildResultSignature_other_property_witness :
  (js "note" ∉ signatureNames)
  /\ buildResultSignature asciiBuiltins
       (JObj [ (js "sourceText", JStr (js "a")); (js "note", JStr (js "x")) ])
     = buildResultSignature asciiBuiltins (JObj [ (js "sourceText", JStr (js "a")) ]).
Proof.
  assert (H : js "note" ∉ signatureNames).
  { intros H. apply list_elem_of_In in H. vm_compute in H.
    intuition discriminate. }
  split; [exact H|].
  exact (buildResultSignature_other_property asciiBuiltins
           [ (js "sourceText", JStr (js "a")) ] [] (js "note") (JStr (js "x")) H).
Defined.

(** A payload with [threshold: null] has the signature of the payload
    without a threshold. *)
Lemma buildResultSignature_defaults_witness :
  let fields := [ (js "sourceText", JStr (js "a")) ] in
  (js "threshold", JNum (Fin DEFAULT_ACCEPTANCE_THRESHOLD_UI), AsThreshold)
  ∈ signatureProperties
  /\ lookupField (js "threshold") fields = None
  /\ buildResultSignature asciiBuiltins (JObj (fields ++ [(js "threshold", JNull)]))
     = buildResultSignature asciiBuiltins (JObj fields).
Proof.
  intros fields.
  assert (H1 : (js "threshold", JNum (Fin DEFAULT_ACCEPTANCE_THRESHOLD_UI), AsThreshold)
               ∈ signatureProperties).
  { apply list_elem_of_In. do 6 right. left. reflexivity. }
  assert (H2 : lookupField (js "threshold") fields = None) by reflexivity.
  split; [exact H1|]. split; [exact H2|].
  apply (buildResultSignature_defaults asciiBuiltins fields (js "threshold")
           (JNum (Fin DEFAULT_ACCEPTANCE_THRESHOLD_UI)) JNull AsThreshold H1 H2).
  right. left. repeat split.
Defined.

(** "Ann" in the markup of "Ann Smith met Ann". *)
Lemma applyAnonymizationToHtml_single_witness :
  let html := js "<p>Ann Smith met Ann</p>" in
  let plainText := js "Ann Smith met Ann" in
  let fields := [ (js "entity_type", JStr (js "PERSON"));
                  (js "start", JNum (ofNat 0)); (js "end", JNum (ofNat 3)) ] in
  let foundText := slice plainText (Fin (inject_Z 0)) (Fin (inject_Z 3)) in
  (inject_Z 0 < inject_Z 3)%Q
  /\ foundText <> []
  /\ (36%N ∉ js "PERSON")
  /\ exists starts,
       GreedyMatches html foundText 0 starts
       /\ applyAnonymizationToHtml asciiBuiltins (JStr html) (JStr plainText) JNull
            (Some [JObj fields]) None
          = Ret (spliceMatches html (length foundText)
                   (js "&lt;" ++ js "PERSON" ++ js "&gt;") 0 starts).
Proof.
  intros html plainText fields foundText.
  assert (H1 : (inject_Z 0 < inject_Z 3)%Q) by reflexivity.
  assert (H2 : foundText <> [])
    by (intros H; vm_compute in H; discriminate).
  assert (H3 : 36%N ∉ js "PERSON").
  { intros H. apply list_elem_of_In in H. vm_compute in H. intuition discriminate. }
  assert (H4 : js "PERSON" <> []) by discriminate.
  split; [exact H1|]. split; [exact H2|]. split; [exact H3|].
  exact (applyAnonymizationToHtml_single asciiBuiltins html plainText JNull fields
           (inject_Z 0) (inject_Z 3) (JStr (js "PERSON")) None (js "PERSON")
           eq_refl eq_refl H1 H2 eq_refl eq_refl H4 H3).
Defined.

Lemma applyAnonymizationToHtml_order_irrelevant_witness :
  [annSmith; ann] ≡ₚ [ann; annSmith]
  /\ NoDup (List.map foundTextLength (assignFoundTexts annText [annSmith; ann]))
  /\ applyAnonymizationToHtml asciiBuiltins (JStr (js "<p>Ann Smith met Ann</p>"))
       annText JNull (Some [annSmith; ann]) None
     = applyAnonymizationToHtml asciiBuiltins (JStr (js "<p>Ann Smith met Ann</p>"))
         annText JNull (Some [ann; annSmith]) None.
Proof.
  assert (H1 : [annSmith; ann] ≡ₚ [ann; annSmith]) by apply Permutation_swap.
  assert (H2 : NoDup (List.map foundTextLength
                        (assignFoundTexts annText [annSmith; ann]))).
  { change (NoDup [9; 3]).
    repeat (constructor;
            [rewrite ?elem_of_cons, ?elem_of_nil; intuition discriminate|]).
    constructor. }
  split; [exact H1|]. split; [exact H2|].
  exact (applyAnonymizationToHtml_order_irrelevant asciiBuiltins _ annText JNull
           _ _ None H1 H2).
Defined.

Lemma buildEntityId_distinct_witness :
  (Z.of_nat 0 < 2 ^ 53)%Z /\ (Z.of_nat 1 < 2 ^ 53)%Z /\ 0 <> 1
  /\ buildEntityId asciiBuiltins ann 0 = Ret (js "PERSON-0-0")
  /\ buildEntityId asciiBuiltins ann 1 = Ret (js "PERSON-0-1")
  /\ js "PERSON-0-0" <> js "PERSON-0-1".
Proof.
  assert (H1 : (Z.of_nat 0 < 2 ^ 53)%Z) by reflexivity.
  assert (H2 : (Z.of_nat 1 < 2 ^ 53)%Z) by reflexivity.
  assert (H3 : 0 <> 1) by discriminate.
  assert (E1 : buildEntityId asciiBuiltins ann 0 = Ret (js "PERSON-0-0"))
    by (vm_compute; reflexivity).
  assert (E2 : buildEntityId asciiBuiltins ann 1 = Ret (js "PERSON-0-1"))
    by (vm_compute; reflexivity).
  repeat (split; [assumption|]).
  exact (proj1 (buildEntityId_distinct asciiBuiltins ann ann 0 1 H1 H2 H3) _ _ E1 E2).
Defined.

(** A limit of 70, with a reader of decimal numerals for [parseInt]. *)
Lemma clampLimit_range_witness :
  toStringJS asciiBuiltins (JNum (ofNat 70)) = Ret (js "70")
  /\ exists q,
       AnonymizationService.clampLimit asciiBuiltins asciiParseNumber
         (JNum (ofNat 70)) = Ret (Fin q)
       /\ (1 <= q)%Q /\ (q <= 50)%Q
       /\ match asciiParseNumber (js "70") with
          | Fin n =>
              if Qle_bool n 0 then q = 10%Q
              else if Qle_bool n 1 then q = 1%Q
              else if Qle_bool n 50 then q = n
              else q = 50%Q
          | _ => q = 10%Q
          end.
Proof.
  assert (H : toStringJS asciiBuiltins (JNum (ofNat 70)) = Ret (js "70"))
    by (vm_compute; reflexivity).
  split; [exact H|].
  exact (clampLimit_range asciiBuiltins asciiParseNumber (JNum (ofNat 70))
           (js "70") H).
Defined.

(** The query " 50%_off " of user 1, with no limit. *)
Lemma searchAnonymizationsForUser_pattern_witness :
  let trimmedQuery := trim (js " 50%_off ") in
  truthy (JNum (ofNat 1)) = true
  /\ toStringJS asciiBuiltins JUndefined = Ret (js "undefined")
  /\ AnonymizationService.escapeQuery trimmedQuery = js "50off"
  /\ exists lim,
       (1 <= lim)%Q /\ (lim <= 50)%Q
       /\ AnonymizationService.searchAnonymizationsForUser asciiBuiltins
            asciiParseNumber (JNum (ofNat 1)) (JStr (js " 50%_off ")) JUndefined
          = Ret (match trimmedQuery with
                 | [] => AnonymizationService.RecentRuns (Fin lim)
                 | _ :: _ =>
                     AnonymizationService.MatchingRuns
                       ([37%N] ++ AnonymizationService.escapeQuery trimmedQuery
                        ++ [37%N]) (Fin lim)
                 end)
       /\ (37%N ∉ AnonymizationService.escapeQuery trimmedQuery)
       /\ (95%N ∉ AnonymizationService.escapeQuery trimmedQuery)
       /\ sublist (AnonymizationService.escapeQuery trimmedQuery) trimmedQuery
       /\ (37%N ∉ trimmedQuery -> 95%N ∉ trimmedQuery ->
           AnonymizationService.escapeQuery trimmedQuery = trimmedQuery).
Proof.
  intros trimmedQuery.
  assert (H1 : truthy (JNum (ofNat 1)) = true) by reflexivity.
  assert (H2 : toStringJS asciiBuiltins JUndefined = Ret (js "undefined"))
    by reflexivity.
  split; [exact H1|]. split; [exact H2|]. split; [vm_compute; reflexivity|].
  exact (searchAnonymizationsForUser_pattern asciiBuiltins asciiParseNumber
           (JNum (ofNat 1)) (JStr (js " 50%_off ")) JUndefined
           (js "undefined") H1 H2).
Defined.

(** * The answer of [POST /anonymize] *)

Section Answer.
Context (B : JsBuiltins).

(** What a run of the merger that returns has gone through: its output
    holds no key twice, and a representative of the key of every
    well-formed candidate of its second list. *)
Lemma mergeEntities_represents baseEntities supplementalEntities output :
  mergeEntities B baseEntities supplementalEntities = Ret output ->
  NoDup (List.map (keyStr B) output)
  /\ forall d, d ∈ supplementalEntities -> wellFormed d = true ->
       exists e, e ∈ output /\ keyStr B e = keyStr B d.
Proof.
  unfold mergeEntities.
  destruct (forEachM (pushIfUnique B) baseEntities ([], []))
    as [[seen1 out1]|err] eqn:Hrun1; cbn [bind]; [|discriminate].
  destruct (forEachM (pushIfUnique B) supplementalEntities (seen1, out1))
    as [[seen2 out2]|err] eqn:Hrun2; cbn [bind snd]; [|discriminate].
  intros [= <-].
  destruct (forEachM_pushIfUnique_state B _ _ _ _ _ Hrun1 (mergeState_nil B))
    as [Hst1 _].
  destruct (forEachM_pushIfUnique_state B _ _ _ _ _ Hrun2 Hst1)
    as [(Hseen & Hnd & _) _].
  split; [rewrite <- Hseen; exact Hnd|].
  intros d Hd Hwf.
  destruct (forEachM_pushIfUnique_seen B _ _ _ _ _ Hrun2) as [_ Hall].
  destruct (Hall d Hd Hwf) as (k & Ek & Hin).
  rewrite Hseen in Hin.
  apply list_elem_of_In, in_map_iff in Hin as (e & Hke & He).
  exists e. split; [apply list_elem_of_In; exact He|].
  rewrite Hke. unfold keyStr. rewrite Ek. reflexivity.
Qed.

(** The pipeline ends in the merger, whatever the analyzer replied: a
    reply that is not an array counts as no record at all. *)
Lemma filterAnalyzerResults_merges analyzerResults sourceText
    entityTypeFilterSet acceptanceThreshold allowlistSet denylistSet :
  exists kept,
    filterAnalyzerResults B analyzerResults sourceText entityTypeFilterSet
      acceptanceThreshold allowlistSet denylistSet
    = mergeEntities B kept
        (findDenylistEntities B (JStr sourceText) denylistSet).
Proof.
  destruct analyzerResults as [| | | | |results|];
    try (exists []; reflexivity).
  eexists. apply filterAnalyzerResults_stages.
Qed.

(** An answer 200 redacts every occurrence of every deny term of the
    request. When [POST /anonymize] answers 200, the [text] of the body is
    a string, no two entities of the answer have the same key, all of them
    are well formed, and every occurrence of a term of the body's
    [denylist] in the lower-cased text, overlapping ones included, starts
    inside a span [p, p + length term) of which the answer holds an entity
    with the key of the deny-list entity. This holds whatever the analyzer
    replied, and whatever the threshold, the requested entity types and the
    allow list of the body. *)
Theorem postAnonymize_covers_denylist
    (body : jsval) (analyzer anonymizer : serviceReply)
    (anonymizedText items : jsval) (entities : list jsval) :
  postAnonymize B body analyzer anonymizer
  = Status200 anonymizedText items entities ->
  exists text,
    getPropOpt (coalesce body (JObj [])) (js "text") = JStr text
    /\ NoDup (List.map (keyStr B) entities)
    /\ Forall (fun e => wellFormed e = true) entities
    /\ forall term i,
         term ∈ parseListInput B (getPropOpt body (js "denylist")) ->
         occursAt (toLowerCase B text) term i ->
         exists e p,
           e ∈ entities
           /\ p <= i < p + length term
           /\ occursAt (toLowerCase B text) term p
           /\ keyStr B e = keyStr B (denylistEntity text p (p + length term)).
Proof.
  unfold postAnonymize.
  destruct (getPropOpt (coalesce body (JObj [])) (js "text"))
    as [| | | |text| |]; try discriminate.
  destruct (length (trim text) =? 0)%nat; [discriminate|].
  destruct analyzer as [|message|analyzerResults]; try discriminate.
  set (types := if (0 <? _)%nat then _ else _).
  set (threshold := acceptanceThresholdOf B _).
  set (allowlistSet := buildTermSet B (getPropOpt body (js "allowlist"))).
  destruct (filterAnalyzerResults B analyzerResults text types threshold
              allowlistSet (buildTermSet B (getPropOpt body (js "denylist"))))
    as [output|err] eqn:Hrun; [|discriminate].
  destruct anonymizer as [|message|anonymizerResult]; try discriminate.
  destruct (getProp anonymizerResult (js "text")); try discriminate.
  destruct (getProp anonymizerResult (js "anonymized_text")); try discriminate.
  destruct (getProp anonymizerResult (js "items")); try discriminate.
  intros [= _ _ <-]. exists text. split; [reflexivity|].
  destruct (filterAnalyzerResults_merges analyzerResults text types threshold
              allowlistSet (buildTermSet B (getPropOpt body (js "denylist"))))
    as [kept Hm].
  rewrite Hm in Hrun.
  destruct (mergeEntities_represents _ _ _ Hrun) as [Hnd Hrep].
  split; [exact Hnd|]. split; [eapply mergeEntities_wellFormed; exact Hrun|].
  intros term i Hin Hocc.
  assert (Hset : term ∈ buildTermSet B (getPropOpt body (js "denylist")))
    by (apply setFromList_elem; exact Hin).
  assert (Hne : term <> []).
  { intros ->. exact (buildTermSet_nonempty B _ Hset). }
  destruct (findDenylistEntities_matches B text
              (buildTermSet B (getPropOpt body (js "denylist"))))
    as (matches & HF & HD).
  destruct (termEntities_of_term _ text _ _ term HF Hset)
    as (starts & Hstarts & Hsub).
  destruct term as [|c t]; [contradiction|]. cbn [termMatches] in Hstarts.
  destruct (GreedyMatches_cover _ _ _ _ i Hstarts (Nat.le_0_l i) Hocc)
    as (p & Hp & Hpi).
  destruct (Hrep (denylistEntity text p (p + length (c :: t)))) as (e & He & Hke).
  - rewrite HD. apply Hsub. unfold termEntities.
    apply list_elem_of_In, in_map_iff. exists p.
    split; [reflexivity|]. apply list_elem_of_In. exact Hp.
  - apply wellFormed_denylistEntity. cbn [length]. lia.
  - exists e, p. split; [exact He|]. split; [exact Hpi|]. split; [|exact Hke].
    pose proof (GreedyMatches_occurs _ _ _ _ Hstarts) as Hall.
    rewrite Forall_forall in Hall. apply Hall. exact Hp.
Qed.
End Answer.

(** The deny term "jan" in "Call Jan Jansen", the analyzer finding
    nothing: the answer holds the two matches of the scanner. *)
Lemma postAnonymize_covers_denylist_witness :
  let body := JObj [ (js "text", JStr (js "Call Jan Jansen"));
                     (js "denylist", JStr (js "Jan")) ] in
  let analyzer := ServiceJson (JArr []) in
  let anonymizer :=
    ServiceJson (JObj [ (js "text", JStr (js "Call <DENYLIST_TERM> <DENYLIST_TERM>sen")) ]) in
  let entities := [ denylistEntity (js "Call Jan Jansen") 5 8;
                    denylistEntity (js "Call Jan Jansen") 9 12 ] in
  postAnonymize asciiBuiltins body analyzer anonymizer
  = Status200 (JStr (js "Call <DENYLIST_TERM> <DENYLIST_TERM>sen")) (JArr []) entities
  /\ exists text,
       getPropOpt (coalesce body (JObj [])) (js "text") = JStr text
       /\ NoDup (List.map (keyStr asciiBuiltins) entities)
       /\ Forall (fun e => wellFormed e = true) entities
       /\ forall term i,
            term ∈ parseListInput asciiBuiltins (getPropOpt body (js "denylist")) ->
            occursAt (toLowerCase asciiBuiltins text) term i ->
            exists e p,
              e ∈ entities
              /\ p <= i < p + length term
              /\ occursAt (toLowerCase asciiBuiltins text) term p
              /\ keyStr asciiBuiltins e
                 = keyStr asciiBuiltins (denylistEntity text p (p + length term)).
Proof.
  intros body analyzer anonymizer entities.
  assert (H : postAnonymize asciiBuiltins body analyzer anonymizer
              = Status200 (JStr (js "Call <DENYLIST_TERM> <DENYLIST_TERM>sen"))
                  (JArr []) entities)
    by (vm_compute; reflexivity).
  split; [exact H|].
  exact (postAnonymize_covers_denylist asciiBuiltins body analyzer anonymizer
           _ _ entities H).
Defined.
